(** * Reflex: a shallow embedding of the protocol core of xray-core/proxy/reflex

    The development follows the Go sources file by file:
    - [encoding/binary] helpers used by the codecs,
    - [encoding/frame.go]      (FrameEncoder, FrameDecoder, morphing writer),
    - [encoding/morphing.go]   (traffic profiles, weighted sampling, padding),
    - [encoding/handshake.go]  (handshake records, timestamp validation),
    - [validator.go]           (user validator),
    - [inbound/conn.go]        (fallback table lookup),
    - [inbound/inbound.go]     (inbound handshake, request header, first frame).

    Go integers are modelled as [Z] with the wrap-around of their width written
    out; byte slices are [list byte]; Go maps are stdpp [gmap]s; a function
    returning [(T, error)] returns a [result T], with run-time panics kept
    apart from returned errors. *)

From Stdlib Require Import ZArith List Lia String.
From Stdlib.Strings Require Import Byte.
From Stdlib Require Import Floats.PrimFloat.
From stdpp Require Import base gmap strings list.

Local Open Scope string_scope.
Local Open Scope list_scope.
Local Open Scope Z_scope.

(** ** Results of fallible calls *)

Inductive result (A : Type) : Type :=
| Ok (a : A)
| Err (msg : string)
| Panic (msg : string).
Arguments Ok {A} a.
Arguments Err {A} msg.
Arguments Panic {A} msg.

Definition is_Ok {A} (r : result A) : bool :=
  match r with Ok _ => true | _ => false end.

(** Go's [len], an [int]. *)
Definition len {A} (l : list A) : Z := Z.of_nat (length l).

(** Go's slice expression [s[lo:hi]] for in-range bounds. *)
Definition slice {A} (lo hi : nat) (s : list A) : list A :=
  take (hi - lo) (drop lo s).

(** Bytes are compared and used as map keys through their numeric value. *)
Lemma byte_to_N_inj (a b : byte) : Byte.to_N a = Byte.to_N b -> a = b.
Proof.
  intros E. apply (f_equal Byte.of_N) in E.
  rewrite !Byte.of_to_N in E. now injection E.
Qed.

#[export] Instance byte_eq_decision : EqDecision byte :=
  fun a b =>
    match decide (Byte.to_N a = Byte.to_N b) with
    | left E => left (byte_to_N_inj a b E)
    | right NE => right (fun E => NE (f_equal Byte.to_N E))
    end.

#[export] Instance byte_countable : Countable byte :=
  inj_countable Byte.to_N Byte.of_N Byte.of_to_N.

(** ** Bytes and [encoding/binary] *)

Module Bin.

Definition byte_to_Z (b : byte) : Z := Z.of_N (Byte.to_N b).

(** The conversion [byte(v)] of an integer: truncation to the low 8 bits. *)
Definition byte_of_Z (v : Z) : byte :=
  default x00 (Byte.of_N (Z.to_N (v mod 256))).

(** [n] bytes of [v], least significant first. *)
Fixpoint le_bytes (n : nat) (v : Z) : list byte :=
  match n with
  | O => []
  | S n' => byte_of_Z v :: le_bytes n' (v / 256)
  end.

(** The unsigned value of a little-endian byte string. *)
Fixpoint le_Z (l : list byte) : Z :=
  match l with
  | [] => 0
  | b :: l' => byte_to_Z b + 256 * le_Z l'
  end.

Definition be_bytes (n : nat) (v : Z) : list byte := rev (le_bytes n v).
Definition be_Z (l : list byte) : Z := le_Z (rev l).

(** [binary.LittleEndian.PutUint64(buf, v)]: overwrites [buf[0:8]]. *)
Definition LittleEndian_PutUint64 (buf : list byte) (v : Z) : list byte :=
  le_bytes 8 v ++ drop 8 buf.

(** [binary.BigEndian.PutUint16(buf[0:2], v)] seen as the two bytes written. *)
Definition BigEndian_PutUint16 (v : Z) : list byte := be_bytes 2 v.
Definition BigEndian_PutUint32 (v : Z) : list byte := be_bytes 4 v.
Definition BigEndian_PutUint64 (v : Z) : list byte := be_bytes 8 v.

Definition BigEndian_Uint16 (b : list byte) : Z := be_Z (take 2 b).
Definition BigEndian_Uint32 (b : list byte) : Z := be_Z (take 4 b).
Definition BigEndian_Uint64 (b : list byte) : Z := be_Z (take 8 b).

(** Integer conversions. *)
Definition uint16 (v : Z) : Z := v mod 2 ^ 16.
Definition uint64 (v : Z) : Z := v mod 2 ^ 64.
Definition int64 (v : Z) : Z := (v + 2 ^ 63) mod 2 ^ 64 - 2 ^ 63.

End Bin.

(** ** The AEAD interface

    [chacha20poly1305.New(key)] yields a [cipher.AEAD]; the codecs only call
    [Seal(dst[:0], nonce, plaintext, nil)] and [Open(dst[:0], nonce,
    ciphertext, nil)].  The cipher itself is a dependency of the repository,
    so it is an interface here: the key stands for the keyed AEAD object. *)

Class Cipher := {
  aead_Seal : list byte -> list byte -> list byte -> list byte;
  aead_Open : list byte -> list byte -> list byte -> option (list byte)
}.

(** What the codecs rely on: opening what was sealed under the same key and
    nonce gives the plaintext back, and a ciphertext is its plaintext plus a
    16-byte tag. *)
Class CipherCorrect `{Cipher} : Prop := {
  aead_Open_Seal : forall k n p, aead_Open k n (aead_Seal k n p) = Some p;
  aead_Seal_length : forall k n p,
    length (aead_Seal k n p) = (length p + 16)%nat;
  aead_Open_length : forall k n c p,
    aead_Open k n c = Some p -> length c = (length p + 16)%nat
}.

(** Authentication binds the nonce: a ciphertext sealed under one 12-byte
    nonce does not open under another. *)
Class CipherNonceBinding `{Cipher} : Prop :=
  aead_Open_other_nonce : forall k n n' p,
    length n = 12%nat -> length n' = 12%nat -> n <> n' ->
    aead_Open k n' (aead_Seal k n p) = None.

(** ** [io.Writer] *)

Class Writer (W : Type) := Write : W -> list byte -> result unit * W.

(** An in-memory sink such as [bytes.Buffer]: [Write] appends and never fails. *)
#[export] Instance Buffer_Writer : Writer (list byte) :=
  fun w p => (Ok tt, w ++ p).

(** ** encoding/frame.go *)

Module Encoding.
Import Bin.

Definition FrameTypeData : byte := x01.
Definition FrameTypePadding : byte := x02.
Definition FrameTypeTiming : byte := x03.
Definition FrameTypeClose : byte := x04.
Definition MaxFramePayloadSize : Z := 16384.

Definition KeySize : Z := 32.
Definition NonceSize : nat := 12.

(** [Frame.Type] is spelled [FType]: [Type] is reserved. *)
Record Frame := mkFrame { FType : byte; Payload : list byte }.

(** [aead] holds the key the AEAD object was built from. *)
Record FrameEncoder := mkFrameEncoder {
  e_aead : list byte;
  e_nonce : list byte;
  e_counter : Z
}.

Record FrameDecoder := mkFrameDecoder {
  d_aead : list byte;
  d_nonce : list byte;
  d_counter : Z
}.

Definition NewFrameEncoder (sessionKey : list byte) : result FrameEncoder :=
  if len sessionKey =? KeySize
  then Ok {| e_aead := sessionKey; e_nonce := replicate NonceSize x00; e_counter := 0 |}
  else Err "chacha20poly1305: bad key length".

Definition NewFrameDecoder (sessionKey : list byte) : result FrameDecoder :=
  if len sessionKey =? KeySize
  then Ok {| d_aead := sessionKey; d_nonce := replicate NonceSize x00; d_counter := 0 |}
  else Err "chacha20poly1305: bad key length".

Section Codec.
Context `{Cipher}.

(** The bytes [Encode] and [EncodeToWriter] both build, with the encoder
    after [e.counter++] and [PutUint64(e.nonce, e.counter)]. *)
Definition encodeFrame (e : FrameEncoder) (frame : Frame)
  : list byte * FrameEncoder :=
  let counter := uint64 (e_counter e + 1) in
  let nonce := LittleEndian_PutUint64 (e_nonce e) counter in
  let plaintext := FType frame :: Payload frame in
  let ciphertext := aead_Seal (e_aead e) nonce plaintext in
  let frameData := BigEndian_PutUint16 (uint16 (len ciphertext)) ++ ciphertext in
  (frameData, {| e_aead := e_aead e; e_nonce := nonce; e_counter := counter |}).

(** [Encode]: the error it returns is always [nil]. *)
Definition Encode (e : FrameEncoder) (frame : Frame)
  : result (list byte) * FrameEncoder :=
  let '(frameData, e') := encodeFrame e frame in (Ok frameData, e').

Definition EncodeToWriter {W} `{Writer W}
    (e : FrameEncoder) (w : W) (frame : Frame)
  : result unit * FrameEncoder * W :=
  let '(frameData, e') := encodeFrame e frame in
  let '(err, w') := Write w frameData in
  (err, e', w').

Definition WriteFrame {W} `{Writer W}
    (e : FrameEncoder) (w : W) (frame : Frame)
  : result unit * FrameEncoder * W :=
  EncodeToWriter e w frame.

(** [Decode].  [2+length] is computed in [uint16] and wraps; once the length
    check has passed, the slice [data[2 : 2+length]] panics when the wrapped
    bound is below 2. *)
Definition Decode (d : FrameDecoder) (data : list byte)
  : result Frame * FrameDecoder :=
  if len data <? 2 then (Err "frame too short", d) else
  let length := BigEndian_Uint16 (slice 0 2 data) in
  let hi := uint16 (2 + length) in
  if len data <? hi then (Err "incomplete frame", d) else
  if hi <? 2 then (Panic "slice bounds out of range", d) else
  let ciphertext := slice 2 (Z.to_nat hi) data in
  let counter := uint64 (d_counter d + 1) in
  let nonce := LittleEndian_PutUint64 (d_nonce d) counter in
  let d' := {| d_aead := d_aead d; d_nonce := nonce; d_counter := counter |} in
  match aead_Open (d_aead d) nonce ciphertext with
  | None => (Err "decryption failed", d')
  | Some plaintext =>
      match plaintext with
      | [] => (Err "invalid plaintext", d')
      | t :: payload => (Ok {| FType := t; Payload := payload |}, d')
      end
  end.

(** [io.ReadFull] on a reader seen as the bytes still to come: a short read
    drains the reader and fails. *)
Definition ReadFull (n : nat) (r : list byte) : result (list byte) * list byte :=
  if (length r <? n)%nat
  then (Err (if (length r =? 0)%nat then "EOF" else "unexpected EOF"), [])
  else (Ok (take n r), drop n r).

Definition ReadFrame (d : FrameDecoder) (r : list byte)
  : result Frame * FrameDecoder * list byte :=
  match ReadFull 2 r with
  | (Ok lengthBuf, r1) =>
      let length := BigEndian_Uint16 lengthBuf in
      if length =? 0 then (Err "zero-length frame", d, r1) else
      match ReadFull (Z.to_nat length) r1 with
      | (Ok body, r2) =>
          let '(res, d') := Decode d (lengthBuf ++ body) in (res, d', r2)
      | (Err e, r2) => (Err e, d, r2)
      | (Panic e, r2) => (Panic e, d, r2)
      end
  | (Err e, r1) => (Err e, d, r1)
  | (Panic e, r1) => (Panic e, d, r1)
  end.

End Codec.
End Encoding.

(** ** encoding/morphing.go *)

Module Morphing.
Import Bin Encoding.

(** [time.Duration]: nanoseconds. *)
Definition Millisecond : Z := 1000000.

Record PacketSizePattern := mkPacketSize { Size : Z; Weight : float }.
Record DelayPattern := mkDelay { Delay : Z; DWeight : float }.

Record TrafficProfile := mkProfile {
  Name : string;
  PacketSizes : list PacketSizePattern;
  Delays : list DelayPattern
}.

(** Decimal weights denote the nearest binary64 value, as in Go. *)
#[local] Set Warnings "-inexact-float".

Definition YouTubeProfile : TrafficProfile :=
  {| Name := "YouTube";
     PacketSizes := [mkPacketSize 1400 0.4; mkPacketSize 1200 0.3;
                     mkPacketSize 1000 0.2; mkPacketSize 800 0.1];
     Delays := [mkDelay (10 * Millisecond) 0.5; mkDelay (20 * Millisecond) 0.3;
                mkDelay (30 * Millisecond) 0.2] |}.

Definition ZoomProfile : TrafficProfile :=
  {| Name := "Zoom";
     PacketSizes := [mkPacketSize 500 0.3; mkPacketSize 600 0.4;
                     mkPacketSize 700 0.3];
     Delays := [mkDelay (30 * Millisecond) 0.4; mkDelay (40 * Millisecond) 0.4;
                mkDelay (50 * Millisecond) 0.2] |}.

Definition HTTP2APIProfile : TrafficProfile :=
  {| Name := "HTTP/2 API";
     PacketSizes := [mkPacketSize 200 0.2; mkPacketSize 500 0.3;
                     mkPacketSize 1000 0.3; mkPacketSize 1500 0.2];
     Delays := [mkDelay (5 * Millisecond) 0.3; mkDelay (10 * Millisecond) 0.4;
                mkDelay (15 * Millisecond) 0.3] |}.

(** The process-wide [math/rand] source, as the tape of values it will
    return: [Float64] takes one value, [Read] fills a buffer. *)
Record Rand := mkRand {
  rand_float : nat -> float;
  rand_byte : nat -> byte;
  rand_pos : nat
}.

Definition advance (n : nat) (g : Rand) : Rand :=
  {| rand_float := rand_float g; rand_byte := rand_byte g;
     rand_pos := (rand_pos g + n)%nat |}.

Definition Float64 (g : Rand) : float * Rand :=
  (rand_float g (rand_pos g), advance 1 g).

Definition Read (n : nat) (g : Rand) : list byte * Rand :=
  (map (rand_byte g) (seq (rand_pos g) n), advance n g).

(** The loop of [GetPacketSize]: the first pattern whose cumulative weight
    reaches [r]. *)
Fixpoint pickSize (r cumulative : float) (ps : list PacketSizePattern)
  : option Z :=
  match ps with
  | [] => None
  | pattern :: rest =>
      let cumulative := PrimFloat.add cumulative (Weight pattern) in
      if PrimFloat.leb r cumulative then Some (Size pattern)
      else pickSize r cumulative rest
  end.

Definition GetPacketSize (p : TrafficProfile) (g : Rand) : result Z * Rand :=
  let '(r, g') := Float64 g in
  match pickSize r 0%float (PacketSizes p) with
  | Some size => (Ok size, g')
  | None =>
      match last (PacketSizes p) with
      | Some pattern => (Ok (Size pattern), g')
      | None => (Panic "index out of range [-1]", g')
      end
  end.

Fixpoint pickDelay (r cumulative : float) (ds : list DelayPattern)
  : option Z :=
  match ds with
  | [] => None
  | pattern :: rest =>
      let cumulative := PrimFloat.add cumulative (DWeight pattern) in
      if PrimFloat.leb r cumulative then Some (Delay pattern)
      else pickDelay r cumulative rest
  end.

Definition GetDelay (p : TrafficProfile) (g : Rand) : result Z * Rand :=
  let '(r, g') := Float64 g in
  match pickDelay r 0%float (Delays p) with
  | Some delay => (Ok delay, g')
  | None =>
      match last (Delays p) with
      | Some pattern => (Ok (Delay pattern), g')
      | None => (Panic "index out of range [-1]", g')
      end
  end.

Definition AddPadding (data : list byte) (targetSize : Z) (g : Rand)
  : result (list byte) * Rand :=
  if targetSize <=? len data then
    if targetSize <? 0 then (Panic "slice bounds out of range", g)
    else (Ok (take (Z.to_nat targetSize) data), g)
  else
    let '(padding, g') := Read (Z.to_nat (targetSize - len data)) g in
    (Ok (data ++ padding), g').

Definition GetProfileByName (name : string) : TrafficProfile :=
  if String.eqb name "youtube" then YouTubeProfile
  else if String.eqb name "zoom" then ZoomProfile
  else HTTP2APIProfile.

Record MorphingConfig := mkMorphingConfig {
  Enabled : bool;
  Profile : option TrafficProfile
}.

Definition NewMorphingConfig (enabled : bool) (profileName : string)
  : MorphingConfig :=
  {| Enabled := enabled;
     Profile := if enabled then Some (GetProfileByName profileName) else None |}.

(** *** [FrameEncoder.WriteFrameWithMorphing] (frame.go)

    The method acts on the encoder, the writer, the random source and the
    clock.  [World] gathers them; [w_trace] records, in order, each frame
    handed to [WriteFrame] and each [time.Sleep]. *)

Inductive Effect :=
| WroteFrame (f : Frame)
| Slept (d : Z).

Record World (W : Type) := mkWorld {
  w_enc : FrameEncoder;
  w_out : W;
  w_rand : Rand;
  w_trace : list Effect
}.
Arguments mkWorld {W}.
Arguments w_enc {W}.
Arguments w_out {W}.
Arguments w_rand {W}.
Arguments w_trace {W}.

Section Morph.
Context `{Cipher} {W : Type} `{Writer W}.

Definition with_rand (g : Rand) (s : World W) : World W :=
  mkWorld (w_enc s) (w_out s) g (w_trace s).

(** [e.WriteFrame(w, frame)] *)
Definition writeFrame (frame : Frame) (s : World W) : result unit * World W :=
  let '(err, e', w') := WriteFrame (w_enc s) (w_out s) frame in
  (err, mkWorld e' w' (w_rand s) (w_trace s ++ [WroteFrame frame])).

(** [delay := config.Profile.GetDelay(); if delay > 0 { time.Sleep(delay) }] *)
Definition applyDelay (p : TrafficProfile) (s : World W)
  : result unit * World W :=
  match GetDelay p (w_rand s) with
  | (Ok delay, g) =>
      (Ok tt,
       mkWorld (w_enc s) (w_out s) g
         (if 0 <? delay then w_trace s ++ [Slept delay] else w_trace s))
  | (Err m, g) => (Err m, with_rand g s)
  | (Panic m, g) => (Panic m, with_rand g s)
  end.

(** The recursion of the source is on the remainder of the payload and is
    not structural; [fuel] bounds the number of sampled targets, and [None]
    means the bound was reached. *)
Fixpoint WriteFrameWithMorphing (fuel : nat) (frame : Frame)
    (config : option MorphingConfig) (s : World W)
  : option (result unit * World W) :=
  match config with
  | Some (mkMorphingConfig true (Some profile)) =>
      match fuel with
      | O => None
      | S fuel' =>
          match GetPacketSize profile (w_rand s) with
          | (Ok targetSize, g) =>
              let s1 := with_rand g s in
              if targetSize <? len (Payload frame) then
                if targetSize <? 0
                then Some (Panic "slice bounds out of range", s1)
                else
                  let firstChunk := take (Z.to_nat targetSize) (Payload frame) in
                  let firstFrame := mkFrame (FType frame) firstChunk in
                  match writeFrame firstFrame s1 with
                  | (Ok _, s2) =>
                      match applyDelay profile s2 with
                      | (Ok _, s3) =>
                          let remaining :=
                            drop (Z.to_nat targetSize) (Payload frame) in
                          let remainingFrame := mkFrame (FType frame) remaining in
                          WriteFrameWithMorphing fuel' remainingFrame config s3
                      | (Err m, s3) => Some (Err m, s3)
                      | (Panic m, s3) => Some (Panic m, s3)
                      end
                  | (Err m, s2) => Some (Err m, s2)
                  | (Panic m, s2) => Some (Panic m, s2)
                  end
              else
                match AddPadding (Payload frame) targetSize g with
                | (Ok paddedPayload, g') =>
                    let morphedFrame := mkFrame (FType frame) paddedPayload in
                    match writeFrame morphedFrame (with_rand g' s) with
                    | (Ok _, s2) => Some (applyDelay profile s2)
                    | (Err m, s2) => Some (Err m, s2)
                    | (Panic m, s2) => Some (Panic m, s2)
                    end
                | (Err m, g') => Some (Err m, with_rand g' s)
                | (Panic m, g') => Some (Panic m, with_rand g' s)
                end
          | (Err m, g) => Some (Err m, with_rand g s)
          | (Panic m, g) => Some (Panic m, with_rand g s)
          end
      end
  | _ => Some (writeFrame frame s)
  end.

End Morph.

(** The payloads of the frames handed to [WriteFrame], in order. *)
Definition written_payloads (t : list Effect) : list (list byte) :=
  omap (fun ev => match ev with WroteFrame f => Some (Payload f) | _ => None end) t.

End Morphing.

(** ** encoding/handshake.go *)

Module Handshake.
Import Bin.

Definition ReflexMagic : Z := 0x5246584C.

(** Fixed-size arrays are byte lists of that size. *)
Record ClientHandshake := mkClientHandshake {
  PublicKey : list byte;
  UserID : list byte;
  Timestamp : Z;
  Nonce : list byte
}.

Record ServerHandshake := mkServerHandshake {
  SPublicKey : list byte;
  STimestamp : Z
}.

Definition EncodeClientHandshake (hs : ClientHandshake) : list byte :=
  BigEndian_PutUint32 ReflexMagic ++ PublicKey hs ++ UserID hs
    ++ BigEndian_PutUint64 (uint64 (Timestamp hs)) ++ Nonce hs.

Definition DecodeClientHandshake (data : list byte) : result ClientHandshake :=
  if len data <? 76 then Err "handshake packet too short" else
  let magic := BigEndian_Uint32 (slice 0 4 data) in
  if negb (magic =? ReflexMagic) then Err "invalid magic number" else
  Ok {| Timestamp := int64 (BigEndian_Uint64 (slice 52 60 data));
        PublicKey := slice 4 36 data;
        UserID := slice 36 52 data;
        Nonce := slice 60 76 data |}.

Definition EncodeServerHandshake (hs : ServerHandshake) : list byte :=
  SPublicKey hs ++ BigEndian_PutUint64 (uint64 (STimestamp hs)).

Definition DecodeServerHandshake (data : list byte) : result ServerHandshake :=
  if len data <? 40 then Err "handshake response too short" else
  Ok {| STimestamp := int64 (BigEndian_Uint64 (slice 32 40 data));
        SPublicKey := slice 0 32 data |}.

(** [ValidateTimestamp]; [now] is [time.Now().Unix()].  Subtraction and
    negation are those of [int64]. *)
Definition ValidateTimestamp (now timestamp : Z) : bool :=
  let diff := int64 (now - timestamp) in
  let diff := if diff <? 0 then int64 (- diff) else diff in
  diff <=? 120.

End Handshake.

(** ** validator.go *)

Module Reflex.

Record MemoryAccount := mkMemoryAccount {
  ID : list byte;
  Policy : string
}.

(** [protocol.MemoryUser]; its [Account] is always a [*MemoryAccount] here. *)
Record MemoryUser := mkMemoryUser {
  Account : MemoryAccount;
  Email : string;
  Level : Z
}.

Record Validator := mkValidator {
  users : gmap (list byte) MemoryUser
}.

Definition NewValidator : Validator := {| users := ∅ |}.

(** [var idArray [16]byte; copy(idArray[:], idBytes)] *)
Definition idArray (idBytes : list byte) : list byte :=
  take 16 (idBytes ++ replicate 16 x00).

Definition Add (v : Validator) (u : MemoryUser) : result unit * Validator :=
  (Ok tt, {| users := <[idArray (ID (Account u)) := u]> (users v) |}).

Definition Get (v : Validator) (userID : list byte) : result MemoryUser :=
  match users v !! userID with
  | Some user => Ok user
  | None => Err "user not found"
  end.

(** [Remove] ranges over the map and deletes the first entry it meets whose
    email matches.  Go leaves the iteration order of a map unspecified:
    [order] is the order in which this run meets the entries. *)
Definition Remove_in (order : list (list byte * MemoryUser))
    (v : Validator) (email : string) : result unit * Validator :=
  match List.find (fun '(_, user) => String.eqb (Email user) email) order with
  | Some (id, _) => (Ok tt, {| users := delete id (users v) |})
  | None => (Err "user not found", v)
  end.

(** The possible outcomes of [Remove]: one for each order of iteration. *)
Definition Remove (v : Validator) (email : string)
    (out : result unit * Validator) : Prop :=
  exists order, order ≡ₚ map_to_list (users v) /\ out = Remove_in order v email.

End Reflex.

(** ** inbound/config.go, inbound/conn.go, inbound/inbound.go *)

Module Inbound.
Import Bin Encoding Handshake Reflex.

Record Fallback := mkFallback {
  FName : string;
  Alpn : string;
  Path : string;
  FType_ : string;
  Dest : string;
  Xver : Z
}.

(** [Clients] are the users after [ToMemoryUser]; [Fallbacks] is [None] for a
    nil slice. *)
Record Config := mkConfig {
  Clients : list MemoryUser;
  Fallbacks : option (list Fallback)
}.

Record Handler := mkHandler {
  validator : Validator;
  fallbacks : option (gmap string (gmap string (gmap string Fallback)))
}.

(** The loop of [New] that fills [handler.fallbacks]. *)
Definition addFallback (t : gmap string (gmap string (gmap string Fallback)))
    (fb : Fallback) : gmap string (gmap string (gmap string Fallback)) :=
  let byAlpn := default ∅ (t !! FName fb) in
  let byPath := default ∅ (byAlpn !! Alpn fb) in
  <[FName fb := <[Alpn fb := <[Path fb := fb]> byPath]> byAlpn]> t.

Definition New (config : Config) : Handler :=
  {| validator :=
       fold_left (fun v u => (Add v u).2) (Clients config) NewValidator;
     fallbacks :=
       match Fallbacks config with
       | None => None
       | Some fbs => Some (fold_left addFallback fbs ∅)
       end |}.

(** [findFallback] *)
Definition findFallback (h : Handler) (name alpn path : string)
  : option Fallback :=
  match fallbacks h with
  | None => None
  | Some fallbacks =>
      let inName (apfb : gmap string (gmap string Fallback)) : option Fallback :=
        let inAlpn (pfb : gmap string Fallback) : option Fallback :=
          match pfb !! path with
          | Some fb => Some fb
          | None => pfb !! ""
          end in
        match
          match apfb !! alpn with
          | Some pfb => inAlpn pfb
          | None => None
          end
        with
        | Some fb => Some fb
        | None =>
            match apfb !! "" with
            | Some pfb => inAlpn pfb
            | None => None
            end
        end in
      match
        match fallbacks !! name with
        | Some apfb => inName apfb
        | None => None
        end
      with
      | Some fb => Some fb
      | None =>
          match fallbacks !! "" with
          | Some apfb => inName apfb
          | None => None
          end
      end
  end.

(** What [handleFallback] does with the connection once the peeked bytes
    have given [name], [alpn] and [path]. *)
Inductive FallbackRoute :=
| Rejected (err : string)
| Forwarded (fb : Fallback).

Definition routeFallback (h : Handler) (name alpn path : string)
  : FallbackRoute :=
  let fb := findFallback h name alpn path in
  let fb := match fb with
            | None => findFallback h "" "" ""
            | Some _ => fb
            end in
  match fb with
  | None => Rejected "no fallback configured"
  | Some fb => Forwarded fb
  end.

(** *** The inbound handshake up to authentication

    [conn_in] holds the bytes still to be read from the connection (through
    the buffered reader), [conn_out] the bytes written to it. *)
Record Conn := mkConn {
  conn_in : list byte;
  conn_out : list byte
}.

Inductive HandshakeStep :=
| Failed (err : string)
| HandedToFallback
| Authenticated (clientHS : ClientHandshake) (account : MemoryUser).

(** [handleReflexHandshake] from its start to the lookup of the user. *)
Definition handleReflexHandshake (h : Handler) (now : Z) (conn : Conn)
  : HandshakeStep * Conn :=
  match ReadFull 76 (conn_in conn) with
  | (Ok handshakeData, rest) =>
      let conn := mkConn rest (conn_out conn) in
      match DecodeClientHandshake handshakeData with
      | Ok clientHS =>
          if negb (ValidateTimestamp now (Timestamp clientHS))
          then (Failed "invalid timestamp", conn)
          else
            match Get (validator h) (UserID clientHS) with
            | Ok account => (Authenticated clientHS account, conn)
            | _ => (HandedToFallback, conn)
            end
      | _ => (Failed "invalid handshake", conn)
      end
  | (_, rest) => (Failed "failed to read handshake", mkConn rest (conn_out conn))
  end.

(** [Process]: the first 76 bytes are peeked (fewer when the stream ends
    before); a connection that opens with the magic goes to the handshake,
    any other one to the fallback path, with nothing consumed. *)
Definition Process (h : Handler) (now : Z) (conn : Conn)
  : HandshakeStep * Conn :=
  let peeked := take 76 (conn_in conn) in
  if (4 <=? len peeked)
     && (BigEndian_Uint32 (slice 0 4 peeked) =? ReflexMagic)
  then handleReflexHandshake h now conn
  else (HandedToFallback, conn).

(** *** The request header *)

Inductive Address :=
| IPAddress (ip : list byte)
| DomainAddress (domain : list byte).

Record RequestHeader := mkRequestHeader {
  Version : Z;
  Command : byte;
  Port : Z;
  RAddress : option Address
}.

Definition parseRequestHeader (payload : list byte) : result RequestHeader :=
  if len payload <? 4 then Err "payload too short" else
  let command := nth 0 payload x00 in
  let port := BigEndian_Uint16 (slice 1 3 payload) in
  let request addr := Ok (mkRequestHeader 1 command port addr) in
  if 7 <=? len payload then
    let addrType := byte_to_Z (nth 3 payload x00) in
    if addrType =? 1 then
      if len payload <? 8 then Err "invalid IPv4 address"
      else request (Some (IPAddress (slice 4 8 payload)))
    else if addrType =? 3 then
      if len payload <? 5 then Err "invalid domain address" else
      let domainLen := byte_to_Z (nth 4 payload x00) in
      if len payload <? 5 + domainLen then Err "incomplete domain address"
      else request (Some (DomainAddress
                            (slice 5 (5 + Z.to_nat domainLen) payload)))
    else if addrType =? 4 then
      if len payload <? 20 then Err "invalid IPv6 address"
      else request (Some (IPAddress (slice 4 20 payload)))
    else Err "unknown address type"
  else request None.

(** The first write of [requestDone]: the part of the first frame's payload
    that goes to the dispatcher link, if any. *)
Definition firstFrameData (payload : list byte) : option (list byte) :=
  if 12 <? len payload then
    let headerSize := 12%nat in
    if (Z.of_nat headerSize <? len payload) then Some (drop headerSize payload)
    else None
  else None.

(** The loop of [requestDone] (and of the outbound [responseDone]): frames
    are read until an error or a CLOSE frame; DATA payloads go to the link.
    [fuel] bounds the number of frames read. *)
Section Relay.
Context `{Cipher} {L : Type} `{Writer L}.

Fixpoint relayFrames (fuel : nat) (d : FrameDecoder) (reader : list byte)
    (link : L) : option (result unit * FrameDecoder * list byte * L) :=
  match fuel with
  | O => None
  | S fuel' =>
      match ReadFrame d reader with
      | (Ok frame, d', reader') =>
          if Byte.eqb (FType frame) FrameTypeData then
            match Write link (Payload frame) with
            | (Ok _, link') => relayFrames fuel' d' reader' link'
            | (Err m, link') => Some (Err m, d', reader', link')
            | (Panic m, link') => Some (Panic m, d', reader', link')
            end
          else if Byte.eqb (FType frame) FrameTypeClose then
            Some (Ok tt, d', reader', link)
          else if Byte.eqb (FType frame) FrameTypePadding
                  || Byte.eqb (FType frame) FrameTypeTiming then
            relayFrames fuel' d' reader' link
          else Some (Err "unknown frame type", d', reader', link)
      | (Err m, d', reader') => Some (Err m, d', reader', link)
      | (Panic m, d', reader') => Some (Panic m, d', reader', link)
      end
  end.

End Relay.

End Inbound.

(** ** outbound: the request header the client sends *)

Module Outbound.
Import Bin Inbound.

Inductive AddressFamily := AddressFamilyIPv4 | AddressFamilyIPv6 | AddressFamilyDomain.

Record Target := mkTarget {
  TCommand : byte;
  TPort : Z;
  TFamily : AddressFamily;
  TAddress : list byte
}.

(** [encodeRequestHeader] *)
Definition encodeRequestHeader (request : Target) : list byte :=
  let portNum := uint16 (TPort request) in
  [TCommand request; byte_of_Z (portNum / 256); byte_of_Z portNum] ++
  match TFamily request with
  | AddressFamilyIPv4 => [x01] ++ TAddress request
  | AddressFamilyIPv6 => [x04] ++ TAddress request
  | AddressFamilyDomain =>
      [x03] ++ [byte_of_Z (len (TAddress request))] ++ TAddress request
  end.

End Outbound.

(** ** A reference cipher

    A small keyed cipher with the shape of an AEAD (a 16-byte tag that
    carries the nonce).  It shows that the interface assumptions above can be
    met together, and instantiates the codec theorems at concrete inputs; it
    makes no claim of secrecy. *)

Module ToyCipher.
Import Bin.

Definition mask (k n : list byte) : Z :=
  fold_right (fun b acc => (byte_to_Z b + acc) mod 256) 0 (k ++ n).

Definition shift (m : Z) (b : byte) : byte := byte_of_Z (byte_to_Z b + m).

Definition tag (k n body : list byte) : list byte :=
  take 12 (n ++ replicate 12 x00) ++ replicate 4 (byte_of_Z (mask k body)).

Definition toy_Seal (k n p : list byte) : list byte :=
  let body := map (shift (mask k n)) p in
  body ++ tag k n body.

Definition toy_Open (k n c : list byte) : option (list byte) :=
  if (length c <? 16)%nat then None else
  let body := take (length c - 16) c in
  let t := drop (length c - 16) c in
  if decide (t = tag k n body)
  then Some (map (shift (- mask k n)) body)
  else None.

#[export] Instance toy : Cipher :=
  {| aead_Seal := toy_Seal; aead_Open := toy_Open |}.

End ToyCipher.

(** ** Sessions, specification-side notions and sample inputs

    What follows is not code of the repository: it names the situations the
    properties below speak about (a decoder in step with an encoder, a run
    of frames through one session, the lookup order and the header layout as
    the specification words them), and the concrete inputs at which the
    model is run. *)

Import Bin Encoding Morphing Handshake Reflex Inbound Outbound.

(** Encoder and decoder agree on everything the next nonce depends on. *)
Definition synced (e : FrameEncoder) (d : FrameDecoder) : Prop :=
  d_aead d = e_aead e /\ d_counter d = e_counter e /\
  drop 8 (d_nonce d) = drop 8 (e_nonce e).

Definition small (f : Frame) : Prop := len (Payload f) <= MaxFramePayloadSize.

Section Sessions.
Context `{Cipher}.

(** The encoder emits the frames [fs] in order. *)
Fixpoint Encode_all (e : FrameEncoder) (fs : list Frame)
  : result (list (list byte)) * FrameEncoder :=
  match fs with
  | [] => (Ok [], e)
  | f :: fs' =>
      match Encode e f with
      | (Ok out, e1) =>
          match Encode_all e1 fs' with
          | (Ok outs, e2) => (Ok (out :: outs), e2)
          | other => other
          end
      | (Err m, e1) => (Err m, e1)
      | (Panic m, e1) => (Panic m, e1)
      end
  end.

(** The decoder is fed the encoded frames in order, and stops at the first
    one it does not accept. *)
Fixpoint Decode_all (d : FrameDecoder) (outs : list (list byte))
  : result (list Frame) * FrameDecoder :=
  match outs with
  | [] => (Ok [], d)
  | out :: outs' =>
      match Decode d out with
      | (Ok f, d1) =>
          match Decode_all d1 outs' with
          | (Ok fs, d2) => (Ok (f :: fs), d2)
          | other => other
          end
      | (Err m, d1) => (Err m, d1)
      | (Panic m, d1) => (Panic m, d1)
      end
  end.

(** The bytes a writer receives when the frames [fs] are written in order. *)
Fixpoint encodeStream (e : FrameEncoder) (fs : list Frame)
  : list byte * FrameEncoder :=
  match fs with
  | [] => ([], e)
  | f :: fs' =>
      let '(out, e1) := encodeFrame e f in
      let '(rest, e2) := encodeStream e1 fs' in
      (out ++ rest, e2)
  end.

End Sessions.

(** The frames handed to [WriteFrame], in order. *)
Definition written_frames (t : list Effect) : list Frame :=
  omap (fun ev => match ev with WroteFrame f => Some f | _ => None end) t.

(** The entry stored under [(name, alpn, path)], if any. *)
Definition lookup3 (h : Handler) (key : string * string * string)
  : option Fallback :=
  let '(name, alpn, path) := key in
  t ← fallbacks h; apfb ← t !! name; pfb ← apfb !! alpn; pfb !! path.

(** The order of the specification: exact name before "", within each exact
    alpn before "", within each exact path before "". *)
Definition candidates (name alpn path : string)
  : list (string * string * string) :=
  [ (name, alpn, path); (name, alpn, ""); (name, "", path); (name, "", "");
    ("", alpn, path); ("", alpn, ""); ("", "", path); ("", "", "") ].

(** The first candidate under which an entry is stored. *)
Fixpoint first_entry (h : Handler) (keys : list (string * string * string))
  : option Fallback :=
  match keys with
  | [] => None
  | key :: keys' =>
      match lookup3 h key with
      | Some fb => Some fb
      | None => first_entry h keys'
      end
  end.

(** The size of the request header as the wire format defines it:
    command(1), port(2), address type(1), then 4 bytes for IPv4, 16 for
    IPv6, or a length byte and the domain. *)
Definition wire_headerSize (payload : list byte) : option nat :=
  match byte_to_Z (nth 3 payload x00) with
  | 1 => Some 8%nat
  | 4 => Some 20%nat
  | 3 => Some (5 + Z.to_nat (byte_to_Z (nth 4 payload x00)))%nat
  | _ => None
  end.

(** What the wire format makes the initial user data of a first frame. *)
Definition wire_initialData (payload : list byte) : option (list byte) :=
  n ← wire_headerSize payload; Some (drop n payload).

Definition ipv6_target : Target :=
  {| TCommand := x01; TPort := 443; TFamily := AddressFamilyIPv6;
     TAddress := map (fun i => byte_of_Z (Z.of_nat i)) (seq 32 16) |}.

Definition ipv4_target : Target :=
  {| TCommand := x01; TPort := 443; TFamily := AddressFamilyIPv4;
     TAddress := map byte_of_Z [93; 184; 216; 34] |}.

(** The frame of the frame round-trip scenario: a DATA frame carrying
    "Hello, server!", under the key 00 01 .. 1f. *)
Definition hello_frame : Frame :=
  {| FType := FrameTypeData; Payload := list_byte_of_string "Hello, server!" |}.

Definition key_00_1f : list byte :=
  map (fun i => byte_of_Z (Z.of_nat i)) (seq 0 32).

(** The handshake of the handshake scenario: user id b831381d-6324-4d53-
    ad4f-8cda48b30811, nonce 01..10, and a public key of 32 bytes. *)
Definition sample_handshake (ts : Z) : ClientHandshake :=
  {| PublicKey := key_00_1f;
     UserID := map byte_of_Z
       [0xb8; 0x31; 0x38; 0x1d; 0x63; 0x24; 0x4d; 0x53;
        0xad; 0x4f; 0x8c; 0xda; 0x48; 0xb3; 0x08; 0x11];
     Timestamp := ts;
     Nonce := map (fun i => byte_of_Z (Z.of_nat i)) (seq 1 16) |}.

Definition alice : MemoryUser :=
  {| Account := {| ID := replicate 16 x01; Policy := "" |};
     Email := "a@example.com"; Level := 0 |}.

(** A second user with another id and the same email. *)
Definition alice2 : MemoryUser :=
  {| Account := {| ID := replicate 16 x02; Policy := "zoom" |};
     Email := "a@example.com"; Level := 0 |}.

#[local] Set Warnings "-inexact-float".

(** A random source whose every draw is 0.9 (which selects the size 700 of
    the Zoom profile) and whose padding bytes are all ff. *)
Definition tape_09 : Rand :=
  {| rand_float := fun _ => 0.9%float; rand_byte := fun _ => xff; rand_pos := 0 |}.

Definition world0 : World (list byte) :=
  mkWorld {| e_aead := key_00_1f; e_nonce := replicate 12 x00; e_counter := 0 |}
    [] tape_09 [].

Definition decoder0 : FrameDecoder :=
  {| d_aead := key_00_1f; d_nonce := replicate 12 x00; d_counter := 0 |}.

Definition payload1500 : list byte :=
  map (fun i => byte_of_Z (Z.of_nat i)) (seq 0 1500).

Definition frame1500 : Frame := mkFrame FrameTypeData payload1500.

(** The sender writes [frame1500] into a buffer under [config]; the receiver
    relays what the buffer holds to the link.  The result is the bytes the
    link has received when the receiver reaches the end of the buffer. *)
Definition delivered (config : option MorphingConfig) : option (list byte) :=
  match @WriteFrameWithMorphing ToyCipher.toy _ _ 8 frame1500 config world0 with
  | Some (Ok _, s') =>
      match @relayFrames ToyCipher.toy (list byte) _ 8 decoder0 (w_out s') [] with
      | Some (_, _, _, link) => Some link
      | None => None
      end
  | _ => None
  end.

(** ** Relay loops, fallback handlers, buffer pools and sessions

    The sending loop of the relay, the handlers of fallback connections and
    what they read from the peeked bytes, the buffer pools, and the upstream
    direction of a session. *)

(** *** inbound.go [responseDone], outbound [requestDone] *)

Module Relay.

Section Send.
Context `{Cipher} {W : Type} `{Writer W}.

(** The inner loop: each buffer of a multi-buffer goes out as one DATA
    frame; the first write error ends the loop. *)
Fixpoint writeBuffers (mb : list (list byte)) (e : FrameEncoder) (w : W)
  : result unit * FrameEncoder * W :=
  match mb with
  | [] => (Ok tt, e, w)
  | b :: mb' =>
      match WriteFrame e w (mkFrame FrameTypeData b) with
      | (Ok _, e', w') => writeBuffers mb' e' w'
      | (Err m, e', w') => (Err m, e', w')
      | (Panic m, e', w') => (Panic m, e', w')
      end
  end.

(** The outer loop.  The link's reader is the list of the multi-buffers it
    yields before [ReadMultiBuffer] fails with [err]; the loop only ends
    with an error, that one or a write error. *)
Fixpoint responseDone (mbs : list (list (list byte))) (err : string)
    (e : FrameEncoder) (w : W) : result unit * FrameEncoder * W :=
  match mbs with
  | [] => (Err err, e, w)
  | mb :: mbs' =>
      match writeBuffers mb e w with
      | (Ok _, e', w') => responseDone mbs' err e' w'
      | (Err m, e', w') => (Err m, e', w')
      | (Panic m, e', w') => (Panic m, e', w')
      end
  end.

End Send.
End Relay.

(** What the receiving loop does with a sequence of frames, said on the
    frames: it goes on after DATA, PADDING and TIMING frames and stops at
    the first frame of another type. *)
Definition continues (f : Frame) : bool :=
  Byte.eqb (FType f) FrameTypeData || Byte.eqb (FType f) FrameTypePadding
  || Byte.eqb (FType f) FrameTypeTiming.

Fixpoint before_stop (fs : list Frame) : list Frame :=
  match fs with
  | [] => []
  | f :: fs' => if continues f then f :: before_stop fs' else []
  end.

Fixpoint first_stop (fs : list Frame) : option Frame :=
  match fs with
  | [] => None
  | f :: fs' => if continues f then first_stop fs' else Some f
  end.

Definition data_payloads (fs : list Frame) : list byte :=
  concat (map Payload
            (List.filter (fun f => Byte.eqb (FType f) FrameTypeData) fs)).

Definition domain_target (name : string) : Target :=
  {| TCommand := x01; TPort := 443; TFamily := AddressFamilyDomain;
     TAddress := list_byte_of_string name |}.

(** *** inbound/conn.go: the TLS and HTTP fallback handlers

    What [handleTLSFallback] and [handleHTTPFallback] do with the connection:
    they try [findFallback] on a chain of keys and forward to the first
    entry found. *)

Module ConnHandlers.
Import Stdlib.Strings.Ascii.

Definition handleTLSFallback (h : Handler) (sni alpn : string) : FallbackRoute :=
  let fb := findFallback h sni alpn "" in
  let fb := match fb with None => findFallback h "" alpn "" | Some _ => fb end in
  let fb := match fb with None => findFallback h "" "" "" | Some _ => fb end in
  match fb with
  | None => Rejected "no TLS fallback configured"
  | Some fb => Forwarded fb
  end.

Definition handleHTTPFallback (h : Handler) (host path : string) : FallbackRoute :=
  let fb := findFallback h host "http/1.1" path in
  let fb := match fb with None => findFallback h host "http/1.1" "" | Some _ => fb end in
  let fb := match fb with None => findFallback h "" "http/1.1" path | Some _ => fb end in
  let fb := match fb with None => findFallback h "" "http/1.1" "" | Some _ => fb end in
  let fb := match fb with None => findFallback h "" "" "" | Some _ => fb end in
  match fb with
  | None => Rejected "no HTTP fallback configured"
  | Some fb => Forwarded fb
  end.

(** [strings.Contains(s, substr)] *)
Fixpoint Contains (s substr : string) : bool :=
  String.prefix substr s ||
  match s with
  | EmptyString => false
  | String _ s' => Contains s' substr
  end.

(** [strconv.Atoi] on a 64-bit platform: an optional sign, then one or more
    decimal digits, whose value must fit [int]. *)
Definition digit (c : Ascii.ascii) : option Z :=
  let n := Z.of_N (Ascii.N_of_ascii c) - 48 in
  if (0 <=? n) && (n <=? 9) then Some n else None.

Fixpoint digits (s : string) (acc : Z) : option Z :=
  match s with
  | EmptyString => Some acc
  | String c s' =>
      match digit c with
      | Some d => digits s' (acc * 10 + d)
      | None => None
      end
  end.

Definition Atoi (s : string) : result Z :=
  match s with
  | EmptyString => Err "invalid syntax"
  | String c rest =>
      let neg := Ascii.eqb c "-"%char in
      let body := if neg || Ascii.eqb c "+"%char then rest else s in
      match body with
      | EmptyString => Err "invalid syntax"
      | _ =>
          match digits body 0 with
          | None => Err "invalid syntax"
          | Some n =>
              if neg then
                if n <=? 2 ^ 63 then Ok (- n) else Err "value out of range"
              else
                if n <? 2 ^ 63 then Ok n else Err "value out of range"
          end
      end
  end.

(** The address [handleFallback] dials for the entry it has found. *)
Definition fallbackDest (fb : Fallback) : string :=
  let dest :=
    if Contains (Dest fb) ":" then Dest fb
    else String.append "127.0.0.1:" (Dest fb) in
  match Atoi (Dest fb) with
  | Ok _ => String.append "127.0.0.1:" (Dest fb)
  | _ => dest
  end.

(** *** inbound/conn.go: what the peeked bytes tell *)

(** [bytes.HasPrefix] *)
Fixpoint HasPrefix (s prefix : list byte) {struct prefix} : bool :=
  match prefix, s with
  | [], _ => true
  | p :: prefix', c :: s' => Byte.eqb c p && HasPrefix s' prefix'
  | _ :: _, [] => false
  end.



(** Go's [data[i]] and [data[lo:hi]], which panic out of range. *)
Definition index (data : list byte) (i : Z) : result Z :=
  if (0 <=? i) && (i <? len data)
  then Ok (byte_to_Z (nth (Z.to_nat i) data x00))
  else Panic "index out of range".

Definition slice_checked (data : list byte) (lo hi : Z) : result (list byte) :=
  if (0 <=? lo) && (lo <=? hi) && (hi <=? len data)
  then Ok (slice (Z.to_nat lo) (Z.to_nat hi) data)
  else Panic "slice bounds out of range".

(** A run of [extractSNI] ends with a string, an error or a panic, or is cut
    by the bound on the iterations of its loop ([None]). *)
Definition andThen {A} (r : result A) (k : A -> option (result string))
  : option (result string) :=
  match r with
  | Ok a => k a
  | Err m => Some (Err m)
  | Panic m => Some (Panic m)
  end.

Notation "'let!' x := r 'in' k" := (andThen r (fun x => k))
  (at level 10, x name, r at level 100, k at level 200).

(** [int(data[pos])<<8 | int(data[pos+1])] *)
Definition uint16At (data : list byte) (pos : Z)
    (k : Z -> option (result string)) : option (result string) :=
  let! hi := index data pos in
  let! lo := index data (pos + 1) in
  k (Z.lor (Z.shiftl hi 8) lo).

(** The body of [if extType == 0]; [pos] is past the four bytes of type and
    length.  The positions stay far below 2^63: no addition wraps. *)
Definition sniExtension (data : list byte) (pos extLen : Z)
  : option (result string) :=
  if len data <? pos + extLen then Some (Ok "") else
  if len data <? pos + 2 then Some (Ok "") else
  let pos := pos + 2 in
  if len data <=? pos then Some (Ok "") else
  let! nameType := index data pos in
  if negb (nameType =? 0) then Some (Ok "") else
  let pos := pos + 1 in
  if len data <? pos + 2 then Some (Ok "") else
  uint16At data pos (fun sniLen =>
  let pos := pos + 2 in
  if len data <? pos + sniLen then Some (Ok "") else
  let! name := slice_checked data pos (pos + sniLen) in
  Some (Ok (string_of_list_byte name))).

(** The loop over the extensions; [fuel] bounds its iterations. *)
Fixpoint extensions (fuel : nat) (data : list byte) (pos endPos : Z)
  : option (result string) :=
  if (pos + 4 <=? endPos) && (pos + 4 <=? len data) then
    match fuel with
    | O => None
    | S fuel' =>
        uint16At data pos (fun extType =>
        uint16At data (pos + 2) (fun extLen =>
        let pos := pos + 4 in
        if extType =? 0 then sniExtension data pos extLen
        else extensions fuel' data (pos + extLen) endPos))
    end
  else Some (Ok "").

(** [extractSNI]; every iteration of the loop moves at least four bytes
    forward, so one iteration per byte is more than the loop can use. *)
Definition extractSNI (data : list byte) : option (result string) :=
  if len data <? 43 then Some (Ok "") else
  let pos := 43 in
  if len data <=? pos then Some (Ok "") else
  let! sessionIDLen := index data pos in
  let pos := pos + (1 + sessionIDLen) in
  if len data <? pos + 2 then Some (Ok "") else
  uint16At data pos (fun cipherSuitesLen =>
  let pos := pos + (2 + cipherSuitesLen) in
  if len data <? pos + 1 then Some (Ok "") else
  let! compressionMethodsLen := index data pos in
  let pos := pos + (1 + compressionMethodsLen) in
  if len data <? pos + 2 then Some (Ok "") else
  uint16At data pos (fun extensionsLen =>
  let pos := pos + 2 in
  let endPos := pos + extensionsLen in
  extensions (length data) data pos endPos)).


(** [bytes.Index] and [bytes.SplitN] for a separator that is not empty and a
    positive count. *)
Fixpoint Index (s sep : list byte) : option nat :=
  if HasPrefix s sep then Some O
  else match s with
       | [] => None
       | _ :: s' => option_map S (Index s' sep)
       end.

Fixpoint genSplit (n : nat) (s sep : list byte) : list (list byte) :=
  match n with
  | O => [s]
  | S n' =>
      match Index s sep with
      | None => [s]
      | Some m => take m s :: genSplit n' (drop (m + length sep) s) sep
      end
  end.

Definition SplitN (s sep : list byte) (n : nat) : list (list byte) :=
  let n := Nat.min n (length s + 1) in
  genSplit (n - 1) s sep.

Definition extractHTTPPath (data : list byte) : string :=
  match SplitN data (list_byte_of_string " ") 3 with
  | _ :: path :: _ => string_of_list_byte path
  | _ => "/"
  end.

(** [handleFallback] up to the choice of the entry.  [extractHTTPHost]
    depends on the Unicode tables behind [bytes.ToLower] and
    [bytes.TrimSpace]; it stays a parameter. *)
Section Peek.
Variable extractHTTPHost : list byte -> string.



End Peek.

End ConnHandlers.

(** The entry a fallback table stores under a key, and the key of an
    entry. *)
Definition table_lookup (t : gmap string (gmap string (gmap string Fallback)))
    (key : string * string * string) : option Fallback :=
  let '(name, alpn, path) := key in
  apfb ← t !! name; pfb ← apfb !! alpn; pfb !! path.

Definition fallback_key (fb : Fallback) : string * string * string :=
  (FName fb, Alpn fb, Path fb).

(** The layout of a TLS ClientHello, as far as [extractSNI] reads it: 43
    bytes of record header, handshake header, version and random; the
    session id, the cipher suites and the compression methods, each behind
    its length; the extensions behind theirs. *)
Definition tls_extension (e : Z * list byte) : list byte :=
  BigEndian_PutUint16 e.1 ++ BigEndian_PutUint16 (len e.2) ++ e.2.

Definition server_name (host : list byte) : Z * list byte :=
  (0, BigEndian_PutUint16 (len host + 3) ++ [x00] ++
      BigEndian_PutUint16 (len host) ++ host).

Definition clientHello (head sid suites methods exts : list byte) : list byte :=
  head ++ [byte_of_Z (len sid)] ++ sid ++
  BigEndian_PutUint16 (len suites) ++ suites ++
  [byte_of_Z (len methods)] ++ methods ++
  BigEndian_PutUint16 (len exts) ++ exts.

(** A profile whose only packet size is zero. *)
Definition zero_size_profile : TrafficProfile :=
  {| Name := "zero"; PacketSizes := [mkPacketSize 0 1%float];
     Delays := [mkDelay 0 1%float] |}.

(** ** encoding/pool.go: the tiered buffer pools *)

Module Pool.

Definition numFramePools : nat := 4.
Definition minPoolSize : Z := 2048.
Definition poolSizeMulti : Z := 4.

(** A byte slice: the backing array from the start of the slice, whose
    length is the capacity, and the length of the slice. *)
Record Buffer := mkBuffer { backing : list byte; blen : Z }.

Definition cap (b : Buffer) : Z := len (backing b).

(** [make([]byte, size)], for a size that is not negative. *)
Definition make (size : Z) : Buffer :=
  mkBuffer (replicate (Z.to_nat size) x00) size.

(** [buf[:hi]] *)
Definition reslice (buf : Buffer) (hi : Z) : result Buffer :=
  if (0 <=? hi) && (hi <=? cap buf) then Ok (mkBuffer (backing buf) hi)
  else Panic "slice bounds out of range".

(** [init]: the sizes of the tiers. *)
Fixpoint initSizes (n : nat) (size : Z) : list Z :=
  match n with
  | O => []
  | S n' => size :: initSizes n' (size * poolSizeMulti)
  end.

Definition framePoolSizes : list Z := initSizes numFramePools minPoolSize.

(** [frameBufferPools]: for each tier the buffers put and not yet taken. *)
Definition initPools : list (list Buffer) := replicate numFramePools [].

(** [sync.Pool.Get]: any one of the items, or a new one; [pick] stands for
    the choice the runtime makes. *)
Definition syncPoolGet (items : list Buffer) (pick : option nat) (new : Buffer)
  : Buffer * list Buffer :=
  match pick with
  | Some i =>
      match items !! i with
      | Some buf => (buf, delete i items)
      | None => (new, items)
      end
  | None => (new, items)
  end.

(** The loop of [GetFrameBuffer]: the first tier, from [i] on, that is large
    enough. *)
Fixpoint tierFor (size : Z) (sizes : list Z) (i : nat) : option (nat * Z) :=
  match sizes with
  | [] => None
  | poolSize :: rest =>
      if size <=? poolSize then Some (i, poolSize)
      else tierFor size rest (S i)
  end.

Definition GetFrameBuffer (size : Z) (pick : option nat) (pools : list (list Buffer))
  : result Buffer * list (list Buffer) :=
  match tierFor size framePoolSizes 0 with
  | Some (i, poolSize) =>
      let '(buf, items) :=
        syncPoolGet (default [] (pools !! i)) pick (make poolSize) in
      (reslice buf size, <[i := items]> pools)
  | None => (Ok (make size), pools)
  end.

(** The loop of [PutFrameBuffer]: the tiers [i-1], ..., [0] in this order. *)
Fixpoint tierOf (capacity : Z) (i : nat) : option nat :=
  match i with
  | O => None
  | S i' =>
      if default 0 (framePoolSizes !! i') <=? capacity then Some i'
      else tierOf capacity i'
  end.

(** [None] is the nil slice. *)
Definition PutFrameBuffer (buf : option Buffer) (pools : list (list Buffer))
  : list (list Buffer) :=
  match buf with
  | None => pools
  | Some buf =>
      match tierOf (cap buf) numFramePools with
      | Some i =>
          <[i := mkBuffer (backing buf) (cap buf) :: default [] (pools !! i)]>
            pools
      | None => pools
      end
  end.

End Pool.

(** A client of the pools: a sequence of calls, run until one panics; the
    buffers the calls of [GetFrameBuffer] return are collected. *)
Inductive PoolCall :=
| CallGet (size : Z) (pick : option nat)
| CallPut (buf : option Pool.Buffer).

Fixpoint runCalls (calls : list PoolCall) (pools : list (list Pool.Buffer))
  : result (list Pool.Buffer) * list (list Pool.Buffer) :=
  match calls with
  | [] => (Ok [], pools)
  | CallGet size pick :: rest =>
      match Pool.GetFrameBuffer size pick pools with
      | (Ok buf, pools') =>
          match runCalls rest pools' with
          | (Ok bufs, pools'') => (Ok (buf :: bufs), pools'')
          | other => other
          end
      | (Err m, pools') => (Err m, pools')
      | (Panic m, pools') => (Panic m, pools')
      end
  | CallPut buf :: rest => runCalls rest (Pool.PutFrameBuffer buf pools)
  end.

Definition requested_sizes (calls : list PoolCall) : list Z :=
  omap (fun c => match c with CallGet size _ => Some size | _ => None end) calls.

(** Every pooled buffer is at least as large as its tier. *)
Definition pools_ok (pools : list (list Pool.Buffer)) : Prop :=
  length pools = Pool.numFramePools /\
  forall i items buf poolSize,
    pools !! i = Some items -> In buf items ->
    Pool.framePoolSizes !! i = Some poolSize -> poolSize <= Pool.cap buf.

(** ** The upstream direction of a session, from the session key on *)

Module Session.

Section Client.
Context `{Cipher} {W : Type} `{Writer W}.

(** The outbound [Process] once the session key is derived: the request
    header goes out as the first frame, then [requestDone] sends what the
    link yields ([mbs], then the read error [err]). *)
Definition outboundUpstream (sessionKey : list byte) (request : Target)
    (mbs : list (list (list byte))) (err : string) (rawConn : W)
  : result unit * W :=
  match NewFrameEncoder sessionKey with
  | Ok frameEncoder =>
      match NewFrameDecoder sessionKey with
      | Ok _ =>
          let requestData := encodeRequestHeader request in
          let firstFrame := mkFrame FrameTypeData requestData in
          match WriteFrame frameEncoder rawConn firstFrame with
          | (Ok _, e, w) =>
              let '(r, _, w') := Relay.responseDone mbs err e w in (r, w')
          | (Err _, _, w) => (Err "failed to send request", w)
          | (Panic m, _, w) => (Panic m, w)
          end
      | Err _ => (Err "failed to create frame decoder", rawConn)
      | Panic m => (Panic m, rawConn)
      end
  | Err _ => (Err "failed to create frame encoder", rawConn)
  | Panic m => (Panic m, rawConn)
  end.

End Client.

Section Server.
Context `{Cipher} {L : Type} `{Writer L}.

(** [handleReflexHandshake] once the session key is derived: the first frame
    gives the request, then [requestDone] relays to the dispatcher's link.
    The result holds the request, if one was parsed, the error the direction
    ends with, the bytes left unread and the link. *)
Definition inboundUpstream (fuel : nat) (sessionKey : list byte)
    (reader : list byte) (link : L)
  : option (option RequestHeader * result unit * list byte * L) :=
  match NewFrameEncoder sessionKey with
  | Ok _ =>
      match NewFrameDecoder sessionKey with
      | Ok frameDecoder =>
          match ReadFrame frameDecoder reader with
          | (Ok firstFrame, d, reader') =>
              if negb (Byte.eqb (FType firstFrame) FrameTypeData)
              then Some (None, Err "expected data frame", reader', link)
              else
                match parseRequestHeader (Payload firstFrame) with
                | Ok request =>
                    let relay link :=
                      match relayFrames fuel d reader' link with
                      | Some (r, _, reader'', link') =>
                          Some (Some request, r, reader'', link')
                      | None => None
                      end in
                    match firstFrameData (Payload firstFrame) with
                    | Some payload =>
                        match Write link payload with
                        | (Ok _, link') => relay link'
                        | (Err m, link') =>
                            Some (Some request, Err m, reader', link')
                        | (Panic m, link') =>
                            Some (Some request, Panic m, reader', link')
                        end
                    | None => relay link
                    end
                | Err _ => Some (None, Err "failed to parse request", reader', link)
                | Panic m => Some (None, Panic m, reader', link)
                end
          | (Err _, _, reader') =>
              Some (None, Err "failed to read first frame", reader', link)
          | (Panic m, _, reader') => Some (None, Panic m, reader', link)
          end
      | Err _ => Some (None, Err "failed to create frame decoder", reader, link)
      | Panic m => Some (None, Panic m, reader, link)
      end
  | Err _ => Some (None, Err "failed to create frame encoder", reader, link)
  | Panic m => Some (None, Panic m, reader, link)
  end.

End Server.

End Session.


(** * Facts *)

(** ** Bytes and binary encodings *)

Module BinFacts.
Import Bin.

Lemma byte_to_Z_range b : 0 <= byte_to_Z b < 256.
Proof.
  unfold byte_to_Z. pose proof (Byte.to_N_bounded b). lia.
Qed.

Lemma byte_of_to_Z b : byte_of_Z (byte_to_Z b) = b.
Proof.
  unfold byte_of_Z. pose proof (byte_to_Z_range b) as Hr.
  rewrite Z.mod_small by lia. unfold byte_to_Z.
  rewrite N2Z.id, Byte.of_to_N. reflexivity.
Qed.

Lemma byte_to_of_Z v : byte_to_Z (byte_of_Z v) = v mod 256.
Proof.
  unfold byte_of_Z, byte_to_Z.
  assert (Hm : 0 <= v mod 256 < 256) by (apply Z.mod_pos_bound; lia).
  destruct (Byte.of_N (Z.to_N (v mod 256))) as [b|] eqn:E.
  - apply Byte.to_of_N in E. simpl. rewrite E. lia.
  - exfalso.
    pose proof (Byte.to_of_N_option_map (Z.to_N (v mod 256))) as Hopt.
    rewrite E in Hopt. simpl in Hopt.
    destruct (N.leb_spec (Z.to_N (v mod 256)) 255); [discriminate | lia].
Qed.

Lemma length_le_bytes n v : length (le_bytes n v) = n.
Proof. revert v. induction n; intros; simpl; [reflexivity | now rewrite IHn]. Qed.

Lemma length_be_bytes n v : length (be_bytes n v) = n.
Proof. unfold be_bytes. now rewrite length_rev, length_le_bytes. Qed.

Lemma le_Z_le_bytes n v : le_Z (le_bytes n v) = v mod 256 ^ Z.of_nat n.
Proof.
  revert v. induction n as [|n IH]; intros v.
  - simpl. now rewrite Z.mod_1_r.
  - cbn [le_bytes le_Z]. rewrite byte_to_of_Z, IH.
    rewrite Nat2Z.inj_succ, Z.pow_succ_r by lia.
    rewrite Z.rem_mul_r by lia. reflexivity.
Qed.

Lemma be_Z_be_bytes n v : be_Z (be_bytes n v) = v mod 256 ^ Z.of_nat n.
Proof. unfold be_Z, be_bytes. rewrite rev_involutive. apply le_Z_le_bytes. Qed.

Lemma le_bytes_inj64 v w :
  0 <= v < 2 ^ 64 -> 0 <= w < 2 ^ 64 -> le_bytes 8 v = le_bytes 8 w -> v = w.
Proof.
  intros Hv Hw E. apply (f_equal le_Z) in E.
  rewrite !le_Z_le_bytes in E. change (256 ^ Z.of_nat 8) with (2 ^ 64) in E.
  rewrite !Z.mod_small in E by lia. exact E.
Qed.

Lemma Uint16_PutUint16 v rest :
  BigEndian_Uint16 (BigEndian_PutUint16 v ++ rest) = uint16 v.
Proof.
  unfold BigEndian_Uint16, BigEndian_PutUint16.
  rewrite take_app_length' by (symmetry; apply length_be_bytes).
  rewrite be_Z_be_bytes. reflexivity.
Qed.

Lemma Uint16_slice (l : list byte) :
  BigEndian_Uint16 (slice 0 2 l) = BigEndian_Uint16 l.
Proof.
  unfold slice, BigEndian_Uint16. rewrite drop_0, take_take. reflexivity.
Qed.

Lemma le_Z_range l : 0 <= le_Z l < 256 ^ Z.of_nat (length l).
Proof.
  induction l as [|b l IH].
  - simpl. lia.
  - cbn [le_Z length]. rewrite Nat2Z.inj_succ, Z.pow_succ_r by lia.
    pose proof (byte_to_Z_range b). lia.
Qed.

Lemma Uint16_range l : 0 <= BigEndian_Uint16 l < 2 ^ 16.
Proof.
  unfold BigEndian_Uint16, be_Z.
  pose proof (le_Z_range (rev (take 2 l))) as Hr.
  rewrite length_rev, length_take in Hr.
  assert (256 ^ Z.of_nat (2 `min` length l) <= 2 ^ 16).
  { change (2 ^ 16) with (256 ^ Z.of_nat 2).
    apply Z.pow_le_mono_r; lia. }
  lia.
Qed.

End BinFacts.

(** ** The reference cipher meets the interface assumptions *)

Module ToyCipherFacts.
Import Bin BinFacts ToyCipher.

Lemma shift_shift m b : shift (- m) (shift m b) = b.
Proof.
  unfold shift. rewrite byte_to_of_Z.
  rewrite <- (byte_of_to_Z b) at 2. unfold byte_of_Z. do 2 f_equal.
  f_equal. rewrite Zplus_mod_idemp_l. f_equal. lia.
Qed.

Lemma length_tag k n body : length (tag k n body) = 16%nat.
Proof.
  unfold tag. rewrite length_app, length_take, length_app, !length_replicate. lia.
Qed.

Lemma toy_Open_Seal k n p : toy_Open k n (toy_Seal k n p) = Some p.
Proof.
  unfold toy_Open, toy_Seal.
  set (body := map (shift (mask k n)) p).
  rewrite length_app, length_tag.
  destruct (Nat.ltb_spec (length body + 16) 16) as [Hlt|_]; [lia|].
  replace (length body + 16 - 16)%nat with (length body) by lia.
  rewrite take_app_length, drop_app_length.
  rewrite decide_True by reflexivity.
  f_equal. subst body. rewrite map_map.
  rewrite <- (map_id p) at 2. apply map_ext. intros b. apply shift_shift.
Qed.

Lemma toy_Seal_length k n p : length (toy_Seal k n p) = (length p + 16)%nat.
Proof.
  unfold toy_Seal. now rewrite length_app, length_tag, length_map.
Qed.

Lemma toy_Open_length k n c p :
  toy_Open k n c = Some p -> length c = (length p + 16)%nat.
Proof.
  unfold toy_Open.
  destruct (Nat.ltb_spec (length c) 16) as [|Hge]; [discriminate|].
  case_decide; [|discriminate]. intros [= <-].
  rewrite length_map, length_take. lia.
Qed.

Lemma toy_Open_other_nonce k n n' p :
  length n = 12%nat -> length n' = 12%nat -> n <> n' ->
  toy_Open k n' (toy_Seal k n p) = None.
Proof.
  intros Hn Hn' Hne. unfold toy_Open, toy_Seal.
  set (body := map (shift (mask k n)) p).
  rewrite length_app, length_tag.
  destruct (Nat.ltb_spec (length body + 16) 16) as [Hlt|_]; [lia|].
  replace (length body + 16 - 16)%nat with (length body) by lia.
  rewrite take_app_length, drop_app_length.
  rewrite decide_False; [reflexivity|].
  unfold tag. intros E. apply app_inv_tail in E.
  rewrite !take_app_length' in E by congruence. congruence.
Qed.

#[export] Instance toy_correct : CipherCorrect :=
  {| aead_Open_Seal := toy_Open_Seal;
     aead_Seal_length := toy_Seal_length;
     aead_Open_length := toy_Open_length |}.

#[export] Instance toy_nonce_binding : CipherNonceBinding :=
  toy_Open_other_nonce.

End ToyCipherFacts.

(** ** Frame codec *)

Module FrameFacts.
Import Bin BinFacts Encoding.


Lemma fresh_synced k e d :
  NewFrameEncoder k = Ok e -> NewFrameDecoder k = Ok d -> synced e d.
Proof.
  unfold NewFrameEncoder, NewFrameDecoder.
  destruct (len k =? KeySize); [|discriminate].
  intros [= <-] [= <-]. repeat split.
Qed.

Lemma New_ok k :
  length k = 32%nat ->
  exists e d, NewFrameEncoder k = Ok e /\ NewFrameDecoder k = Ok d /\
    e_counter e = 0 /\ d_counter d = 0.
Proof.
  intros Hk. unfold NewFrameEncoder, NewFrameDecoder, len, KeySize.
  rewrite Hk. simpl. eauto 10.
Qed.

Section WithCipher.
Context `{Cipher}.

Lemma encodeFrame_counter e f :
  e_counter (encodeFrame e f).2 = uint64 (e_counter e + 1).
Proof. reflexivity. Qed.

Lemma encodeFrame_nonce e f :
  e_nonce (encodeFrame e f).2 =
  le_bytes 8 (uint64 (e_counter e + 1)) ++ drop 8 (e_nonce e).
Proof. reflexivity. Qed.

Lemma Encode_encodeFrame e f :
  Encode e f = (Ok (encodeFrame e f).1, (encodeFrame e f).2).
Proof. reflexivity. Qed.

(** [Encode] returns no error, whatever the payload size. *)
Lemma Encode_never_fails e f : exists out e', Encode e f = (Ok out, e').
Proof. rewrite Encode_encodeFrame. eauto. Qed.

Lemma drop8_PutUint64 buf v :
  drop 8 (LittleEndian_PutUint64 buf v) = drop 8 buf.
Proof.
  unfold LittleEndian_PutUint64.
  rewrite drop_app_length'; [reflexivity | symmetry; apply length_le_bytes].
Qed.

Section Correct.
Context `{!CipherCorrect}.

Lemma encodeFrame_length e f :
  length (encodeFrame e f).1 = (length (Payload f) + 19)%nat.
Proof.
  unfold encodeFrame. cbn [fst]. rewrite length_app.
  unfold BigEndian_PutUint16. rewrite length_be_bytes, aead_Seal_length.
  simpl. lia.
Qed.

(** The length field the encoder writes. *)
Lemma encodeFrame_length_field e f :
  BigEndian_Uint16 (encodeFrame e f).1 = uint16 (len (Payload f) + 17).
Proof.
  unfold encodeFrame. cbn [fst]. rewrite Uint16_PutUint16.
  unfold len. rewrite aead_Seal_length. cbn [length].
  unfold uint16. rewrite Zmod_mod. f_equal. lia.
Qed.

(** One frame through a synchronised encoder/decoder pair. *)
Lemma Decode_encodeFrame e d f :
  synced e d ->
  len (Payload f) <= 65516 ->
  exists d', Decode d (encodeFrame e f).1 = (Ok f, d') /\
    synced (encodeFrame e f).2 d'.
Proof.
  intros (Hk & Hc & Hn) Hlen.
  pose proof (encodeFrame_length e f) as Hl.
  pose proof (encodeFrame_length_field e f) as Hf.
  unfold len in Hlen.
  unfold Decode.
  destruct (Z.ltb_spec (len (encodeFrame e f).1) 2) as [Hlt|_];
    [unfold len in Hlt; lia|].
  assert (Hfield : BigEndian_Uint16 (slice 0 2 (encodeFrame e f).1)
                   = Z.of_nat (length (Payload f)) + 17).
  { rewrite Uint16_slice, Hf.
    unfold uint16, len. apply Z.mod_small. lia. }
  rewrite Hfield.
  assert (Hhi : uint16 (2 + (Z.of_nat (length (Payload f)) + 17))
                = Z.of_nat (length (Payload f)) + 19).
  { unfold uint16. rewrite Z.mod_small by lia. lia. }
  rewrite Hhi.
  destruct (Z.ltb_spec (len (encodeFrame e f).1)
              (Z.of_nat (length (Payload f)) + 19)) as [Hlt|_];
    [unfold len in Hlt; lia|].
  destruct (Z.ltb_spec (Z.of_nat (length (Payload f)) + 19) 2) as [Hlt|_];
    [lia|].
  assert (Hct : slice 2 (Z.to_nat (Z.of_nat (length (Payload f)) + 19))
                  (encodeFrame e f).1
                = aead_Seal (e_aead e)
                    (LittleEndian_PutUint64 (e_nonce e) (uint64 (e_counter e + 1)))
                    (FType f :: Payload f)).
  { unfold slice, encodeFrame. cbn [fst].
    rewrite drop_app_length' by (symmetry; apply length_be_bytes).
    apply take_ge. rewrite aead_Seal_length. cbn [length]. lia. }
  rewrite Hct, Hk, Hc.
  assert (Hnonce : LittleEndian_PutUint64 (d_nonce d) (uint64 (e_counter e + 1))
                   = LittleEndian_PutUint64 (e_nonce e) (uint64 (e_counter e + 1))).
  { unfold LittleEndian_PutUint64. now rewrite Hn. }
  rewrite Hnonce, aead_Open_Seal.
  eexists; split.
  - destruct f; reflexivity.
  - repeat split.
Qed.

(** A frame that [Decode] returns has the size its length prefix announces. *)
Lemma Decode_Ok_length d data f' d' :
  Decode d data = (Ok f', d') ->
  len (Payload f') + 17 = BigEndian_Uint16 data.
Proof.
  unfold Decode. rewrite Uint16_slice.
  pose proof (Uint16_range data) as Hr.
  set (L := BigEndian_Uint16 data) in *.
  destruct (Z.ltb_spec (len data) 2) as [|Hlen]; [discriminate|].
  destruct (Z.ltb_spec (len data) (uint16 (2 + L))) as [|Hhi]; [discriminate|].
  destruct (Z.ltb_spec (uint16 (2 + L)) 2) as [|Hlo]; [discriminate|].
  assert (Hw : uint16 (2 + L) = 2 + L).
  { unfold uint16 in *.
    destruct (Z_lt_ge_dec (2 + L) (2 ^ 16)) as [Hs|Hb].
    - apply Z.mod_small. lia.
    - exfalso. replace (2 + L) with ((2 + L - 2 ^ 16) + 1 * 2 ^ 16) in Hlo by lia.
      rewrite Z_mod_plus_full, Z.mod_small in Hlo by lia. lia. }
  rewrite Hw in *.
  destruct (aead_Open _ _ _) as [p|] eqn:Ho; [|discriminate].
  destruct p as [|t payload]; [discriminate|].
  intros [= <- _]. apply aead_Open_length in Ho.
  unfold slice in Ho. rewrite length_take, length_drop in Ho.
  unfold len in *. cbn [Payload length] in *. lia.
Qed.

(** The round trip already stops two bytes short of the wrap of the length
    prefix: with 65517 or 65518 payload bytes the prefix is exact, but the
    decoder's bound [2+length] wraps in [uint16] and the slice panics. *)
Lemma Decode_panics_on_wrapped_bound e d f :
  65517 <= len (Payload f) <= 65518 ->
  (Decode d (encodeFrame e f).1).1 = Panic "slice bounds out of range".
Proof.
  intros Hlen.
  pose proof (encodeFrame_length e f) as Hl.
  pose proof (encodeFrame_length_field e f) as Hf.
  unfold Decode. rewrite Uint16_slice, Hf. unfold len in *.
  destruct (Z.ltb_spec (Z.of_nat (length (encodeFrame e f).1)) 2) as [Hlt|_];
    [lia|].
  assert (Hhi : uint16 (2 + uint16 (Z.of_nat (length (Payload f)) + 17))
                = Z.of_nat (length (Payload f)) - 65517).
  { unfold uint16.
    rewrite (Z.mod_small (Z.of_nat (length (Payload f)) + 17)) by lia.
    replace (2 + (Z.of_nat (length (Payload f)) + 17))
      with ((Z.of_nat (length (Payload f)) - 65517) + 1 * 2 ^ 16) by lia.
    rewrite Z_mod_plus_full. apply Z.mod_small. lia. }
  rewrite Hhi.
  destruct (Z.ltb_spec (Z.of_nat (length (encodeFrame e f).1))
              (Z.of_nat (length (Payload f)) - 65517)) as [Hlt|_]; [lia|].
  destruct (Z.ltb_spec (Z.of_nat (length (Payload f)) - 65517) 2) as [_|Hge];
    [reflexivity | lia].
Qed.

End Correct.
End WithCipher.
End FrameFacts.

Import Bin BinFacts Encoding FrameFacts.


(** The frame round-trip scenario, run through [Encode] and [ReadFrame]. *)
Example hello_frame_roundtrip :
  let e := {| e_aead := key_00_1f; e_nonce := replicate 12 x00; e_counter := 0 |} in
  let d := {| d_aead := key_00_1f; d_nonce := replicate 12 x00; d_counter := 0 |} in
  NewFrameEncoder key_00_1f = Ok e /\ NewFrameDecoder key_00_1f = Ok d /\
  (@ReadFrame ToyCipher.toy d (@encodeFrame ToyCipher.toy e hello_frame).1).1.1
  = Ok hello_frame.
Proof. vm_compute. repeat split. Qed.

(** C1 (round-trip): with a 32-byte session key and a payload of at most
    [MaxFramePayloadSize] bytes, a fresh encoder and a fresh decoder built
    from that key exist, [Encode] returns bytes without error, and [Decode]
    of these bytes returns the very frame that was encoded. *)
Theorem C1_roundtrip `{Cipher} `{!CipherCorrect} (k : list byte) (f : Frame) :
  length k = 32%nat ->
  len (Payload f) <= MaxFramePayloadSize ->
  exists e d out e' d',
    NewFrameEncoder k = Ok e /\ NewFrameDecoder k = Ok d /\
    Encode e f = (Ok out, e') /\ Decode d out = (Ok f, d').
Proof.
  intros Hk Hlen.
  destruct (New_ok k Hk) as (e & d & He & Hd & _).
  destruct (Decode_encodeFrame e d f) as (d' & Hdec & _).
  - eapply fresh_synced; eassumption.
  - unfold MaxFramePayloadSize in Hlen. lia.
  - exists e, d, (encodeFrame e f).1, (encodeFrame e f).2, d'.
    rewrite Encode_encodeFrame. auto.
Qed.

Lemma C1_roundtrip_witness :
  exists e d out e' d',
    NewFrameEncoder key_00_1f = Ok e /\ NewFrameDecoder key_00_1f = Ok d /\
    @Encode ToyCipher.toy e hello_frame = (Ok out, e') /\
    @Decode ToyCipher.toy d out = (Ok hello_frame, d').
Proof.
  apply (@C1_roundtrip ToyCipher.toy ToyCipherFacts.toy_correct
           key_00_1f hello_frame).
  - reflexivity.
  - vm_compute. discriminate.
Defined.

(** C10 (oversize payloads): [Encode] accepts any payload and returns no
    error.  When the payload length plus 17 (type byte and tag) exceeds 65535,
    the two-byte length prefix holds the ciphertext length modulo 2^16 and so
    differs from the length of the ciphertext that follows it.  No decoder,
    whatever its key and counter, gets the frame back from these bytes: a
    frame that [Decode] returns has a payload of the announced, smaller size,
    so [Decode] never returns the encoded frame. *)
Theorem C10_oversize_length_wraps `{Cipher} `{!CipherCorrect}
    (e : FrameEncoder) (f : Frame) :
  len (Payload f) + 17 > 65535 ->
  exists out e',
    Encode e f = (Ok out, e') /\
    len (drop 2 out) = len (Payload f) + 17 /\
    BigEndian_Uint16 out = (len (Payload f) + 17) mod 2 ^ 16 /\
    BigEndian_Uint16 out <> len (drop 2 out) /\
    forall d : FrameDecoder,
      (Decode d out).1 <> Ok f /\
      forall f', (Decode d out).1 = Ok f' ->
        len (Payload f') < len (Payload f).
Proof.
  intros Hbig.
  exists (encodeFrame e f).1, (encodeFrame e f).2.
  pose proof (encodeFrame_length_field e f) as Hf.
  pose proof (encodeFrame_length e f) as Hl.
  pose proof (Uint16_range (encodeFrame e f).1) as Hr.
  assert (Hd2 : len (drop 2 (encodeFrame e f).1) = len (Payload f) + 17).
  { unfold len. rewrite length_drop, Hl. lia. }
  assert (Hshort : forall d f', (Decode d (encodeFrame e f).1).1 = Ok f' ->
                     len (Payload f') < len (Payload f)).
  { intros d f' Hdec.
    destruct (Decode d (encodeFrame e f).1) as [r d'] eqn:E.
    simpl in Hdec. subst r. apply Decode_Ok_length in E. lia. }
  split; [apply Encode_encodeFrame|].
  split; [exact Hd2|].
  split; [exact Hf|].
  split; [lia|].
  intros d. split; [|apply Hshort].
  intros Hdec. apply Hshort in Hdec. lia.
Qed.

Lemma C10_oversize_length_wraps_witness :
  let f := {| FType := FrameTypeData; Payload := replicate (Z.to_nat 65519) x00 |} in
  let e := {| e_aead := key_00_1f; e_nonce := replicate 12 x00; e_counter := 0 |} in
  exists out e',
    @Encode ToyCipher.toy e f = (Ok out, e') /\
    len (drop 2 out) = len (Payload f) + 17 /\
    BigEndian_Uint16 out = (len (Payload f) + 17) mod 2 ^ 16 /\
    BigEndian_Uint16 out <> len (drop 2 out) /\
    forall d : FrameDecoder,
      (@Decode ToyCipher.toy d out).1 <> Ok f /\
      forall f', (@Decode ToyCipher.toy d out).1 = Ok f' ->
        len (Payload f') < len (Payload f).
Proof.
  intros f e.
  apply (@C10_oversize_length_wraps ToyCipher.toy ToyCipherFacts.toy_correct e f).
  unfold f, len. cbn [Payload]. rewrite length_replicate, Z2Nat.id; lia.
Defined.


(** *** Sequences of frames through one encoder and one decoder *)

Section SessionFacts.
Context `{Cipher}.

Lemma Decode_all_cons d out outs :
  Decode_all d (out :: outs) =
  match Decode d out with
  | (Ok f, d1) =>
      match Decode_all d1 outs with
      | (Ok fs, d2) => (Ok (f :: fs), d2)
      | other => other
      end
  | (Err m, d1) => (Err m, d1)
  | (Panic m, d1) => (Panic m, d1)
  end.
Proof. reflexivity. Qed.


Lemma uint64_range v : 0 <= uint64 v < 2 ^ 64.
Proof. unfold uint64. apply Z.mod_pos_bound. lia. Qed.

Lemma uint64_succ v n : uint64 (uint64 (v + 1) + n) = uint64 (v + (1 + n)).
Proof. unfold uint64. rewrite Zplus_mod_idemp_l. f_equal. lia. Qed.

Lemma length_PutUint64 buf v :
  length buf = 12%nat -> length (LittleEndian_PutUint64 buf v) = 12%nat.
Proof.
  intros Hb. unfold LittleEndian_PutUint64.
  rewrite length_app, length_le_bytes, length_drop. lia.
Qed.

Lemma PutUint64_inj buf buf' v w :
  0 <= v < 2 ^ 64 -> 0 <= w < 2 ^ 64 ->
  LittleEndian_PutUint64 buf v = LittleEndian_PutUint64 buf' w -> v = w.
Proof.
  intros Hv Hw E. unfold LittleEndian_PutUint64 in E.
  apply app_inj_1 in E; [|now rewrite !length_le_bytes].
  apply le_bytes_inj64; tauto.
Qed.

(** Where each emitted frame comes from: the [i]-th output is the encoding of
    the [i]-th frame by an encoder that has the same key and has counted [i]
    frames more than the initial one. *)
Lemma Encode_all_lookup fs : forall e,
  length (e_nonce e) = 12%nat ->
  0 <= e_counter e < 2 ^ 64 ->
  exists outs e',
    Encode_all e fs = (Ok outs, e') /\
    e_aead e' = e_aead e /\
    length (e_nonce e') = 12%nat /\
    e_counter e' = uint64 (e_counter e + (0 + Z.of_nat (length fs))) /\
    forall i out, outs !! i = Some out ->
      exists ei fi,
        fs !! i = Some fi /\ out = (encodeFrame ei fi).1 /\
        e_aead ei = e_aead e /\ length (e_nonce ei) = 12%nat /\
        uint64 (e_counter ei + 1) = uint64 (e_counter e + (1 + Z.of_nat i)).
Proof.
  induction fs as [|f fs IH]; intros e Hn Hr.
  - exists [], e. cbn [Encode_all length]. repeat split; try done.
    unfold uint64. rewrite Z.mod_small; lia.
  - cbn [Encode_all]. rewrite Encode_encodeFrame.
    destruct (IH (encodeFrame e f).2) as (outs & e' & HE & Hk & Hn' & Hc & Hi).
    { now apply length_PutUint64. }
    { apply uint64_range. }
    rewrite HE. exists ((encodeFrame e f).1 :: outs), e'.
    split; [reflexivity|]. split; [exact Hk|]. split; [exact Hn'|].
    split.
    { rewrite Hc. cbn [encodeFrame snd e_counter length].
      rewrite uint64_succ. f_equal. lia. }
    intros [|i] out Hout.
    + injection Hout as <-. exists e, f. repeat split; try done.
    + destruct (Hi i out Hout) as (ei & fi & Hfi & -> & Hki & Hni & Hci).
      exists ei, fi. repeat split; try done.
      rewrite Hci. cbn [encodeFrame snd e_counter].
      rewrite uint64_succ. f_equal. lia.
Qed.

Section SessionsCorrect.
Context `{!CipherCorrect}.

#[local] Opaque encodeFrame.

(** Frames emitted in order are accepted in order, and leave the decoder in
    step with the encoder. *)
Lemma Decode_all_Encode_all fs : forall e d outs e',
  synced e d -> length (d_nonce d) = 12%nat -> Forall small fs ->
  Encode_all e fs = (Ok outs, e') ->
  exists d', Decode_all d outs = (Ok fs, d') /\ synced e' d' /\
    length (d_nonce d') = 12%nat.
Proof.
  induction fs as [|f fs IH]; intros e d outs e' Hs Hn Hsm HE.
  - cbn in HE. injection HE as <- <-. exists d. cbn. auto.
  - cbn [Encode_all] in HE. rewrite Encode_encodeFrame in HE.
    destruct (Encode_all (encodeFrame e f).2 fs) as [[outs1| |] e2] eqn:E1;
      try discriminate.
    injection HE as <- <-.
    apply Forall_cons in Hsm as [Hf Hsm].
    destruct (Decode_encodeFrame e d f Hs) as (d1 & Hd1 & Hs1).
    { unfold small, MaxFramePayloadSize in Hf. lia. }
    assert (Hn1 : length (d_nonce d1) = 12%nat).
    { unfold Decode in Hd1.
      repeat match type of Hd1 with
             | (if ?c then _ else _) = _ => destruct c; try discriminate
             | match ?c with _ => _ end = _ => destruct c; try discriminate
             end.
      injection Hd1 as _ <-. now apply length_PutUint64. }
    destruct (IH _ _ _ _ Hs1 Hn1 Hsm E1) as (d' & Hd' & Hs' & Hn').
    exists d'. rewrite Decode_all_cons, Hd1, Hd'. auto.
Qed.

#[local] Transparent encodeFrame.

(** A frame sealed under one counter value, offered to a decoder of the same
    key whose next counter value is another one, is refused at the AEAD. *)
Lemma Decode_other_counter `{!CipherNonceBinding} ei d f :
  d_aead d = e_aead ei ->
  length (e_nonce ei) = 12%nat -> length (d_nonce d) = 12%nat ->
  uint64 (d_counter d + 1) <> uint64 (e_counter ei + 1) ->
  len (Payload f) <= 65516 ->
  exists d', Decode d (encodeFrame ei f).1 = (Err "decryption failed", d') /\
    d_counter d' = uint64 (d_counter d + 1).
Proof.
  intros Hk Hne Hnd Hc Hlen.
  pose proof (encodeFrame_length ei f) as Hl.
  pose proof (encodeFrame_length_field ei f) as Hf.
  unfold len in Hlen. unfold Decode.
  destruct (Z.ltb_spec (len (encodeFrame ei f).1) 2) as [Hlt|_];
    [unfold len in Hlt; lia|].
  rewrite Uint16_slice, Hf.
  assert (Hhi : uint16 (2 + uint16 (len (Payload f) + 17))
                = Z.of_nat (length (Payload f)) + 19).
  { unfold uint16, len. rewrite !Z.mod_small by (rewrite ?Z.mod_small; lia). lia. }
  rewrite Hhi.
  destruct (Z.ltb_spec (len (encodeFrame ei f).1)
              (Z.of_nat (length (Payload f)) + 19)) as [Hlt|_];
    [unfold len in Hlt; lia|].
  destruct (Z.ltb_spec (Z.of_nat (length (Payload f)) + 19) 2) as [Hlt|_];
    [lia|].
  assert (Hct : slice 2 (Z.to_nat (Z.of_nat (length (Payload f)) + 19))
                  (encodeFrame ei f).1
                = aead_Seal (e_aead ei)
                    (LittleEndian_PutUint64 (e_nonce ei) (uint64 (e_counter ei + 1)))
                    (FType f :: Payload f)).
  { unfold slice, encodeFrame. cbn [fst].
    rewrite drop_app_length' by (symmetry; apply length_be_bytes).
    apply take_ge. rewrite aead_Seal_length. cbn [length]. lia. }
  rewrite Hct, Hk, aead_Open_other_nonce.
  - eexists. split; reflexivity.
  - now apply length_PutUint64.
  - now apply length_PutUint64.
  - intros E. apply PutUint64_inj in E; [congruence | |]; apply uint64_range.
Qed.

(** *** A stream of frames read back by [ReadFrame] *)

Lemma encodeStream_cons e f fs :
  encodeStream e (f :: fs) =
  ((encodeFrame e f).1 ++ (encodeStream (encodeFrame e f).2 fs).1,
   (encodeStream (encodeFrame e f).2 fs).2).
Proof.
  cbn [encodeStream]. destruct (encodeFrame e f) as [out e1]. cbn [fst snd].
  destruct (encodeStream e1 fs) as [rest e2]. reflexivity.
Qed.

Lemma ReadFrame_encodeFrame e d f rest :
  synced e d ->
  len (Payload f) <= 65516 ->
  exists d', ReadFrame d ((encodeFrame e f).1 ++ rest) = (Ok f, d', rest) /\
    synced (encodeFrame e f).2 d'.
Proof.
  intros Hs Hlen.
  destruct (Decode_encodeFrame e d f Hs Hlen) as (d' & Hdec & Hs').
  exists d'. split; [|exact Hs'].
  pose proof (encodeFrame_length e f) as Hl.
  pose proof (encodeFrame_length_field e f) as Hf.
  set (out := (encodeFrame e f).1) in *.
  unfold len in Hlen.
  unfold ReadFrame, ReadFull.
  destruct (Nat.ltb_spec (length (out ++ rest)) 2) as [Hlt|_];
    [rewrite length_app in Hlt; lia|].
  assert (Hhead : BigEndian_Uint16 (take 2 (out ++ rest))
                  = Z.of_nat (length (Payload f)) + 17).
  { rewrite take_app_le by lia.
    unfold BigEndian_Uint16 at 1. rewrite take_take.
    change (be_Z (take (2 `min` 2) out)) with (BigEndian_Uint16 out).
    rewrite Hf. unfold uint16, len. apply Z.mod_small. lia. }
  rewrite Hhead.
  destruct (Z.eqb_spec (Z.of_nat (length (Payload f)) + 17) 0) as [E|_]; [lia|].
  assert (Hbody : drop 2 (out ++ rest) = drop 2 out ++ rest).
  { rewrite drop_app_le by lia. reflexivity. }
  rewrite Hbody.
  assert (Hn : Z.to_nat (Z.of_nat (length (Payload f)) + 17)
               = length (drop 2 out)).
  { rewrite length_drop. lia. }
  rewrite Hn.
  destruct (Nat.ltb_spec (length (drop 2 out ++ rest)) (length (drop 2 out)))
    as [Hlt|_]; [rewrite length_app in Hlt; lia|].
  rewrite take_app_length, drop_app_length.
  rewrite take_app_le by lia.
  rewrite take_drop. fold out in Hdec. rewrite Hdec. reflexivity.
Qed.

(** The receiver's loop over a stream of DATA frames written by an encoder
    it is in step with: every payload reaches the link, in order, and the
    loop ends with the reader's EOF. *)
Lemma relayFrames_encodeStream fs : forall fuel e d (link : list byte),
  synced e d ->
  Forall (fun f => FType f = FrameTypeData /\ len (Payload f) <= 65516) fs ->
  (length fs < fuel)%nat ->
  exists d',
    relayFrames fuel d (encodeStream e fs).1 link
    = Some (Err "EOF", d', [], link ++ concat (map Payload fs)).
Proof.
  induction fs as [|f fs IH]; intros fuel e d link Hs Hall Hfuel.
  - destruct fuel as [|fuel]; [cbn in Hfuel; lia|].
    exists d. cbn. now rewrite app_nil_r.
  - destruct fuel as [|fuel]; [cbn in Hfuel; lia|].
    apply Forall_cons in Hall as [[Ht Hlen] Hall].
    rewrite encodeStream_cons. cbn [fst relayFrames].
    destruct (ReadFrame_encodeFrame e d f
                (encodeStream (encodeFrame e f).2 fs).1 Hs Hlen)
      as (d1 & -> & Hs1).
    rewrite Ht. cbn [Byte.eqb]. change (Byte.eqb FrameTypeData FrameTypeData) with true.
    cbn iota.
    change (Write link (Payload f)) with (Ok tt, link ++ Payload f). cbn iota.
    destruct (IH fuel _ d1 (link ++ Payload f) Hs1 Hall) as (d' & ->).
    { cbn [length] in Hfuel. lia. }
    exists d'. cbn [map concat]. now rewrite <- app_assoc.
Qed.

End SessionsCorrect.
End SessionFacts.

(** C4 (replay): an encoder and a decoder are freshly built from one key; the
    encoder emits the frames [fs] in order and the decoder accepts them all
    in order.  Every one of the emitted byte strings, offered once more to
    that decoder, is then refused with "decryption failed": the decoder's
    counter is incremented before the AEAD opens, so its nonce is no longer
    the one the frame was sealed under. *)
Theorem C4_replay_rejected `{Cipher} `{!CipherCorrect} `{!CipherNonceBinding}
    (k : list byte) (fs : list Frame) (e : FrameEncoder) (d : FrameDecoder) :
  NewFrameEncoder k = Ok e -> NewFrameDecoder k = Ok d ->
  Forall small fs ->
  Z.of_nat (length fs) < 2 ^ 64 ->
  exists outs e' d',
    Encode_all e fs = (Ok outs, e') /\
    Decode_all d outs = (Ok fs, d') /\
    forall i out, outs !! i = Some out ->
      exists d'', Decode d' out = (Err "decryption failed", d'').
Proof.
  intros He Hd Hsm Hn.
  pose proof (fresh_synced _ _ _ He Hd) as Hs.
  assert (He0 : e_counter e = 0 /\ length (e_nonce e) = 12%nat).
  { unfold NewFrameEncoder in He. destruct (len k =? KeySize); [|discriminate].
    injection He as <-. split; reflexivity. }
  assert (Hd0 : length (d_nonce d) = 12%nat).
  { unfold NewFrameDecoder in Hd. destruct (len k =? KeySize); [|discriminate].
    injection Hd as <-. reflexivity. }
  destruct He0 as [Hc0 Hn0].
  destruct (Encode_all_lookup fs e Hn0) as (outs & e' & HE & Hk & Hn' & Hc & Hi).
  { lia. }
  destruct (Decode_all_Encode_all fs e d outs e' Hs Hd0 Hsm HE)
    as (d' & HD & (Hk' & Hc' & _) & Hnd').
  exists outs, e', d'. split; [exact HE|]. split; [exact HD|].
  intros i out Hout.
  destruct (Hi i out Hout) as (ei & fi & Hfi & -> & Hki & Hni & Hci).
  assert (Hlt : (i < length fs)%nat) by (eapply lookup_lt_Some; exact Hfi).
  destruct (Decode_other_counter ei d' fi) as (d'' & Hd'' & _); eauto.
  - congruence.
  - rewrite Hc', Hc, Hci, Hc0. unfold uint64.
    rewrite Zplus_mod_idemp_l.
    rewrite (Z.mod_small (0 + (1 + Z.of_nat i))) by lia.
    destruct (Z.eq_dec (0 + (0 + Z.of_nat (length fs)) + 1) (2 ^ 64)) as [E|NE].
    + rewrite E, Z_mod_same_full. lia.
    + rewrite Z.mod_small by lia. lia.
  - eapply Forall_lookup_1 in Hfi; [|exact Hsm].
    unfold small, MaxFramePayloadSize in Hfi. lia.
Qed.

Lemma C4_replay_rejected_witness :
  let fs := [hello_frame; hello_frame;
             {| FType := FrameTypeClose; Payload := [] |}] in
  exists outs e' d',
    @Encode_all ToyCipher.toy
      {| e_aead := key_00_1f; e_nonce := replicate 12 x00; e_counter := 0 |} fs
      = (Ok outs, e') /\
    @Decode_all ToyCipher.toy
      {| d_aead := key_00_1f; d_nonce := replicate 12 x00; d_counter := 0 |} outs
      = (Ok fs, d') /\
    forall i out, outs !! i = Some out ->
      exists d'', @Decode ToyCipher.toy d' out = (Err "decryption failed", d'').
Proof.
  intros fs.
  apply (@C4_replay_rejected ToyCipher.toy ToyCipherFacts.toy_correct
           ToyCipherFacts.toy_nonce_binding key_00_1f fs).
  - reflexivity.
  - reflexivity.
  - repeat constructor; vm_compute; discriminate.
  - vm_compute. reflexivity.
Defined.

(** ** Traffic morphing *)

Module MorphingFacts.
Import Morphing.

Lemma pickSize_In r c ps size :
  pickSize r c ps = Some size -> exists pat, In pat ps /\ Size pat = size.
Proof.
  revert c. induction ps as [|p ps IH]; intros c; cbn [pickSize]; [discriminate|].
  destruct (PrimFloat.leb r _).
  - intros [= <-]. exists p. split; [now left | reflexivity].
  - intros Hp. destruct (IH _ Hp) as (pat & Hin & Hs).
    exists pat. split; [now right | exact Hs].
Qed.

(** A sampled packet size is one of the sizes of the profile; sampling
    fails only on a profile without sizes. *)
Lemma GetPacketSize_In p g :
  PacketSizes p <> [] ->
  exists size pat,
    GetPacketSize p g = (Ok size, advance 1 g) /\
    In pat (PacketSizes p) /\ Size pat = size.
Proof.
  intros Hne. unfold GetPacketSize, Float64.
  destruct (pickSize _ _ _) as [size|] eqn:E.
  - destruct (pickSize_In _ _ _ _ E) as (pat & Hin & Hs). eauto.
  - destruct (last (PacketSizes p)) as [pat|] eqn:El.
    + exists (Size pat), pat. repeat split.
      apply list_elem_of_In. apply last_Some_elem_of. exact El.
    + apply last_None in El. contradiction.
Qed.

Lemma GetDelay_Ok p g :
  Delays p <> [] -> exists delay, GetDelay p g = (Ok delay, advance 1 g).
Proof.
  intros Hne. unfold GetDelay, Float64.
  destruct (pickDelay _ _ _) as [d|]; [eauto|].
  destruct (last (Delays p)) as [pat|] eqn:El; [eauto|].
  apply last_None in El. contradiction.
Qed.

Lemma length_Read n g : length (Read n g).1 = n.
Proof. unfold Read. cbn [fst]. now rewrite length_map, length_seq. Qed.

Lemma written_payloads_app t1 t2 :
  written_payloads (t1 ++ t2) = written_payloads t1 ++ written_payloads t2.
Proof. unfold written_payloads. apply omap_app. Qed.

(** [AddPadding] below the target appends random bytes up to the target;
    at the target it returns the data as they are. *)
Lemma AddPadding_le data target g :
  len data <= target ->
  exists padding g',
    AddPadding data target g = (Ok (data ++ padding), g') /\
    len (data ++ padding) = target.
Proof.
  intros Hle. unfold AddPadding, len in *.
  destruct (Z.leb_spec target (Z.of_nat (length data))) as [Hge|Hlt].
  - destruct (Z.ltb_spec target 0) as [Hneg|_]; [lia|].
    exists [], g. rewrite app_nil_r, take_ge by lia. split; [reflexivity|lia].
  - destruct (Read _ g) as [padding g'] eqn:ER.
    exists padding, g'. split; [reflexivity|].
    pose proof (length_Read (Z.to_nat (target - Z.of_nat (length data))) g) as HL.
    rewrite ER in HL. cbn [fst] in HL. rewrite length_app, HL. lia.
Qed.

Lemma written_frames_app t1 t2 :
  written_frames (t1 ++ t2) = written_frames t1 ++ written_frames t2.
Proof. unfold written_frames. apply omap_app. Qed.

Lemma written_payloads_frames t :
  written_payloads t = map Payload (written_frames t).
Proof.
  induction t as [|[f|d] t IH]; [reflexivity| |exact IH].
  change (written_payloads (WroteFrame f :: t))
    with (Payload f :: written_payloads t).
  now rewrite IH.
Qed.

Section BufferSink.
Context `{Cipher}.

(** Writing to an in-memory buffer does not fail: the encoded frame is
    appended to the buffer. *)
Lemma writeFrame_Buffer (f : Frame) (s : World (list byte)) :
  exists s', writeFrame f s = (Ok tt, s') /\
    w_trace s' = w_trace s ++ [WroteFrame f] /\ w_rand s' = w_rand s /\
    w_enc s' = (encodeFrame (w_enc s) f).2 /\
    w_out s' = w_out s ++ (encodeFrame (w_enc s) f).1.
Proof.
  unfold writeFrame, WriteFrame, EncodeToWriter.
  destruct (encodeFrame (w_enc s) f) as [frameData e'].
  cbn. eauto 10.
Qed.

Lemma applyDelay_Ok p (s : World (list byte)) :
  Delays p <> [] ->
  exists s' evs, applyDelay p s = (Ok tt, s') /\
    w_trace s' = w_trace s ++ evs /\ written_frames evs = [] /\
    w_enc s' = w_enc s /\ w_out s' = w_out s.
Proof.
  intros Hne. unfold applyDelay.
  destruct (GetDelay_Ok p (w_rand s) Hne) as (delay & ->).
  destruct (0 <? delay).
  - eexists _, [Slept delay]. repeat split.
  - eexists _, []. cbn [w_trace]. rewrite app_nil_r. repeat split.
Qed.

(** Without morphing the frame is written as it is. *)
Lemma WriteFrameWithMorphing_off fuel frame (s : World (list byte)) :
  exists s',
    WriteFrameWithMorphing fuel frame None s = Some (Ok tt, s') /\
    w_trace s' = w_trace s ++ [WroteFrame frame] /\
    w_out s' = w_out s ++ (encodeFrame (w_enc s) frame).1.
Proof.
  destruct fuel; cbn [WriteFrameWithMorphing];
    destruct (writeFrame_Buffer frame s) as (s' & -> & Ht & _ & _ & Ho); eauto.
Qed.

(** The morphing writer on an in-memory buffer, with a profile of positive
    sizes: it terminates without error within [fuel] sampled targets when
    [fuel] exceeds the payload length; the frames it writes keep the type of
    the frame; each carries a payload of exactly the size of a pattern of
    the profile; their payloads, concatenated, are the payload followed by
    the padding of the last frame; and the buffer receives their encodings
    in order. *)
Lemma WriteFrameWithMorphing_Buffer (profile : TrafficProfile) :
  PacketSizes profile <> [] -> Delays profile <> [] ->
  Forall (fun pat => 0 < Size pat) (PacketSizes profile) ->
  forall (fuel : nat) (frame : Frame) (s : World (list byte)),
  (length (Payload frame) < fuel)%nat ->
  exists s' new padding,
    WriteFrameWithMorphing fuel frame
      (Some (mkMorphingConfig true (Some profile))) s = Some (Ok tt, s') /\
    w_trace s' = w_trace s ++ new /\
    concat (map Payload (written_frames new)) = Payload frame ++ padding /\
    Forall (fun f => FType f = FType frame /\
                     exists pat, In pat (PacketSizes profile) /\
                                 len (Payload f) = Size pat)
      (written_frames new) /\
    (length (written_frames new) <= fuel)%nat /\
    w_enc s' = (encodeStream (w_enc s) (written_frames new)).2 /\
    w_out s' = w_out s ++ (encodeStream (w_enc s) (written_frames new)).1.
Proof.
  intros Hsizes Hdelays Hpos.
  induction fuel as [|fuel IH]; intros frame s Hfuel; [lia|].
  cbn [WriteFrameWithMorphing].
  destruct (GetPacketSize_In profile (w_rand s) Hsizes)
    as (target & pat & -> & Hin & Hsz).
  assert (Htpos : 0 < target).
  { rewrite Forall_forall in Hpos. rewrite <- Hsz. apply Hpos.
    now apply list_elem_of_In. }
  destruct (Z.ltb_spec target (len (Payload frame))) as [Hsplit|Hfit].
  - (* split: the first [target] bytes go out as they are *)
    destruct (Z.ltb_spec target 0) as [Hneg|_]; [lia|].
    set (first := mkFrame (FType frame) (take (Z.to_nat target) (Payload frame))).
    destruct (writeFrame_Buffer first (with_rand (advance 1 (w_rand s)) s))
      as (s2 & -> & Ht2 & _ & He2 & Ho2).
    destruct (applyDelay_Ok profile s2 Hdelays)
      as (s3 & evs & -> & Ht3 & Hevs & He3 & Ho3).
    set (rest := mkFrame (FType frame) (drop (Z.to_nat target) (Payload frame))).
    destruct (IH rest s3)
      as (s' & new & padding & -> & Ht' & Hcat & Hall & Hcount & He' & Ho').
    { subst rest. cbn [Payload]. rewrite length_drop. unfold len in Hsplit. lia. }
    exists s', ([WroteFrame first] ++ evs ++ new), padding.
    assert (Hfr : written_frames ([WroteFrame first] ++ evs ++ new)
                  = first :: written_frames new).
    { rewrite !written_frames_app, Hevs. reflexivity. }
    rewrite Hfr. split; [reflexivity|]. split.
    { rewrite Ht', Ht3, Ht2. cbn [with_rand w_trace].
      now rewrite <- !app_assoc. }
    split.
    { cbn [map]. rewrite concat_cons, Hcat.
      subst first rest. cbn [Payload]. rewrite app_assoc, take_drop. reflexivity. }
    split.
    { constructor; [|exact Hall]. split; [reflexivity|].
      exists pat. split; [exact Hin|]. rewrite Hsz. subst first. cbn [Payload].
      unfold len in *. rewrite length_take. lia. }
    split; [cbn [length]; lia|].
    rewrite encodeStream_cons. cbn [fst snd].
    cbn [with_rand w_enc w_out] in He2, Ho2.
    rewrite He', Ho', He3, Ho3, He2, Ho2. split; [reflexivity|].
    now rewrite <- app_assoc.
  - (* last frame: padded up to [target] *)
    destruct (AddPadding_le (Payload frame) target (advance 1 (w_rand s)) Hfit)
      as (padding & g' & -> & Hlen).
    set (morphed := mkFrame (FType frame) (Payload frame ++ padding)).
    destruct (writeFrame_Buffer morphed (with_rand g' s))
      as (s2 & -> & Ht2 & _ & He2 & Ho2).
    destruct (applyDelay_Ok profile s2 Hdelays)
      as (s3 & evs & -> & Ht3 & Hevs & He3 & Ho3).
    exists s3, ([WroteFrame morphed] ++ evs), padding.
    assert (Hfr : written_frames ([WroteFrame morphed] ++ evs) = [morphed]).
    { rewrite written_frames_app, Hevs. reflexivity. }
    rewrite Hfr. split; [reflexivity|]. split.
    { rewrite Ht3, Ht2. cbn [with_rand w_trace]. now rewrite <- !app_assoc. }
    split; [cbn [map concat]; now rewrite app_nil_r|].
    split.
    { constructor; [|constructor]. split; [reflexivity|].
      exists pat. split; [exact Hin|]. now rewrite Hsz. }
    split; [cbn [length]; lia|].
    rewrite encodeStream_cons. cbn [fst snd encodeStream].
    cbn [with_rand w_enc w_out] in He2, Ho2.
    rewrite He3, Ho3, He2, Ho2, app_nil_r. split; reflexivity.
Qed.

End BufferSink.
End MorphingFacts.

Import Morphing MorphingFacts.

(** C2, as the code has it.  A DATA frame is written with morphing into an
    in-memory buffer, under a profile whose sizes are positive and at most
    [MaxFramePayloadSize], by an encoder the receiver's decoder is in step
    with.  The writer terminates without error.  Each frame it writes has a
    payload of exactly the size of one of the profile's patterns, and the
    written payloads, concatenated, are the original payload followed by the
    random padding of the last frame.  The receiver's relay loop, run on the
    buffer, delivers exactly these bytes, padding included, to the link;
    without morphing it delivers the original payload. *)
Theorem C2_morphing_appends_padding `{Cipher} `{!CipherCorrect}
    (profile : TrafficProfile) (fuel : nat) (payload : list byte)
    (s : World (list byte)) (d : FrameDecoder) :
  PacketSizes profile <> [] -> Delays profile <> [] ->
  Forall (fun pat => 0 < Size pat <= MaxFramePayloadSize) (PacketSizes profile) ->
  (length payload < fuel)%nat ->
  w_out s = [] -> synced (w_enc s) d ->
  let frame := mkFrame FrameTypeData payload in
  (exists s' new padding d',
     WriteFrameWithMorphing fuel frame
       (Some (mkMorphingConfig true (Some profile))) s = Some (Ok tt, s') /\
     w_trace s' = w_trace s ++ new /\
     concat (written_payloads new) = payload ++ padding /\
     Forall (fun p => exists pat, In pat (PacketSizes profile) /\
                                  len p = Size pat)
       (written_payloads new) /\
     relayFrames (S fuel) d (w_out s') []
     = Some (Err "EOF", d', [], payload ++ padding)) /\
  (len payload <= MaxFramePayloadSize ->
   exists s' d',
     WriteFrameWithMorphing fuel frame None s = Some (Ok tt, s') /\
     w_trace s' = w_trace s ++ [WroteFrame frame] /\
     relayFrames (S fuel) d (w_out s') [] = Some (Err "EOF", d', [], payload)).
Proof.
  intros Hsizes Hdelays Hbounds Hfuel Hout Hs frame. split.
  - destruct (WriteFrameWithMorphing_Buffer profile Hsizes Hdelays) with
      (fuel := fuel) (frame := frame) (s := s)
      as (s' & new & padding & Hrun & Ht & Hcat & Hall & Hcount & _ & Ho).
    { eapply Forall_impl; [exact Hbounds|]. cbn beta. intros pat Hp. lia. }
    { exact Hfuel. }
    destruct (relayFrames_encodeStream (written_frames new) (S fuel)
                (w_enc s) d [] Hs) as (d' & Hrelay).
    { rewrite Forall_forall in Hall. rewrite Forall_forall in Hbounds.
      apply Forall_forall.
      intros f Hf. destruct (Hall f Hf) as (Hty & pat & Hin & Hlen).
      split; [exact Hty|].
      apply list_elem_of_In in Hin. specialize (Hbounds pat Hin).
      unfold MaxFramePayloadSize in Hbounds. lia. }
    { lia. }
    exists s', new, padding, d'.
    split; [exact Hrun|]. split; [exact Ht|].
    rewrite written_payloads_frames.
    split; [exact Hcat|]. split.
    { apply Forall_map. eapply Forall_impl; [exact Hall|].
      cbn beta. intros f (_ & Hp). exact Hp. }
    rewrite Ho, Hout, app_nil_l, Hrelay, Hcat. reflexivity.
  - intros Hsmall.
    destruct (WriteFrameWithMorphing_off fuel frame s) as (s' & Hrun & Ht & Ho).
    destruct (relayFrames_encodeStream [frame] (S fuel) (w_enc s) d [] Hs)
      as (d' & Hrelay).
    { constructor; [|constructor]. split; [reflexivity|].
      unfold MaxFramePayloadSize in Hsmall. cbn [frame Payload]. lia. }
    { cbn [length]. lia. }
    exists s', d'. split; [exact Hrun|]. split; [exact Ht|].
    rewrite Ho, Hout, app_nil_l.
    rewrite encodeStream_cons in Hrelay. cbn [encodeStream fst] in Hrelay.
    rewrite app_nil_r in Hrelay. rewrite Hrelay.
    cbn [map concat Payload frame]. now rewrite app_nil_r.
Qed.

(** ** Handshake codec *)

Import Handshake.

(** C8 (handshake decoding errors): [DecodeClientHandshake] fails with
    "handshake packet too short" on fewer than 76 bytes, and with "invalid
    magic number" on at least 76 bytes whose first four bytes, read
    big-endian, are not 0x5246584C; [DecodeServerHandshake] fails with
    "handshake response too short" on fewer than 40 bytes, and checks no
    magic: it accepts any input of at least 40 bytes. *)
Theorem C8_handshake_decode_errors (data : list byte) :
  (len data < 76 ->
   DecodeClientHandshake data = Err "handshake packet too short") /\
  (76 <= len data -> BigEndian_Uint32 data <> 0x5246584C ->
   DecodeClientHandshake data = Err "invalid magic number") /\
  (len data < 40 ->
   DecodeServerHandshake data = Err "handshake response too short") /\
  (40 <= len data -> is_Ok (DecodeServerHandshake data) = true).
Proof.
  unfold DecodeClientHandshake, DecodeServerHandshake.
  repeat split.
  - intros Hs. destruct (Z.ltb_spec (len data) 76); [reflexivity | lia].
  - intros Hl Hm. destruct (Z.ltb_spec (len data) 76); [lia|].
    assert (Hsl : BigEndian_Uint32 (slice 0 4 data) = BigEndian_Uint32 data).
    { unfold slice, BigEndian_Uint32. now rewrite drop_0, take_take. }
    rewrite Hsl. unfold ReflexMagic.
    destruct (Z.eqb_spec (BigEndian_Uint32 data) 0x5246584C);
      [contradiction | reflexivity].
  - intros Hs. destruct (Z.ltb_spec (len data) 40); [reflexivity | lia].
  - intros Hl. destruct (Z.ltb_spec (len data) 40); [lia | reflexivity].
Qed.

(** The theorem at concrete inputs: 75 zero bytes, and 76 zero bytes (whose
    magic is 0). *)
Lemma C8_handshake_decode_errors_witness :
  DecodeClientHandshake (replicate 75 x00) = Err "handshake packet too short" /\
  DecodeClientHandshake (replicate 76 x00) = Err "invalid magic number" /\
  DecodeServerHandshake (replicate 39 x00) = Err "handshake response too short".
Proof.
  split; [|split].
  - apply (C8_handshake_decode_errors (replicate 75 x00)). vm_compute. reflexivity.
  - apply (C8_handshake_decode_errors (replicate 76 x00)).
    + vm_compute. discriminate.
    + vm_compute. discriminate.
  - apply (C8_handshake_decode_errors (replicate 39 x00)). vm_compute. reflexivity.
Defined.

(** *** Timestamp validation *)

Lemma int64_small v : - 2 ^ 63 <= v < 2 ^ 63 -> int64 v = v.
Proof. intros Hv. unfold int64. rewrite Z.mod_small; lia. Qed.

(** Where the subtraction does not overflow, the check is the ±120 s window. *)
Lemma ValidateTimestamp_window now ts :
  - 2 ^ 63 < now - ts < 2 ^ 63 ->
  ValidateTimestamp now ts = true <-> Z.abs (now - ts) <= 120.
Proof.
  intros Hr. unfold ValidateTimestamp.
  rewrite (int64_small (now - ts)) by lia.
  destruct (Z.ltb_spec (now - ts) 0).
  - rewrite int64_small by lia. rewrite Z.leb_le. lia.
  - rewrite Z.leb_le. lia.
Qed.

(** At distance exactly 2^63 the difference wraps to the least [int64],
    which its own negation leaves unchanged, and the check passes. *)
Lemma ValidateTimestamp_wrap now :
  0 <= now < 2 ^ 63 -> ValidateTimestamp now (now - 2 ^ 63) = true.
Proof.
  intros Hn. unfold ValidateTimestamp.
  replace (now - (now - 2 ^ 63)) with (2 ^ 63) by lia.
  reflexivity.
Qed.

Lemma int64_high v : 2 ^ 63 <= v < 2 ^ 63 + 2 ^ 64 -> int64 v = v - 2 ^ 64.
Proof.
  intros Hv. unfold int64.
  replace (v + 2 ^ 63) with ((v - 2 ^ 63) + 1 * 2 ^ 64) by lia.
  rewrite Z_mod_plus_full, Z.mod_small; lia.
Qed.

(** For a clock in [0, 2^63 - 120), the timestamps that pass are those within
    120 s of [now], and the one at distance 2^63. *)
Lemma ValidateTimestamp_exact now ts :
  0 <= now < 2 ^ 63 - 120 -> - 2 ^ 63 <= ts < 2 ^ 63 ->
  ValidateTimestamp now ts = true <->
  Z.abs (now - ts) <= 120 \/ ts = now - 2 ^ 63.
Proof.
  intros Hn Ht.
  destruct (Z.eq_dec ts (now - 2 ^ 63)) as [->|Hne].
  { rewrite ValidateTimestamp_wrap by lia. tauto. }
  destruct (Z_lt_ge_dec (now - ts) (2 ^ 63)) as [Hlow|Hhigh].
  { rewrite ValidateTimestamp_window by lia. intuition lia. }
  unfold ValidateTimestamp. rewrite (int64_high (now - ts)) by lia.
  destruct (Z.ltb_spec (now - ts - 2 ^ 64) 0) as [_|]; [|lia].
  rewrite int64_small by lia. rewrite Z.leb_le. lia.
Qed.

(** C6 (timestamp window), at the input where the code leaves the window:
    with the clock at 1700000000, the timestamp 1700000000 - 2^63 is a valid
    [int64], lies 2^63 seconds in the past, and is accepted.  At the
    boundaries the check is the one documented: 120 seconds away is
    accepted, 121 seconds away, zero and -1 are rejected. *)
Theorem C6_timestamp_far_past_accepted :
  let now := 1700000000 in
  let ts := now - 2 ^ 63 in
  - 2 ^ 63 <= ts < 2 ^ 63 /\
  Z.abs (now - ts) > 120 /\
  ValidateTimestamp now ts = true /\
  ValidateTimestamp now (now - 120) = true /\
  ValidateTimestamp now (now + 120) = true /\
  ValidateTimestamp now (now - 121) = false /\
  ValidateTimestamp now (now + 121) = false /\
  ValidateTimestamp now 0 = false /\
  ValidateTimestamp now (-1) = false.
Proof. vm_compute. repeat split; congruence. Qed.

(** ** Inbound handshake *)

Import Reflex Inbound.

(** C3 (unknown user falls back, bad timestamp fails): the 76 bytes read
    from the connection decode to [hs].  If the timestamp validates and no
    user has the id [UserID hs], the handler hands the connection to the
    fallback path, having written nothing to it; if the timestamp does not
    validate, the handler returns the error "invalid timestamp" and does not
    fall back, whoever the user is. *)
Theorem C3_unknown_user_falls_back (h : Handler) (now : Z) (conn : Conn)
    (hs : ClientHandshake) :
  76 <= len (conn_in conn) ->
  DecodeClientHandshake (take 76 (conn_in conn)) = Ok hs ->
  (ValidateTimestamp now (Timestamp hs) = true ->
   users (validator h) !! UserID hs = None ->
   handleReflexHandshake h now conn
   = (HandedToFallback, mkConn (drop 76 (conn_in conn)) (conn_out conn))) /\
  (ValidateTimestamp now (Timestamp hs) = false ->
   handleReflexHandshake h now conn
   = (Failed "invalid timestamp",
      mkConn (drop 76 (conn_in conn)) (conn_out conn))).
Proof.
  intros Hlen Hdec. unfold handleReflexHandshake, ReadFull.
  destruct (Nat.ltb_spec (length (conn_in conn)) 76) as [Hlt|_];
    [unfold len in Hlen; lia|].
  rewrite Hdec. split.
  - intros -> Hnone. cbn [negb]. unfold Get. now rewrite Hnone.
  - intros ->. reflexivity.
Qed.


Lemma C3_unknown_user_falls_back_witness :
  let h := New {| Clients := []; Fallbacks := None |} in
  let now := 1700000000 in
  handleReflexHandshake h now
    (mkConn (EncodeClientHandshake (sample_handshake (now - 5))) [])
  = (HandedToFallback, mkConn [] []) /\
  handleReflexHandshake h now
    (mkConn (EncodeClientHandshake (sample_handshake (now - 500))) [])
  = (Failed "invalid timestamp", mkConn [] []).
Proof.
  intros h now. split.
  - apply (C3_unknown_user_falls_back h now
             (mkConn (EncodeClientHandshake (sample_handshake (now - 5))) [])
             (sample_handshake (now - 5))).
    + vm_compute. discriminate.
    + vm_compute. reflexivity.
    + vm_compute. reflexivity.
    + apply lookup_empty.
  - apply (C3_unknown_user_falls_back h now
             (mkConn (EncodeClientHandshake (sample_handshake (now - 500))) [])
             (sample_handshake (now - 500))).
    + vm_compute. discriminate.
    + vm_compute. reflexivity.
    + vm_compute. reflexivity.
Defined.

(** ** Fallback table *)


(** The lookup on a table built by [New] from two entries. *)
Example findFallback_sample :
  let api := mkFallback "example.com" "" "/api" "" "8080" 0 in
  let any := mkFallback "" "" "" "" "80" 0 in
  let h := New {| Clients := []; Fallbacks := Some [api; any] |} in
  findFallback h "example.com" "http/1.1" "/api" = Some api /\
  findFallback h "example.com" "http/1.1" "/" = Some any /\
  findFallback h "other.org" "tls" "" = Some any /\
  routeFallback (New {| Clients := []; Fallbacks := None |}) "other.org" "tls" ""
  = Rejected "no fallback configured".
Proof. vm_compute. repeat split. Qed.

(** C5 (fallback lookup order): [findFallback] returns the entry of the
    first of the eight candidates, in the stated order, under which the
    table has an entry; and [handleFallback] forwards to that entry, tries
    [findFallback("", "", "")] when there is none, and rejects the
    connection with "no fallback configured" when that fails too. *)
Theorem C5_fallback_lookup_order (h : Handler) (name alpn path : string) :
  findFallback h name alpn path = first_entry h (candidates name alpn path) /\
  routeFallback h name alpn path =
    match findFallback h name alpn path with
    | Some fb => Forwarded fb
    | None =>
        match findFallback h "" "" "" with
        | Some fb => Forwarded fb
        | None => Rejected "no fallback configured"
        end
    end.
Proof.
  split.
  - unfold findFallback, first_entry, candidates, lookup3.
    destruct (fallbacks h) as [t|]; [|reflexivity]. cbn [mbind option_bind].
    repeat match goal with
           | |- context [@lookup _ _ (gmap _ _) _ ?k ?m] =>
               destruct (@lookup _ _ (gmap _ _) _ k m) eqn:?;
               cbn [mbind option_bind]
           end;
    reflexivity.
  - unfold routeFallback.
    destruct (findFallback h name alpn path); [reflexivity|].
    destruct (findFallback h "" "" ""); reflexivity.
Qed.

(** ** First frame of a session *)

Import Outbound.


(** C7 (initial user data), as the code behaves: the first write of the
    relay takes the payload from the fixed offset 12, whatever the address
    type.  For the first frame the outbound sends for an IPv6 target (a
    20-byte header and nothing else) the handler accepts the header and
    relays the last 8 bytes of the address as user data; for an IPv4 header
    (8 bytes) followed by "HELLO" it relays "O" only. *)
Theorem C7_first_frame_data_from_offset_12 :
  (forall payload,
     firstFrameData payload =
     if 12 <? len payload then Some (drop 12 payload) else None) /\
  (let payload := encodeRequestHeader ipv6_target in
   is_Ok (parseRequestHeader payload) = true /\
   wire_initialData payload = Some [] /\
   firstFrameData payload = Some (drop 8 (TAddress ipv6_target))) /\
  (let payload :=
     encodeRequestHeader ipv4_target ++ list_byte_of_string "HELLO" in
   is_Ok (parseRequestHeader payload) = true /\
   wire_initialData payload = Some (list_byte_of_string "HELLO") /\
   firstFrameData payload = Some (list_byte_of_string "O")).
Proof.
  split; [|split].
  - intros payload. unfold firstFrameData.
    destruct (12 <? len payload) eqn:E; [|reflexivity].
    change (Z.of_nat 12) with 12. now rewrite E.
  - vm_compute. repeat split.
  - vm_compute. repeat split.
Qed.

(** ** User validator *)

Lemma Add_Get v u : Get (Add v u).2 (idArray (ID (Account u))) = Ok u.
Proof. unfold Get, Add. cbn [snd users]. now rewrite lookup_insert_eq. Qed.

(** Every run of [Remove] either deletes one entry whose email matches, or
    finds none and leaves the validator as it is. *)
Lemma Remove_outcome v email out :
  Remove v email out ->
  (exists id w, users v !! id = Some w /\ Email w = email /\
     out = (Ok tt, {| users := delete id (users v) |})) \/
  ((forall id w, users v !! id = Some w -> Email w <> email) /\
     out = (Err "user not found", v)).
Proof.
  intros (order & Hperm & ->). unfold Remove_in.
  destruct (List.find _ order) as [[id w]|] eqn:Hf.
  - left. apply find_some in Hf as [Hin Heq].
    apply String.eqb_eq in Heq.
    exists id, w. repeat split; [|exact Heq].
    apply elem_of_map_to_list. rewrite <- Hperm. now apply list_elem_of_In.
  - right. split; [|reflexivity]. intros id w Hl Heq.
    pose proof (find_none _ _ Hf (id, w)) as Hn. cbn beta iota in Hn.
    rewrite (proj2 (String.eqb_eq _ _) Heq) in Hn.
    enough (false = true) by discriminate. symmetry. apply Hn.
    apply list_elem_of_In. rewrite Hperm. now apply elem_of_map_to_list.
Qed.

Lemma Remove_total v email : exists out, Remove v email out.
Proof. eexists. exists (map_to_list (users v)). split; reflexivity. Qed.

(** C9 (validator), as the code has it: [Add] succeeds and makes [Get] of
    the user's id return that user, replacing any user stored under the id;
    every run of [Remove] on the user's email then succeeds, and makes [Get]
    of the user's id fail with "user not found" provided no entry under
    another id has the same email; [Remove] of an email that no user has
    fails with "user not found" and leaves the validator unchanged. *)
Theorem C9_validator_add_get_remove (v : Validator) (u : MemoryUser) :
  let id := idArray (ID (Account u)) in
  let v1 := (Add v u).2 in
  (Add v u).1 = Ok tt /\
  Get v1 id = Ok u /\
  (exists out, Remove v1 (Email u) out) /\
  (forall out, Remove v1 (Email u) out ->
     out.1 = Ok tt /\
     ((forall id' w, users v1 !! id' = Some w -> Email w = Email u -> id' = id) ->
      Get out.2 id = Err "user not found")) /\
  (forall email out,
     (forall id' w, users v !! id' = Some w -> Email w <> email) ->
     Remove v email out -> out = (Err "user not found", v)).
Proof.
  intros id v1. split; [reflexivity|]. split; [apply Add_Get|].
  split; [apply Remove_total|]. split.
  - intros out Hr. apply Remove_outcome in Hr as [(id' & w & Hl & He & ->)|[Hno _]].
    + split; [reflexivity|]. intros Huniq.
      rewrite (Huniq id' w Hl He). unfold Get. cbn [snd users].
      now rewrite lookup_delete_eq.
    + exfalso. apply (Hno id u); [|reflexivity].
      subst v1 id. unfold Add. cbn [snd users]. apply lookup_insert_eq.
  - intros email out Hno Hr.
    apply Remove_outcome in Hr as [(id' & w & Hl & He & _)|[_ ->]];
      [|reflexivity].
    exfalso. exact (Hno id' w Hl He).
Qed.


Lemma C9_validator_add_get_remove_witness :
  let v1 := (Add NewValidator alice).2 in
  Get v1 (replicate 16 x01) = Ok alice /\
  (forall out, Remove v1 "a@example.com" out ->
     Get out.2 (replicate 16 x01) = Err "user not found") /\
  (forall out, Remove NewValidator "a@example.com" out ->
     out = (Err "user not found", NewValidator)).
Proof.
  intros v1.
  pose proof (C9_validator_add_get_remove NewValidator alice)
    as (_ & Hget & _ & Hrem & Hnone).
  split; [exact Hget|]. split.
  - intros out Hr. apply (Hrem out Hr).
    intros id' w Hl _. unfold Add, NewValidator in Hl. cbn [snd users] in Hl.
    destruct (decide (id' = idArray (ID (Account alice)))) as [->|Hne];
      [reflexivity|].
    rewrite lookup_insert_ne, lookup_empty in Hl by congruence. discriminate.
  - intros out Hr. apply (Hnone "a@example.com" out); [|exact Hr].
    intros id' w Hl. unfold NewValidator in Hl. cbn [users] in Hl.
    rewrite lookup_empty in Hl. discriminate.
Defined.

(** C9, counterexample: with two users of one email, a run of [Remove] may
    delete the other one, and the user just added is still found afterwards. *)
Lemma C9_remove_may_keep_user :
  exists v u out,
    (Add v u).1 = Ok tt /\
    Remove (Add v u).2 (Email u) out /\
    out.1 = Ok tt /\
    Get out.2 (idArray (ID (Account u))) = Ok u.
Proof.
  set (ida := idArray (ID (Account alice))).
  set (idb := idArray (ID (Account alice2))).
  assert (Hne : ida <> idb) by (vm_compute; discriminate).
  exists (Add NewValidator alice).2, alice2,
    (Ok tt, {| users := delete ida (<[idb := alice2]> (<[ida := alice]> ∅)) |}).
  split; [reflexivity|]. split; [|split].
  - exists [(ida, alice); (idb, alice2)]. split; [|reflexivity].
    unfold Add, NewValidator. cbn [snd users]. fold ida idb.
    rewrite map_to_list_insert
      by (rewrite lookup_insert_ne, lookup_empty; [reflexivity | exact Hne]).
    rewrite map_to_list_insert by apply lookup_empty.
    rewrite map_to_list_empty. apply perm_swap.
  - reflexivity.
  - unfold Get. cbn [snd users]. fold idb.
    rewrite lookup_delete_ne by exact Hne. now rewrite lookup_insert_eq.
Qed.

(** ** Morphing at a concrete input: a 1500-byte DATA frame, Zoom profile *)


(** C2, counterexample: the Zoom profile splits the 1500-byte payload into
    frames of 700, 700 and 700 bytes, the last one being 100 bytes of payload
    and 600 bytes of padding.  The written payloads, concatenated, are not the
    original payload, and the receiver delivers 2100 bytes where it delivers
    the 1500 original bytes without morphing. *)
Lemma C2_morphing_delivers_padding :
  (exists s',
     @WriteFrameWithMorphing ToyCipher.toy _ _ 8 frame1500
       (Some (NewMorphingConfig true "zoom")) world0 = Some (Ok tt, s') /\
     map length (written_payloads (w_trace s')) = [700; 700; 700]%nat /\
     concat (written_payloads (w_trace s')) <> Payload frame1500) /\
  delivered None = Some payload1500 /\
  (exists bytes,
     delivered (Some (NewMorphingConfig true "zoom")) = Some bytes /\
     length bytes = 2100%nat /\ bytes <> payload1500).
Proof.
  split; [|split].
  - eexists. split; [vm_compute; reflexivity|]. split; [vm_compute; reflexivity|].
    intros E. apply (f_equal length) in E. vm_compute in E. discriminate.
  - vm_compute. reflexivity.
  - eexists. split; [vm_compute; reflexivity|]. split; [vm_compute; reflexivity|].
    intros E. apply (f_equal length) in E. vm_compute in E. discriminate.
Qed.

Lemma C2_morphing_appends_padding_witness :
  (exists s' new padding d',
     @WriteFrameWithMorphing ToyCipher.toy _ _ 1501 frame1500
       (Some (mkMorphingConfig true (Some ZoomProfile))) world0
       = Some (Ok tt, s') /\
     w_trace s' = w_trace world0 ++ new /\
     concat (written_payloads new) = payload1500 ++ padding /\
     Forall (fun p => exists pat, In pat (PacketSizes ZoomProfile) /\
                                  len p = Size pat)
       (written_payloads new) /\
     @relayFrames ToyCipher.toy _ _ 1502 decoder0 (w_out s') []
     = Some (Err "EOF", d', [], payload1500 ++ padding)) /\
  (exists s' d',
     @WriteFrameWithMorphing ToyCipher.toy _ _ 1501 frame1500 None world0
       = Some (Ok tt, s') /\
     w_trace s' = w_trace world0 ++ [WroteFrame frame1500] /\
     @relayFrames ToyCipher.toy _ _ 1502 decoder0 (w_out s') []
     = Some (Err "EOF", d', [], payload1500)).
Proof.
  destruct (@C2_morphing_appends_padding ToyCipher.toy
              ToyCipherFacts.toy_correct
              ZoomProfile 1501 payload1500 world0 decoder0) as [Hmorph Hplain].
  - discriminate.
  - discriminate.
  - repeat constructor; vm_compute; discriminate.
  - vm_compute. lia.
  - reflexivity.
  - repeat split.
  - split; [exact Hmorph|]. apply Hplain. vm_compute. discriminate.
Defined.

(** * Further properties of the code *)

(** ** Handshake records on the wire *)

Lemma slice_mid {A} (lo hi : nat) (pre x post : list A) :
  length pre = lo -> length x = (hi - lo)%nat ->
  slice lo hi (pre ++ x ++ post) = x.
Proof.
  intros Hpre Hx. unfold slice.
  rewrite drop_app_length' by (symmetry; exact Hpre).
  rewrite take_app_length' by (symmetry; exact Hx). reflexivity.
Qed.

Lemma int64_uint64 v : - 2 ^ 63 <= v < 2 ^ 63 -> int64 (uint64 v) = v.
Proof.
  intros Hv. unfold int64, uint64.
  rewrite Zplus_mod_idemp_l.
  replace (v + 2 ^ 63) with (v + 2 ^ 63 + 0) by lia.
  rewrite Z.mod_small; lia.
Qed.

Lemma uint64_idem v : uint64 (uint64 v) = uint64 v.
Proof. unfold uint64. apply Zmod_mod. Qed.

Lemma Uint64_PutUint64 v rest :
  BigEndian_Uint64 (BigEndian_PutUint64 v ++ rest) = uint64 v.
Proof.
  unfold BigEndian_Uint64, BigEndian_PutUint64.
  rewrite take_app_length' by (symmetry; apply length_be_bytes).
  rewrite be_Z_be_bytes. reflexivity.
Qed.

Lemma Uint32_PutUint32 v rest :
  BigEndian_Uint32 (BigEndian_PutUint32 v ++ rest) = v mod 2 ^ 32.
Proof.
  unfold BigEndian_Uint32, BigEndian_PutUint32.
  rewrite take_app_length' by (symmetry; apply length_be_bytes).
  rewrite be_Z_be_bytes. reflexivity.
Qed.

Lemma DecodeClientHandshake_Encode (hs : ClientHandshake) (extra : list byte) :
  length (PublicKey hs) = 32%nat -> length (UserID hs) = 16%nat ->
  length (Nonce hs) = 16%nat -> - 2 ^ 63 <= Timestamp hs < 2 ^ 63 ->
  length (EncodeClientHandshake hs) = 76%nat /\
  DecodeClientHandshake (EncodeClientHandshake hs ++ extra) = Ok hs.
Proof.
  intros Hpk Hid Hn Hts. unfold EncodeClientHandshake.
  set (m := BigEndian_PutUint32 ReflexMagic).
  set (t := BigEndian_PutUint64 (uint64 (Timestamp hs))).
  assert (Hm : length m = 4%nat) by apply length_be_bytes.
  assert (Ht : length t = 8%nat) by apply length_be_bytes.
  split.
  { rewrite !length_app. lia. }
  unfold DecodeClientHandshake.
  destruct (Z.ltb_spec (len ((m ++ PublicKey hs ++ UserID hs ++ t ++ Nonce hs)
                              ++ extra)) 76) as [Hlt|_].
  { unfold len in Hlt. rewrite !length_app in Hlt. lia. }
  assert (Hmagic : BigEndian_Uint32
            (slice 0 4 ((m ++ PublicKey hs ++ UserID hs ++ t ++ Nonce hs) ++ extra))
          = ReflexMagic).
  { rewrite <- !app_assoc. unfold slice. rewrite drop_0.
    rewrite take_app_length' by (symmetry; exact Hm).
    rewrite <- (app_nil_r m). subst m. rewrite Uint32_PutUint32. reflexivity. }
  rewrite Hmagic, Z.eqb_refl. cbn [negb].
  rewrite <- !app_assoc.
  assert (Hs1 : slice 4 36 (m ++ PublicKey hs ++ UserID hs ++ t ++ Nonce hs ++ extra)
                = PublicKey hs).
  { apply slice_mid; [exact Hm | lia]. }
  assert (Hs2 : slice 36 52 (m ++ PublicKey hs ++ UserID hs ++ t ++ Nonce hs ++ extra)
                = UserID hs).
  { rewrite (app_assoc m). apply slice_mid; [rewrite length_app; lia | lia]. }
  assert (Hs3 : slice 52 60 (m ++ PublicKey hs ++ UserID hs ++ t ++ Nonce hs ++ extra)
                = t).
  { rewrite (app_assoc m), (app_assoc (m ++ _)).
    apply slice_mid; [rewrite !length_app; lia | lia]. }
  assert (Hs4 : slice 60 76 (m ++ PublicKey hs ++ UserID hs ++ t ++ Nonce hs ++ extra)
                = Nonce hs).
  { rewrite (app_assoc m), (app_assoc (m ++ _)), (app_assoc ((m ++ _) ++ _)).
    apply slice_mid; [rewrite !length_app; lia | lia]. }
  rewrite Hs1, Hs2, Hs3, Hs4.
  rewrite <- (app_nil_r t). subst t. rewrite Uint64_PutUint64.
  rewrite uint64_idem.
  rewrite int64_uint64 by exact Hts. destruct hs; reflexivity.
Qed.

(** X1 (client handshake round trip): a client handshake whose key, user id
    and nonce have their array sizes and whose timestamp is an [int64]
    encodes to exactly 76 bytes, and decoding these bytes, whatever follows
    them, gives the handshake back. *)
Theorem X1_client_handshake_roundtrip (hs : ClientHandshake) (extra : list byte) :
  length (PublicKey hs) = 32%nat -> length (UserID hs) = 16%nat ->
  length (Nonce hs) = 16%nat -> - 2 ^ 63 <= Timestamp hs < 2 ^ 63 ->
  length (EncodeClientHandshake hs) = 76%nat /\
  DecodeClientHandshake (EncodeClientHandshake hs ++ extra) = Ok hs.
Proof. apply DecodeClientHandshake_Encode. Qed.

Lemma X1_client_handshake_roundtrip_witness :
  length (EncodeClientHandshake (sample_handshake 1700000000)) = 76%nat /\
  DecodeClientHandshake
    (EncodeClientHandshake (sample_handshake 1700000000) ++ [x01; x02])
  = Ok (sample_handshake 1700000000).
Proof.
  apply (X1_client_handshake_roundtrip (sample_handshake 1700000000) [x01; x02]).
  - reflexivity.
  - reflexivity.
  - reflexivity.
  - vm_compute. split; congruence.
Defined.

(** X2 (server handshake round trip): a server handshake with a 32-byte key
    and an [int64] timestamp encodes to exactly 40 bytes, and decoding these
    bytes, whatever follows them, gives the handshake back. *)
Theorem X2_server_handshake_roundtrip (hs : ServerHandshake) (extra : list byte) :
  length (SPublicKey hs) = 32%nat -> - 2 ^ 63 <= STimestamp hs < 2 ^ 63 ->
  length (EncodeServerHandshake hs) = 40%nat /\
  DecodeServerHandshake (EncodeServerHandshake hs ++ extra) = Ok hs.
Proof.
  intros Hpk Hts. unfold EncodeServerHandshake.
  set (t := BigEndian_PutUint64 (uint64 (STimestamp hs))).
  assert (Ht : length t = 8%nat) by apply length_be_bytes.
  split.
  { rewrite !length_app. lia. }
  unfold DecodeServerHandshake.
  destruct (Z.ltb_spec (len ((SPublicKey hs ++ t) ++ extra)) 40) as [Hlt|_].
  { unfold len in Hlt. rewrite !length_app in Hlt. lia. }
  rewrite <- !app_assoc.
  assert (Hs1 : slice 0 32 (SPublicKey hs ++ t ++ extra) = SPublicKey hs).
  { unfold slice. rewrite drop_0.
    apply take_app_length'. symmetry. exact Hpk. }
  assert (Hs2 : slice 32 40 (SPublicKey hs ++ t ++ extra) = t).
  { apply slice_mid; [exact Hpk | lia]. }
  rewrite Hs1, Hs2.
  rewrite <- (app_nil_r t). subst t. rewrite Uint64_PutUint64.
  rewrite uint64_idem.
  rewrite int64_uint64 by exact Hts. destruct hs; reflexivity.
Qed.

Lemma X2_server_handshake_roundtrip_witness :
  let hs := mkServerHandshake key_00_1f (-5) in
  length (EncodeServerHandshake hs) = 40%nat /\
  DecodeServerHandshake (EncodeServerHandshake hs ++ []) = Ok hs.
Proof.
  intros hs. apply (X2_server_handshake_roundtrip hs []).
  - reflexivity.
  - vm_compute. split; congruence.
Defined.

(** X3 (accepted timestamps): for a clock in [0, 2^63 - 120) and any [int64]
    timestamp, [ValidateTimestamp] accepts exactly the timestamps from
    [now - 120] to [now + 120], and the single timestamp [now - 2^63], at
    which the [int64] difference overflows. *)
Theorem X3_timestamp_accepted_set (now ts : Z) :
  0 <= now < 2 ^ 63 - 120 -> - 2 ^ 63 <= ts < 2 ^ 63 ->
  ValidateTimestamp now ts = true <->
  now - 120 <= ts <= now + 120 \/ ts = now - 2 ^ 63.
Proof.
  intros Hn Ht. rewrite ValidateTimestamp_exact by assumption.
  split; (intros [Hw|He]; [left; lia | right; exact He]).
Qed.

Lemma X3_timestamp_accepted_set_witness :
  ValidateTimestamp 1700000000 1700000120 = true <->
  1700000000 - 120 <= 1700000120 <= 1700000000 + 120 \/
  1700000120 = 1700000000 - 2 ^ 63.
Proof.
  apply (X3_timestamp_accepted_set 1700000000 1700000120).
  - vm_compute. split; congruence.
  - vm_compute. split; congruence.
Defined.

(** ** Further properties of the frame codec *)

Section CodecExtras.
Context `{Cipher} `{!CipherCorrect} `{!CipherNonceBinding}.

Lemma aead_Seal_nonce_inj k n n' p p' :
  length n = 12%nat -> length n' = 12%nat -> n <> n' ->
  aead_Seal k n p <> aead_Seal k n' p'.
Proof.
  intros Hn Hn' Hne E.
  pose proof (aead_Open_other_nonce k n n' p Hn Hn' Hne) as Hnone.
  rewrite E, aead_Open_Seal in Hnone. discriminate.
Qed.

Lemma uint64_next_ne v : uint64 (uint64 v + 1) <> uint64 v.
Proof.
  unfold uint64. pose proof (Z.mod_pos_bound v (2 ^ 64)) as Hr.
  destruct (Z.eq_dec (v mod 2 ^ 64 + 1) (2 ^ 64)) as [E|NE].
  - rewrite E, Z_mod_same_full. lia.
  - rewrite (Z.mod_small (v mod 2 ^ 64 + 1)) by lia. lia.
Qed.

(** The state a decoder is left in when the AEAD has refused a frame. *)
Lemma Decode_failed_state d data d1 :
  Decode d data = (Err "decryption failed", d1) ->
  d1 = {| d_aead := d_aead d;
          d_nonce := LittleEndian_PutUint64 (d_nonce d) (uint64 (d_counter d + 1));
          d_counter := uint64 (d_counter d + 1) |}.
Proof.
  unfold Decode.
  destruct (len data <? 2); [discriminate|].
  destruct (len data <? _); [discriminate|].
  destruct (_ <? 2); [discriminate|].
  destruct (aead_Open _ _ _) as [[|t p]|]; try discriminate.
  now intros [= <-].
Qed.

End CodecExtras.

(** X4 (counter freshness): the byte strings a freshly built encoder emits
    for fewer than 2^64 frames are pairwise distinct, equal frames included:
    each is sealed under its own counter value. *)
Theorem X4_encoded_frames_distinct
    `{Cipher} `{!CipherCorrect} `{!CipherNonceBinding}
    (k : list byte) (fs : list Frame) (e e' : FrameEncoder)
    (outs : list (list byte)) (i j : nat) (a b : list byte) :
  NewFrameEncoder k = Ok e ->
  Z.of_nat (length fs) < 2 ^ 64 ->
  Encode_all e fs = (Ok outs, e') ->
  i <> j -> outs !! i = Some a -> outs !! j = Some b ->
  a <> b.
Proof.
  intros He Hn HE Hij Ha Hb Hab.
  assert (He0 : e_counter e = 0 /\ length (e_nonce e) = 12%nat).
  { unfold NewFrameEncoder in He. destruct (len k =? KeySize); [|discriminate].
    injection He as <-. split; reflexivity. }
  destruct He0 as [Hc0 Hn0].
  destruct (Encode_all_lookup fs e Hn0) as (outs0 & e0 & HE0 & _ & _ & _ & Hi);
    [lia|].
  rewrite HE in HE0. injection HE0 as <- <-.
  destruct (Hi i a Ha) as (ei & fi & Hfi & -> & Hki & Hni & Hci).
  destruct (Hi j b Hb) as (ej & fj & Hfj & Hbj & Hkj & Hnj & Hcj).
  rewrite Hbj in Hab. clear Hbj.
  apply lookup_lt_Some in Hfi. apply lookup_lt_Some in Hfj.
  unfold encodeFrame in Hab. cbn [fst] in Hab.
  apply (f_equal (drop 2)) in Hab.
  rewrite !drop_app_length' in Hab by (symmetry; apply length_be_bytes).
  rewrite Hki, Hkj in Hab.
  revert Hab. apply aead_Seal_nonce_inj.
  - now apply length_PutUint64.
  - now apply length_PutUint64.
  - intros E. apply PutUint64_inj in E; try apply uint64_range.
    rewrite Hci, Hcj, Hc0 in E. unfold uint64 in E.
    rewrite !Z.mod_small in E by lia. lia.
Qed.

Lemma X4_encoded_frames_distinct_witness :
  exists outs e',
    @Encode_all ToyCipher.toy
      {| e_aead := key_00_1f; e_nonce := replicate 12 x00; e_counter := 0 |}
      [hello_frame; hello_frame] = (Ok outs, e') /\
    forall a b, outs !! 0%nat = Some a -> outs !! 1%nat = Some b -> a <> b.
Proof.
  eexists _, _. split; [reflexivity|].
  intros a b Ha Hb.
  refine (@X4_encoded_frames_distinct ToyCipher.toy ToyCipherFacts.toy_correct
            ToyCipherFacts.toy_nonce_binding key_00_1f
            [hello_frame; hello_frame] _ _ _ 0%nat 1%nat a b _ _ _ _ Ha Hb);
    [reflexivity | vm_compute; reflexivity | reflexivity | discriminate].
Defined.

(** X5 (a refused frame ends the session): once the AEAD has refused some
    bytes offered to a decoder that was in step with its encoder, the
    decoder's counter has moved on, and the next genuine frame of that
    encoder, which the decoder would have accepted, is refused too. *)
Theorem X5_refused_frame_desynchronises
    `{Cipher} `{!CipherCorrect} `{!CipherNonceBinding}
    (e : FrameEncoder) (d d1 : FrameDecoder) (data : list byte) (f : Frame) :
  synced e d ->
  length (e_nonce e) = 12%nat -> length (d_nonce d) = 12%nat ->
  Decode d data = (Err "decryption failed", d1) ->
  len (Payload f) <= 65516 ->
  (exists d', Decode d (encodeFrame e f).1 = (Ok f, d')) /\
  (exists d2, Decode d1 (encodeFrame e f).1 = (Err "decryption failed", d2)).
Proof.
  intros Hs Hne Hnd Hfail Hlen. split.
  - destruct (Decode_encodeFrame e d f Hs Hlen) as (d' & Hd' & _). eauto.
  - apply Decode_failed_state in Hfail. subst d1.
    destruct Hs as (Hk & Hc & _).
    set (D := {| d_aead := d_aead d;
                 d_nonce := LittleEndian_PutUint64 (d_nonce d)
                              (uint64 (d_counter d + 1));
                 d_counter := uint64 (d_counter d + 1) |}).
    destruct (Decode_other_counter e D f) as (d2 & Hd2 & _); eauto.
    + subst D. cbn [d_nonce]. now apply length_PutUint64.
    + subst D. cbn [d_counter]. rewrite Hc. apply uint64_next_ne.
Qed.

Lemma X5_refused_frame_desynchronises_witness :
  let data := [x00; x10] ++ replicate 16 x00 in
  exists d1,
    @Decode ToyCipher.toy decoder0 data = (Err "decryption failed", d1) /\
    (exists d', @Decode ToyCipher.toy decoder0
                  (@encodeFrame ToyCipher.toy (w_enc world0) hello_frame).1
                = (Ok hello_frame, d')) /\
    (exists d2, @Decode ToyCipher.toy d1
                  (@encodeFrame ToyCipher.toy (w_enc world0) hello_frame).1
                = (Err "decryption failed", d2)).
Proof.
  intros data. eexists. split; [vm_compute; reflexivity|].
  apply (@X5_refused_frame_desynchronises ToyCipher.toy
           ToyCipherFacts.toy_correct ToyCipherFacts.toy_nonce_binding
           (w_enc world0) decoder0 _ data hello_frame).
  - repeat split.
  - reflexivity.
  - reflexivity.
  - vm_compute. reflexivity.
  - vm_compute. discriminate.
Defined.

Lemma ReadFull_2 (b1 b2 : byte) rest :
  ReadFull 2 (b1 :: b2 :: rest) = (Ok [b1; b2], rest).
Proof. reflexivity. Qed.

(** X6 (damaged streams): [ReadFrame] on a stream that ends before the frame
    does, or that announces a zero length, fails without touching the
    decoder: "EOF" on an empty stream, "unexpected EOF" after one byte,
    "zero-length frame" after a zero length prefix (the rest of the stream is
    left unread), and, when fewer bytes follow than the prefix announces,
    "unexpected EOF", or plain "EOF" when nothing follows the prefix. *)
Theorem X6_ReadFrame_damaged_stream `{Cipher} (d : FrameDecoder) :
  ReadFrame d [] = (Err "EOF", d, []) /\
  (forall b, ReadFrame d [b] = (Err "unexpected EOF", d, [])) /\
  (forall rest,
     ReadFrame d (x00 :: x00 :: rest) = (Err "zero-length frame", d, rest)) /\
  (forall b1 b2 rest,
     len rest < BigEndian_Uint16 [b1; b2] ->
     ReadFrame d (b1 :: b2 :: rest)
     = (Err (if rest is [] then "EOF" else "unexpected EOF"), d, [])).
Proof.
  split; [reflexivity|]. split; [reflexivity|]. split; [reflexivity|].
  intros b1 b2 rest Hshort. unfold ReadFrame. rewrite ReadFull_2.
  pose proof (Uint16_range [b1; b2]) as Hr.
  destruct (Z.eqb_spec (BigEndian_Uint16 [b1; b2]) 0) as [E|_].
  { unfold len in Hshort. lia. }
  unfold ReadFull.
  destruct (Nat.ltb_spec (length rest) (Z.to_nat (BigEndian_Uint16 [b1; b2])))
    as [_|Hge]; [|unfold len in Hshort; lia].
  destruct rest; reflexivity.
Qed.

Lemma X6_ReadFrame_damaged_stream_witness :
  @ReadFrame ToyCipher.toy decoder0 [x00; x20; x01; x02]
  = (Err "unexpected EOF", decoder0, []) /\
  @ReadFrame ToyCipher.toy decoder0 [x00; x20] = (Err "EOF", decoder0, []).
Proof.
  destruct (@X6_ReadFrame_damaged_stream ToyCipher.toy decoder0)
    as (_ & _ & _ & Hshort).
  split.
  - apply (Hshort x00 x20 [x01; x02]). vm_compute. reflexivity.
  - apply (Hshort x00 x20 []). vm_compute. reflexivity.
Defined.

(** X7 (length prefix 0xFFFE or 0xFFFF): when the length prefix is 65534 or
    65535 and that many bytes follow, [ReadFrame] panics on the slice of
    [Decode], whatever the decoder and the bytes: the bound [2+length] has
    wrapped in [uint16]. *)
Theorem X7_ReadFrame_panics_on_largest_lengths `{Cipher}
    (d : FrameDecoder) (b1 b2 : byte) (rest : list byte) :
  65534 <= BigEndian_Uint16 [b1; b2] ->
  BigEndian_Uint16 [b1; b2] <= len rest ->
  ReadFrame d (b1 :: b2 :: rest)
  = (Panic "slice bounds out of range", d,
     drop (Z.to_nat (BigEndian_Uint16 [b1; b2])) rest).
Proof.
  intros Hbig Hlong. unfold ReadFrame. rewrite ReadFull_2.
  pose proof (Uint16_range [b1; b2]) as Hr.
  set (L := BigEndian_Uint16 [b1; b2]) in *.
  destruct (Z.eqb_spec L 0) as [E|_]; [lia|].
  unfold len in Hlong. unfold ReadFull.
  destruct (Nat.ltb_spec (length rest) (Z.to_nat L)) as [Hlt|_]; [lia|].
  unfold Decode.
  assert (Hlen : len ([b1; b2] ++ take (Z.to_nat L) rest) = 2 + L).
  { unfold len. rewrite length_app, length_take. cbn [length]. lia. }
  rewrite Hlen.
  destruct (Z.ltb_spec (2 + L) 2) as [Hlt|_]; [lia|].
  rewrite Uint16_slice.
  change (BigEndian_Uint16 ([b1; b2] ++ take (Z.to_nat L) rest)) with L.
  assert (Hhi : uint16 (2 + L) = L - 65534).
  { unfold uint16. replace (2 + L) with ((L - 65534) + 1 * 2 ^ 16) by lia.
    rewrite Z_mod_plus_full. apply Z.mod_small. lia. }
  rewrite Hhi.
  destruct (Z.ltb_spec (2 + L) (L - 65534)) as [Hlt|_]; [lia|].
  destruct (Z.ltb_spec (L - 65534) 2) as [_|Hge]; [reflexivity | lia].
Qed.

Lemma X7_ReadFrame_panics_on_largest_lengths_witness :
  let rest := replicate (Z.to_nat 70000) x00 in
  @ReadFrame ToyCipher.toy decoder0 (xff :: xff :: rest)
  = (Panic "slice bounds out of range", decoder0,
     drop (Z.to_nat (BigEndian_Uint16 [xff; xff])) rest).
Proof.
  intros rest.
  apply (@X7_ReadFrame_panics_on_largest_lengths ToyCipher.toy
           decoder0 xff xff rest).
  - vm_compute. discriminate.
  - unfold rest, len. rewrite length_replicate, Z2Nat.id by lia.
    vm_compute. discriminate.
Defined.

(** ** The relay loops *)

Import Relay.

Section RelayFacts.
Context `{Cipher} `{!CipherCorrect}.

Lemma encodeStream_app e fs1 fs2 :
  encodeStream e (fs1 ++ fs2) =
  ((encodeStream e fs1).1 ++ (encodeStream (encodeStream e fs1).2 fs2).1,
   (encodeStream (encodeStream e fs1).2 fs2).2).
Proof.
  revert e. induction fs1 as [|f fs1 IH]; intros e.
  - cbn [app encodeStream fst snd]. now destruct (encodeStream e fs2).
  - rewrite <- app_comm_cons, !encodeStream_cons, IH. cbn [fst snd].
    now rewrite <- app_assoc.
Qed.

Lemma writeBuffers_Buffer mb : forall e (w : list byte),
  writeBuffers mb e w =
  (Ok tt, (encodeStream e (map (mkFrame FrameTypeData) mb)).2,
   w ++ (encodeStream e (map (mkFrame FrameTypeData) mb)).1).
Proof.
  induction mb as [|b mb IH]; intros e w.
  - cbn. now rewrite app_nil_r.
  - cbn [writeBuffers map]. rewrite encodeStream_cons. cbn [fst snd].
    unfold WriteFrame, EncodeToWriter.
    destruct (encodeFrame e (mkFrame FrameTypeData b)) as [out e1] eqn:E.
    change (Write w out) with (Ok tt, w ++ out). cbn [fst snd].
    rewrite IH. now rewrite <- app_assoc.
Qed.

Lemma responseDone_Buffer mbs err : forall e (w : list byte),
  responseDone mbs err e w =
  (Err err, (encodeStream e (map (mkFrame FrameTypeData) (concat mbs))).2,
   w ++ (encodeStream e (map (mkFrame FrameTypeData) (concat mbs))).1).
Proof.
  induction mbs as [|mb mbs IH]; intros e w.
  - cbn. now rewrite app_nil_r.
  - cbn [responseDone concat]. rewrite writeBuffers_Buffer, IH.
    rewrite map_app, encodeStream_app. cbn [fst snd].
    now rewrite <- app_assoc.
Qed.

End RelayFacts.

(** X9 (what the receiving loop delivers): on the stream an encoder in step
    with the decoder has written for the frames [fs] (payloads of at most
    65516 bytes), the loop delivers to the link, in order, the payloads of
    the DATA frames that come before the first frame that is neither DATA,
    PADDING nor TIMING, and nothing of the PADDING and TIMING frames.  It
    ends with [nil] at a CLOSE frame, with "unknown frame type" at a frame of
    any other type, and with the reader's EOF when there is no such frame. *)
Theorem X9_relay_delivers_data_until_stop `{Cipher} `{!CipherCorrect}
    (fs : list Frame) (fuel : nat) (e : FrameEncoder) (d : FrameDecoder)
    (link : list byte) :
  synced e d ->
  Forall (fun f => len (Payload f) <= 65516) fs ->
  (length fs < fuel)%nat ->
  exists d' reader',
    relayFrames fuel d (encodeStream e fs).1 link
    = Some (match first_stop fs with
            | None => Err "EOF"
            | Some f => if Byte.eqb (FType f) FrameTypeClose then Ok tt
                        else Err "unknown frame type"
            end,
            d', reader', link ++ data_payloads (before_stop fs)).
Proof.
  revert fuel e d link.
  induction fs as [|f fs IH]; intros fuel e d link Hs Hall Hfuel.
  - destruct fuel as [|fuel]; [cbn in Hfuel; lia|].
    exists d, []. cbn. now rewrite app_nil_r.
  - destruct fuel as [|fuel]; [cbn in Hfuel; lia|].
    apply Forall_cons in Hall as [Hlen Hall].
    rewrite encodeStream_cons. cbn [fst relayFrames].
    destruct (ReadFrame_encodeFrame e d f
                (encodeStream (encodeFrame e f).2 fs).1 Hs Hlen)
      as (d1 & -> & Hs1).
    cbn [before_stop first_stop]. unfold continues.
    destruct (Byte.eqb (FType f) FrameTypeData) eqn:Edata.
    + cbn [orb].
      change (Write link (Payload f)) with (Ok tt, link ++ Payload f).
      cbn iota.
      destruct (IH fuel _ d1 (link ++ Payload f) Hs1 Hall) as (d' & r' & ->).
      { cbn [length] in Hfuel. lia. }
      exists d', r'. unfold data_payloads. cbn [List.filter].
      rewrite Edata. cbn [map concat]. now rewrite <- app_assoc.
    + cbn [orb].
      destruct (Byte.eqb (FType f) FrameTypeClose) eqn:Eclose.
      * pose proof (byte_dec_bl _ _ Eclose) as Hc.
        exists d1, (encodeStream (encodeFrame e f).2 fs).1.
        rewrite Hc.
        change (Byte.eqb FrameTypeClose FrameTypePadding) with false.
        change (Byte.eqb FrameTypeClose FrameTypeTiming) with false.
        change (Byte.eqb FrameTypeClose FrameTypeClose) with true.
        cbn [orb data_payloads List.filter map concat].
        rewrite Eclose. now rewrite app_nil_r.
      * destruct (Byte.eqb (FType f) FrameTypePadding
                  || Byte.eqb (FType f) FrameTypeTiming) eqn:Ectl.
        -- destruct (IH fuel _ d1 link Hs1 Hall) as (d' & r' & ->).
           { cbn [length] in Hfuel. lia. }
           exists d', r'. unfold data_payloads. cbn [List.filter].
           now rewrite Edata.
        -- exists d1, (encodeStream (encodeFrame e f).2 fs).1.
           cbn [orb data_payloads List.filter map concat].
           rewrite Eclose. now rewrite app_nil_r.
Qed.

Lemma X9_relay_delivers_data_until_stop_witness :
  let fs := [hello_frame; mkFrame FrameTypePadding [x00; x00];
             hello_frame; mkFrame FrameTypeClose []; hello_frame] in
  exists d' reader',
    @relayFrames ToyCipher.toy _ _ 6 decoder0
      (@encodeStream ToyCipher.toy (w_enc world0) fs).1 []
    = Some (Ok tt, d', reader', Payload hello_frame ++ Payload hello_frame).
Proof.
  intros fs.
  apply (@X9_relay_delivers_data_until_stop ToyCipher.toy
           ToyCipherFacts.toy_correct fs 6 (w_enc world0) decoder0 []).
  - repeat split.
  - repeat constructor; vm_compute; discriminate.
  - vm_compute. lia.
Defined.

(** X10 (the byte stream survives the tunnel): the sending loop turns the
    buffers the link yields (each of at most 65516 bytes) into DATA frames
    and ends with the link's error; the receiving loop of the peer, whose
    decoder is in step with the encoder, delivers exactly the concatenation
    of these buffers to its link. *)
Theorem X10_relay_preserves_byte_stream `{Cipher} `{!CipherCorrect}
    (mbs : list (list (list byte))) (err : string)
    (e : FrameEncoder) (d : FrameDecoder) :
  synced e d ->
  Forall (Forall (fun b => len b <= 65516)) mbs ->
  exists e' conn d',
    responseDone mbs err e [] = (Err err, e', conn) /\
    relayFrames (S (length (concat mbs))) d conn []
    = Some (Err "EOF", d', [], concat (concat mbs)).
Proof.
  intros Hs Hall.
  rewrite responseDone_Buffer. cbn [app].
  set (fs := map (mkFrame FrameTypeData) (concat mbs)).
  destruct (relayFrames_encodeStream fs (S (length (concat mbs))) e d [] Hs)
    as (d' & Hrelay).
  - subst fs. apply Forall_map. apply Forall_concat.
    eapply Forall_impl; [exact Hall|]. cbn beta. intros mb Hmb.
    eapply Forall_impl; [exact Hmb|]. cbn beta. intros b Hb.
    split; [reflexivity | exact Hb].
  - subst fs. rewrite length_map. lia.
  - eexists _, _, d'. split; [reflexivity|].
    rewrite Hrelay. subst fs. rewrite map_map. cbn [Payload app].
    now rewrite map_id.
Qed.

Lemma X10_relay_preserves_byte_stream_witness :
  let mbs := [[Payload hello_frame; [x01]]; []; [[x02; x03]]] in
  exists e' conn d',
    @responseDone ToyCipher.toy _ _ mbs "EOF" (w_enc world0) []
    = (Err "EOF", e', conn) /\
    @relayFrames ToyCipher.toy _ _ (S (length (concat mbs))) decoder0 conn []
    = Some (Err "EOF", d', [], concat (concat mbs)).
Proof.
  intros mbs.
  apply (@X10_relay_preserves_byte_stream ToyCipher.toy
           ToyCipherFacts.toy_correct mbs "EOF" (w_enc world0) decoder0).
  - repeat split.
  - repeat constructor; vm_compute; discriminate.
Defined.

(** ** Request header: outbound encoder against inbound parser *)

Lemma Uint16_two_bytes v rest :
  BigEndian_Uint16 (byte_of_Z (v / 256) :: byte_of_Z v :: rest) = v mod 2 ^ 16.
Proof.
  change (byte_of_Z (v / 256) :: byte_of_Z v :: rest)
    with (BigEndian_PutUint16 v ++ rest).
  apply Uint16_PutUint16.
Qed.

Lemma parse_port (c p1 p2 : byte) rest :
  BigEndian_Uint16 (slice 1 3 (c :: p1 :: p2 :: rest)) = BigEndian_Uint16 [p1; p2].
Proof. reflexivity. Qed.

Lemma parseRequestHeader_encodeRequestHeader (t : Target) (data : list byte) :
  0 <= TPort t < 65536 ->
  match TFamily t with
  | AddressFamilyIPv4 => length (TAddress t) = 4%nat
  | AddressFamilyIPv6 => length (TAddress t) = 16%nat
  | AddressFamilyDomain =>
      (length (TAddress t) <= 255)%nat /\
      (2 <= length (TAddress t) + length data)%nat
  end ->
  parseRequestHeader (encodeRequestHeader t ++ data)
  = Ok {| Version := 1; Command := TCommand t; Port := TPort t;
          RAddress := Some (match TFamily t with
                            | AddressFamilyDomain => DomainAddress (TAddress t)
                            | _ => IPAddress (TAddress t)
                            end) |}.
Proof.
  intros Hport Haddr. unfold encodeRequestHeader, parseRequestHeader.
  destruct t as [cmd port fam addr]. cbn [TCommand TPort TFamily TAddress] in *.
  assert (Hp : uint16 port = port) by (unfold uint16; apply Z.mod_small; lia).
  rewrite Hp.
  destruct fam; cbn [app].
  - (* IPv4 *)
    unfold len. cbn [length].
    destruct (Z.ltb_spec (Z.of_nat (S (S (S (S (length (addr ++ data))))))) 4)
      as [Hlt|_]; [lia|].
    destruct (Z.leb_spec 7 (Z.of_nat (S (S (S (S (length (addr ++ data))))))))
      as [_|Hlt]; [|rewrite length_app in Hlt; lia].
    cbn [nth]. change (byte_to_Z x01 =? 1) with true. cbn iota.
    destruct (Z.ltb_spec (Z.of_nat (S (S (S (S (length (addr ++ data))))))) 8)
      as [Hlt|_]; [rewrite length_app in Hlt; lia|].
    rewrite parse_port, Uint16_two_bytes.
    change (port mod 2 ^ 16) with (uint16 port). rewrite Hp.
    assert (Hsl : slice 4 8 (cmd :: byte_of_Z (port / 256) :: byte_of_Z port
                               :: x01 :: addr ++ data) = addr).
    { unfold slice. cbn [drop]. apply take_app_length'. lia. }
    rewrite Hsl. reflexivity.
  - (* IPv6 *)
    unfold len. cbn [length].
    destruct (Z.ltb_spec (Z.of_nat (S (S (S (S (length (addr ++ data))))))) 4)
      as [Hlt|_]; [lia|].
    destruct (Z.leb_spec 7 (Z.of_nat (S (S (S (S (length (addr ++ data))))))))
      as [_|Hlt]; [|rewrite length_app in Hlt; lia].
    cbn [nth]. change (byte_to_Z x04 =? 1) with false.
    change (byte_to_Z x04 =? 3) with false.
    change (byte_to_Z x04 =? 4) with true. cbn iota.
    destruct (Z.ltb_spec (Z.of_nat (S (S (S (S (length (addr ++ data))))))) 20)
      as [Hlt|_]; [rewrite length_app in Hlt; lia|].
    rewrite parse_port, Uint16_two_bytes.
    change (port mod 2 ^ 16) with (uint16 port). rewrite Hp.
    assert (Hsl : slice 4 20 (cmd :: byte_of_Z (port / 256) :: byte_of_Z port
                                :: x04 :: addr ++ data) = addr).
    { unfold slice. cbn [drop]. apply take_app_length'. lia. }
    rewrite Hsl. reflexivity.
  - (* domain *)
    destruct Haddr as [Hmax Hmin].
    unfold len. cbn [length].
    destruct (Z.ltb_spec
                (Z.of_nat (S (S (S (S (S (length (addr ++ data)))))))) 4)
      as [Hlt|_]; [lia|].
    destruct (Z.leb_spec 7
                (Z.of_nat (S (S (S (S (S (length (addr ++ data)))))))))
      as [_|Hlt]; [|rewrite length_app in Hlt; lia].
    cbn [nth]. change (byte_to_Z x03 =? 1) with false.
    change (byte_to_Z x03 =? 3) with true. cbn iota.
    destruct (Z.ltb_spec
                (Z.of_nat (S (S (S (S (S (length (addr ++ data)))))))) 5)
      as [Hlt|_]; [lia|].
    rewrite byte_to_of_Z.
    rewrite (Z.mod_small (Z.of_nat (length addr))) by lia.
    destruct (Z.ltb_spec
                (Z.of_nat (S (S (S (S (S (length (addr ++ data))))))))
                (5 + Z.of_nat (length addr)))
      as [Hlt|_]; [rewrite length_app in Hlt; lia|].
    rewrite parse_port, Uint16_two_bytes.
    change (port mod 2 ^ 16) with (uint16 port). rewrite Hp.
    assert (Hsl : slice 5 (5 + Z.to_nat (Z.of_nat (length addr)))
                    (cmd :: byte_of_Z (port / 256) :: byte_of_Z port
                     :: x03 :: byte_of_Z (Z.of_nat (length addr))
                     :: addr ++ data) = addr).
    { unfold slice. rewrite Nat2Z.id.
      replace (5 + length addr - 5)%nat with (length addr) by lia.
      cbn [drop]. apply take_app_length. }
    rewrite Hsl. reflexivity.
Qed.

(** X11 (request header round trip): the header the outbound builds for an
    IPv4 target (4 address bytes), an IPv6 target (16 bytes) or a domain of
    at most 255 bytes, followed by any data, is parsed by the inbound into
    the same command, port and address, provided the payload has at least
    7 bytes (which only a domain shorter than 2 bytes with no data after it
    can miss). *)
Theorem X11_request_header_roundtrip (t : Target) (data : list byte) :
  0 <= TPort t < 65536 ->
  match TFamily t with
  | AddressFamilyIPv4 => length (TAddress t) = 4%nat
  | AddressFamilyIPv6 => length (TAddress t) = 16%nat
  | AddressFamilyDomain =>
      (length (TAddress t) <= 255)%nat /\
      (2 <= length (TAddress t) + length data)%nat
  end ->
  parseRequestHeader (encodeRequestHeader t ++ data)
  = Ok {| Version := 1; Command := TCommand t; Port := TPort t;
          RAddress := Some (match TFamily t with
                            | AddressFamilyDomain => DomainAddress (TAddress t)
                            | _ => IPAddress (TAddress t)
                            end) |}.
Proof. exact (parseRequestHeader_encodeRequestHeader t data). Qed.

Lemma X11_request_header_roundtrip_witness :
  parseRequestHeader (encodeRequestHeader ipv4_target ++ list_byte_of_string "HELLO")
  = Ok {| Version := 1; Command := x01; Port := 443;
          RAddress := Some (IPAddress (TAddress ipv4_target)) |} /\
  parseRequestHeader (encodeRequestHeader ipv6_target ++ [])
  = Ok {| Version := 1; Command := x01; Port := 443;
          RAddress := Some (IPAddress (TAddress ipv6_target)) |} /\
  parseRequestHeader (encodeRequestHeader (domain_target "example.com") ++ [])
  = Ok {| Version := 1; Command := x01; Port := 443;
          RAddress := Some (DomainAddress (list_byte_of_string "example.com")) |}.
Proof.
  split; [|split].
  - apply (X11_request_header_roundtrip ipv4_target
             (list_byte_of_string "HELLO")).
    + vm_compute. split; congruence.
    + reflexivity.
  - apply (X11_request_header_roundtrip ipv6_target []).
    + vm_compute. split; congruence.
    + reflexivity.
  - apply (X11_request_header_roundtrip (domain_target "example.com") []).
    + vm_compute. split; congruence.
    + vm_compute. split; lia.
Defined.

(** X12 (one-letter domains): for a domain target of at most one byte the
    outbound's header has fewer than 7 bytes; sent alone as the first frame,
    it is accepted by the inbound parser, which then returns a request
    without any address. *)
Theorem X12_short_domain_loses_address (t : Target) :
  TFamily t = AddressFamilyDomain ->
  (length (TAddress t) <= 1)%nat ->
  0 <= TPort t < 65536 ->
  parseRequestHeader (encodeRequestHeader t)
  = Ok {| Version := 1; Command := TCommand t; Port := TPort t;
          RAddress := None |}.
Proof.
  intros Hfam Hlen Hport. unfold encodeRequestHeader, parseRequestHeader.
  destruct t as [cmd port fam addr]. cbn [TCommand TPort TFamily TAddress] in *.
  subst fam.
  assert (Hp : uint16 port = port) by (unfold uint16; apply Z.mod_small; lia).
  rewrite Hp. cbn [app]. rewrite parse_port, Uint16_two_bytes.
  change (port mod 2 ^ 16) with (uint16 port). rewrite Hp.
  destruct addr as [|a [|b addr]]; [reflexivity | reflexivity |].
  cbn [length] in Hlen. lia.
Qed.

Lemma X12_short_domain_loses_address_witness :
  parseRequestHeader (encodeRequestHeader (domain_target "a"))
  = Ok {| Version := 1; Command := x01; Port := 443; RAddress := None |}.
Proof.
  apply (X12_short_domain_loses_address (domain_target "a")).
  - reflexivity.
  - vm_compute. lia.
  - vm_compute. split; congruence.
Defined.

(** ** Inbound: from the first bytes to the authenticated user *)




(** X14 (a known user gets in): when a client handshake with fields of the
    right sizes, a timestamp within 120 seconds of the server's clock and the
    id of a user of the validator is what the connection opens with,
    [Process] consumes exactly its 76 bytes, writes nothing, and continues
    with that user and that handshake. *)
Theorem X14_known_user_authenticates (h : Handler) (now : Z)
    (hs : ClientHandshake) (u : MemoryUser) (rest out : list byte) :
  length (PublicKey hs) = 32%nat -> length (UserID hs) = 16%nat ->
  length (Nonce hs) = 16%nat -> - 2 ^ 63 <= Timestamp hs < 2 ^ 63 ->
  Z.abs (now - Timestamp hs) <= 120 ->
  users (validator h) !! UserID hs = Some u ->
  Process h now (mkConn (EncodeClientHandshake hs ++ rest) out)
  = (Authenticated hs u, mkConn rest out).
Proof.
  intros Hpk Hid Hn Hts Hwin Hu.
  destruct (DecodeClientHandshake_Encode hs [] Hpk Hid Hn Hts) as [Hlen Hdec].
  rewrite app_nil_r in Hdec.
  unfold Process. cbn [conn_in conn_out].
  rewrite take_app_length' by (symmetry; exact Hlen).
  assert (Hmagic : BigEndian_Uint32 (slice 0 4 (EncodeClientHandshake hs))
                   = ReflexMagic).
  { unfold DecodeClientHandshake in Hdec.
    destruct (len _ <? 76); [discriminate|].
    destruct (Z.eqb_spec (BigEndian_Uint32 (slice 0 4 (EncodeClientHandshake hs)))
                ReflexMagic); [assumption | discriminate]. }
  rewrite Hmagic, Z.eqb_refl.
  unfold len at 1. rewrite Hlen. cbn [Z.leb Z.of_nat Pos.of_succ_nat andb].
  change (4 <=? Z.of_nat 76) with true. cbn [andb].
  unfold handleReflexHandshake, ReadFull. cbn [conn_in conn_out].
  rewrite length_app, Hlen.
  destruct (Nat.ltb_spec (76 + length rest) 76) as [Hlt|_]; [lia|].
  rewrite take_app_length', drop_app_length' by (symmetry; exact Hlen).
  rewrite Hdec.
  rewrite (proj2 (ValidateTimestamp_window now (Timestamp hs) ltac:(lia)) Hwin).
  cbn [negb]. unfold Get. now rewrite Hu.
Qed.

Lemma X14_known_user_authenticates_witness :
  let hs := sample_handshake 1699999990 in
  let u := mkMemoryUser (mkMemoryAccount (UserID hs) "zoom") "u@example.com" 0 in
  let h := New {| Clients := [u]; Fallbacks := None |} in
  Process h 1700000000 (mkConn (EncodeClientHandshake hs ++ [x01; x02]) [])
  = (Authenticated hs u, mkConn [x01; x02] []).
Proof.
  intros hs u h.
  apply (X14_known_user_authenticates h 1700000000 hs u [x01; x02] []).
  - reflexivity.
  - reflexivity.
  - reflexivity.
  - vm_compute. split; congruence.
  - vm_compute. discriminate.
  - apply lookup_insert_eq.
Defined.

(** ** Validator and fallback table as built from the configuration *)

(** X15 (what [Remove] removes): a run of [Remove] that succeeds deletes
    exactly one entry: the validator has one user less, and every user with
    another email is still found under its id. *)
Theorem X15_Remove_deletes_one_entry (v : Validator) (email : string)
    (out : result unit * Validator) :
  Remove v email out -> out.1 = Ok tt ->
  (size (users out.2) + 1 = size (users v))%nat /\
  forall id w, users v !! id = Some w -> Email w <> email ->
    Get out.2 id = Ok w.
Proof.
  intros Hr Hok.
  apply Remove_outcome in Hr as [(id0 & w0 & Hl & He & ->)|[_ ->]];
    [|discriminate].
  cbn [snd users]. split.
  - rewrite map_size_delete_Some by eauto.
    assert (size (users v) <> 0%nat).
    { intros Hz. apply map_size_empty_iff in Hz. rewrite Hz, lookup_empty in Hl.
      discriminate. }
    lia.
  - intros id w Hw Hne. unfold Get. cbn [users].
    rewrite lookup_delete_ne by congruence. now rewrite Hw.
Qed.

Lemma X15_Remove_deletes_one_entry_witness :
  let v := (Add (Add NewValidator alice).2
              (mkMemoryUser (mkMemoryAccount (replicate 16 x03) "") "b@example.com" 0)).2 in
  let out := (Ok tt, {| users := delete (idArray (replicate 16 x01)) (users v) |}) in
  (size (users out.2) + 1 = size (users v))%nat /\
  forall id w, users v !! id = Some w -> Email w <> "a@example.com" ->
    Get out.2 id = Ok w.
Proof.
  intros v out.
  apply (X15_Remove_deletes_one_entry v "a@example.com" out); [|reflexivity].
  exists [(idArray (replicate 16 x01), alice);
          (idArray (replicate 16 x03),
           mkMemoryUser (mkMemoryAccount (replicate 16 x03) "") "b@example.com" 0)].
  split; [|reflexivity].
  unfold v, Add, NewValidator. cbn [snd users ID Account].
  rewrite map_to_list_insert.
  - rewrite map_to_list_insert by apply lookup_empty.
    rewrite map_to_list_empty. apply perm_swap.
  - rewrite lookup_insert_ne by (vm_compute; discriminate). apply lookup_empty.
Defined.

Lemma fold_Add_lookup (l : list MemoryUser) : forall (v : Validator) id,
  users (fold_left (fun v u => (Add v u).2) l v) !! id =
  match last (filter (fun u => idArray (ID (Account u)) = id) l) with
  | Some u => Some u
  | None => users v !! id
  end.
Proof.
  induction l as [|u l IH]; intros v id; [reflexivity|].
  cbn [fold_left]. rewrite IH. unfold Add at 1. cbn [snd users].
  rewrite filter_cons. case_decide as Hid.
  - rewrite last_cons. destruct (last _); [reflexivity|].
    rewrite Hid. apply lookup_insert_eq.
  - destruct (last _); [reflexivity|]. now apply lookup_insert_ne.
Qed.

(** X16 (users of the configuration): in the handler [New] builds, an id is
    found exactly when some client of the configuration has it, and the user
    found is the last such client of the list. *)
Theorem X16_New_validator_last_client_wins (config : Config) (id : list byte) :
  Get (validator (New config)) id =
  match last (filter (fun u => idArray (ID (Account u)) = id) (Clients config)) with
  | Some u => Ok u
  | None => Err "user not found"
  end.
Proof.
  unfold Get, New. cbn [validator]. rewrite fold_Add_lookup.
  destruct (last _); [reflexivity|]. unfold NewValidator. cbn [users].
  now rewrite lookup_empty.
Qed.

Lemma addFallback_lookup t fb key :
  table_lookup (addFallback t fb) key =
  if decide (fallback_key fb = key) then Some fb else table_lookup t key.
Proof.
  destruct key as [[n a] p]. unfold table_lookup, addFallback, fallback_key.
  destruct (decide (FName fb = n)) as [<-|Hn].
  - rewrite lookup_insert_eq. simpl.
    destruct (decide (Alpn fb = a)) as [<-|Ha].
    + rewrite lookup_insert_eq. simpl.
      destruct (decide (Path fb = p)) as [<-|Hp].
      * rewrite lookup_insert_eq. now rewrite decide_True.
      * rewrite lookup_insert_ne by exact Hp.
        rewrite decide_False by congruence.
        destruct (t !! FName fb) as [apfb|]; simpl.
        -- destruct (apfb !! Alpn fb); simpl; [reflexivity | apply lookup_empty].
        -- rewrite lookup_empty. simpl. apply lookup_empty.
    + rewrite lookup_insert_ne by exact Ha.
      rewrite decide_False by congruence.
      destruct (t !! FName fb) as [apfb|]; simpl;
        [reflexivity | now rewrite lookup_empty].
  - rewrite lookup_insert_ne by exact Hn.
    rewrite decide_False by congruence. reflexivity.
Qed.

Lemma fold_addFallback_lookup (fbs : list Fallback) : forall t key,
  table_lookup (fold_left addFallback fbs t) key =
  match last (filter (fun fb => fallback_key fb = key) fbs) with
  | Some fb => Some fb
  | None => table_lookup t key
  end.
Proof.
  induction fbs as [|fb fbs IH]; intros t key; [reflexivity|].
  cbn [fold_left]. rewrite IH, addFallback_lookup, filter_cons.
  case_decide.
  - rewrite last_cons. destruct (last _); reflexivity.
  - reflexivity.
Qed.

(** X17 (fallback entries of the configuration): the table [New] builds
    stores, under a key (name, alpn, path), the last entry of the
    configuration with that key, and nothing under a key no entry has; with
    no fallback list it stores nothing. *)
Theorem X17_New_table_last_entry_wins (config : Config)
    (key : string * string * string) :
  lookup3 (New config) key =
  match Fallbacks config with
  | None => None
  | Some fbs => last (filter (fun fb => fallback_key fb = key) fbs)
  end.
Proof.
  unfold lookup3, New. cbn [fallbacks]. destruct key as [[n a] p].
  destruct (Fallbacks config) as [fbs|]; [|reflexivity].
  cbn [mbind option_bind].
  change (fold_left addFallback fbs ∅ !! n
            ≫= (fun apfb => apfb !! a ≫= (fun pfb => pfb !! p)))
    with (table_lookup (fold_left addFallback fbs ∅) (n, a, p)).
  rewrite fold_addFallback_lookup.
  destruct (last _); [reflexivity|].
  unfold table_lookup. now rewrite lookup_empty.
Qed.

Ltac destruct_lookups :=
  repeat match goal with
         | |- context [@lookup _ _ (gmap _ _) _ ?k ?m] =>
             destruct (@lookup _ _ (gmap _ _) _ k m) eqn:?
         end.

(** X18 (the last-resort lookup finds nothing new): whenever
    [findFallback(name, alpn, path)] finds no entry, [findFallback("", "",
    "")] finds none either; so [handleFallback] forwards to the entry of its
    first lookup, and rejects the connection exactly when that lookup
    fails. *)
Theorem X18_fallback_retry_is_redundant (h : Handler) (name alpn path : string) :
  routeFallback h name alpn path =
  match findFallback h name alpn path with
  | Some fb => Forwarded fb
  | None => Rejected "no fallback configured"
  end.
Proof.
  unfold routeFallback, findFallback.
  destruct (fallbacks h) as [t|]; [|reflexivity].
  destruct_lookups; reflexivity.
Qed.

Import ConnHandlers.

(** X19 (the chains of the TLS and HTTP handlers): the keys
    [handleTLSFallback] and [handleHTTPFallback] try after their first one
    are all among those the first [findFallback] has already tried, so each
    forwards to the entry of its first lookup and rejects exactly when that
    lookup fails. *)
Theorem X19_fallback_chains_are_redundant (h : Handler) (name alpn path : string) :
  handleTLSFallback h name alpn =
    match findFallback h name alpn "" with
    | Some fb => Forwarded fb
    | None => Rejected "no TLS fallback configured"
    end /\
  handleHTTPFallback h name path =
    match findFallback h name "http/1.1" path with
    | Some fb => Forwarded fb
    | None => Rejected "no HTTP fallback configured"
    end.
Proof.
  unfold handleTLSFallback, handleHTTPFallback, findFallback.
  destruct (fallbacks h) as [t|]; [|split; reflexivity].
  split; destruct_lookups; reflexivity.
Qed.

Ltac rewrite_lookups :=
  repeat match goal with
         | H : @lookup _ _ (gmap _ _) _ ?k ?m = _ |- context [@lookup _ _ (gmap _ _) _ ?k ?m] =>
             rewrite H; cbn [mbind option_bind]
         end.

Lemma findFallback_Some_key (h : Handler) (name alpn path : string) (fb : Fallback) :
  findFallback h name alpn path = Some fb ->
  exists n a p, (n = name \/ n = "") /\ (a = alpn \/ a = "") /\
                (p = path \/ p = "") /\ lookup3 h (n, a, p) = Some fb.
Proof.
  unfold findFallback, lookup3.
  destruct (fallbacks h) as [t|]; [|discriminate].
  cbn [mbind option_bind].
  destruct_lookups; intros [= <-];
    first
      [ exists name, alpn, path; repeat (split; [auto|]); rewrite_lookups; reflexivity
      | exists name, alpn, ""; repeat (split; [auto|]); rewrite_lookups; reflexivity
      | exists name, "", path; repeat (split; [auto|]); rewrite_lookups; reflexivity
      | exists name, "", ""; repeat (split; [auto|]); rewrite_lookups; reflexivity
      | exists "", alpn, path; repeat (split; [auto|]); rewrite_lookups; reflexivity
      | exists "", alpn, ""; repeat (split; [auto|]); rewrite_lookups; reflexivity
      | exists "", "", path; repeat (split; [auto|]); rewrite_lookups; reflexivity
      | exists "", "", ""; repeat (split; [auto|]); rewrite_lookups; reflexivity ].
Qed.

Lemma lookup3_New_Some (config : Config) key fb :
  lookup3 (New config) key = Some fb ->
  exists fbs, Fallbacks config = Some fbs /\ In fb fbs /\ fallback_key fb = key.
Proof.
  unfold lookup3, New. cbn [fallbacks]. destruct key as [[n a] p].
  destruct (Fallbacks config) as [fbs|]; [|discriminate].
  cbn [mbind option_bind].
  change (fold_left addFallback fbs ∅ !! n
            ≫= (fun apfb => apfb !! a ≫= (fun pfb => pfb !! p)))
    with (table_lookup (fold_left addFallback fbs ∅) (n, a, p)).
  rewrite fold_addFallback_lookup.
  destruct (last _) as [fb'|] eqn:Hlast.
  - intros [= ->]. apply last_Some_elem_of, list_elem_of_filter in Hlast.
    destruct Hlast as [Hkey Hin]. exists fbs.
    split; [reflexivity|]. split; [now apply list_elem_of_In | exact Hkey].
  - unfold table_lookup. rewrite lookup_empty. discriminate.
Qed.

(** X20 (what a lookup can return): in a handler built by [New],
    [findFallback(name, alpn, path)] returns only entries of the
    configuration, and only such whose name is [name] or empty, whose alpn is
    [alpn] or empty and whose path is [path] or empty. *)
Theorem X20_findFallback_returns_matching_entry (config : Config)
    (name alpn path : string) (fb : Fallback) :
  findFallback (New config) name alpn path = Some fb ->
  (exists fbs, Fallbacks config = Some fbs /\ In fb fbs) /\
  (FName fb = name \/ FName fb = "") /\
  (Alpn fb = alpn \/ Alpn fb = "") /\
  (Path fb = path \/ Path fb = "").
Proof.
  intros Hfind.
  apply findFallback_Some_key in Hfind as (n & a & p & Hn & Ha & Hp & Hl).
  apply lookup3_New_Some in Hl as (fbs & Hfbs & Hin & Hkey).
  unfold fallback_key in Hkey. injection Hkey as <- <- <-.
  split; [exists fbs; split; assumption|]. repeat split; assumption.
Qed.

Lemma X20_findFallback_returns_matching_entry_witness :
  let fb := mkFallback "" "tls" "" "tcp" "8443" 0 in
  let config := mkConfig [] (Some [mkFallback "a.example" "h2" "" "tcp" "81" 0; fb]) in
  (exists fbs, Fallbacks config = Some fbs /\ In fb fbs) /\
  (FName fb = "a.example" \/ FName fb = "") /\
  (Alpn fb = "tls" \/ Alpn fb = "") /\
  (Path fb = "" \/ Path fb = "").
Proof.
  intros fb config.
  apply (X20_findFallback_returns_matching_entry config "a.example" "tls" "" fb).
  vm_compute. reflexivity.
Defined.

Module DestFacts.
Import Stdlib.Strings.Ascii.

Lemma digits_no_colon (s : string) : forall acc n,
  digits s acc = Some n -> Contains s ":" = false.
Proof.
  induction s as [|c s IH]; intros acc n; [reflexivity|].
  cbn [digits Contains String.prefix].
  destruct (digit c) as [d|] eqn:Hd; [|discriminate].
  intros Hs. rewrite (IH _ _ Hs).
  destruct (Ascii.ascii_dec ":"%char c) as [<-|_]; [discriminate Hd|reflexivity].
Qed.

Lemma Atoi_no_colon (s : string) (n : Z) :
  Atoi s = Ok n -> Contains s ":" = false.
Proof.
  destruct s as [|c rest]; [discriminate|].
  unfold Atoi.
  destruct (Ascii.eqb c "-"%char || Ascii.eqb c "+"%char) eqn:Hsign.
  - intros Hok.
    assert (Hm : exists m, digits rest 0 = Some m).
    { destruct rest as [|c' rest']; [discriminate|].
      destruct (digits (String c' rest') 0) as [m|]; [eauto|discriminate]. }
    destruct Hm as [m Hm].
    change (Contains (String c rest) ":")
      with (String.prefix ":" (String c rest) || Contains rest ":").
    rewrite (digits_no_colon _ _ _ Hm). cbn [String.prefix].
    destruct (Ascii.ascii_dec ":"%char c) as [<-|_]; [discriminate Hsign|reflexivity].
  - destruct (digits (String c rest) 0) as [m|] eqn:Hm; [|discriminate].
    intros _. exact (digits_no_colon _ _ _ Hm).
Qed.

End DestFacts.

(** X21 (the address dialled for a fallback): [handleFallback] dials [Dest]
    as it is when it contains a colon and "127.0.0.1:" followed by [Dest]
    otherwise; the later test for a number never changes that. *)
Theorem X21_fallback_dest_by_colon (fb : Fallback) :
  fallbackDest fb =
  if Contains (Dest fb) ":" then Dest fb
  else String.append "127.0.0.1:" (Dest fb).
Proof.
  unfold fallbackDest.
  destruct (Atoi (Dest fb)) as [n| |] eqn:Hn; try reflexivity.
  now rewrite (DestFacts.Atoi_no_colon _ _ Hn).
Qed.

(** ** What the fallback path reads from the peeked bytes *)

Module PeekFacts.

Lemma Index_no_sep (c : byte) (s : list byte) :
  ~ In c s -> Index s [c] = None.
Proof.
  induction s as [|b s IH]; intros Hn; [reflexivity|].
  cbn [Index HasPrefix].
  destruct (Byte.eqb b c) eqn:E.
  - apply Byte.byte_dec_bl in E. subst b. exfalso. apply Hn. now left.
  - cbn [andb]. rewrite IH; [reflexivity|]. intros Hin. apply Hn. now right.
Qed.

Lemma Index_first (c : byte) (a r : list byte) :
  ~ In c a -> Index (a ++ c :: r) [c] = Some (length a).
Proof.
  induction a as [|b a IH]; intros Hn.
  - cbn [app Index HasPrefix length].
    assert (E : Byte.eqb c c = true) by now apply Byte.byte_dec_lb.
    rewrite E. reflexivity.
  - cbn [app Index HasPrefix length].
    destruct (Byte.eqb b c) eqn:E.
    + apply Byte.byte_dec_bl in E. subst b. exfalso. apply Hn. now left.
    + cbn [andb]. rewrite IH; [reflexivity|]. intros Hin. apply Hn. now right.
Qed.

Lemma genSplit_no_sep (c : byte) (n : nat) (s : list byte) :
  ~ In c s -> genSplit n s [c] = [s].
Proof.
  intros Hn. destruct n as [|n]; [reflexivity|].
  cbn [genSplit]. now rewrite Index_no_sep.
Qed.

Lemma genSplit_first (c : byte) (n : nat) (a r : list byte) :
  ~ In c a -> genSplit (S n) (a ++ c :: r) [c] = a :: genSplit n r [c].
Proof.
  intros Hn. cbn [genSplit]. rewrite Index_first by exact Hn.
  rewrite take_app_length.
  replace (length a + length [c])%nat with (length (a ++ [c]))
    by (rewrite length_app; reflexivity).
  replace (a ++ c :: r) with ((a ++ [c]) ++ r) by now rewrite <- app_assoc.
  rewrite drop_app_length. reflexivity.
Qed.

End PeekFacts.

(** X22 (the path of an HTTP request line): for a method and a request
    target without a space, [extractHTTPPath] returns the target, whether or
    not a second space and more text follow it; for data without any space
    it returns "/". *)
Theorem X22_extractHTTPPath_request_line (method target rest : list byte) :
  ~ In x20 method -> ~ In x20 target ->
  extractHTTPPath (method ++ [x20] ++ target ++ [x20] ++ rest)
    = string_of_list_byte target /\
  extractHTTPPath (method ++ [x20] ++ target) = string_of_list_byte target /\
  extractHTTPPath method = "/".
Proof.
  intros Hm Ht. unfold extractHTTPPath, SplitN.
  change (list_byte_of_string " ") with [x20].
  split; [|split].
  - rewrite Nat.min_l by (rewrite !length_app; cbn [length]; lia).
    cbn [Nat.sub app].
    rewrite PeekFacts.genSplit_first by exact Hm.
    rewrite PeekFacts.genSplit_first by exact Ht. reflexivity.
  - destruct (Nat.min 3 (length (method ++ [x20] ++ target) + 1) - 1)%nat
      as [|k] eqn:Hk.
    { rewrite length_app in Hk. cbn [length app] in Hk. lia. }
    cbn [app]. rewrite PeekFacts.genSplit_first by exact Hm.
    rewrite PeekFacts.genSplit_no_sep by exact Ht. reflexivity.
  - now rewrite PeekFacts.genSplit_no_sep.
Qed.

Lemma X22_extractHTTPPath_request_line_witness :
  extractHTTPPath (list_byte_of_string "GET" ++ [x20] ++
                   list_byte_of_string "/a?b=1" ++ [x20] ++
                   list_byte_of_string "HTTP/1.1")
    = string_of_list_byte (list_byte_of_string "/a?b=1") /\
  extractHTTPPath (list_byte_of_string "GET" ++ [x20] ++
                   list_byte_of_string "/a?b=1")
    = string_of_list_byte (list_byte_of_string "/a?b=1") /\
  extractHTTPPath (list_byte_of_string "GET") = "/".
Proof.
  apply (X22_extractHTTPPath_request_line
           (list_byte_of_string "GET") (list_byte_of_string "/a?b=1")
           (list_byte_of_string "HTTP/1.1"));
    vm_compute; intros H; repeat destruct H as [H|H]; try discriminate H;
    exact H.
Defined.

Module SNIFacts.

Lemma lor_shift8 (hi lo : Z) :
  0 <= lo < 256 -> Z.lor (Z.shiftl hi 8) lo = hi * 256 + lo.
Proof.
  intros Hlo. rewrite Z.shiftl_mul_pow2 by lia.
  change (2 ^ 8) with 256.
  assert (Hland : Z.land (hi * 256) lo = 0).
  { apply Z.bits_inj'. intros n Hn. rewrite Z.land_spec, Z.bits_0.
    destruct (Z.lt_ge_cases n 8) as [Hlow|Hhigh].
    - change 256 with (2 ^ 8). rewrite Z.mul_pow2_bits_low by lia. reflexivity.
    - destruct (Z.eq_dec lo 0) as [->|Hnz].
      + rewrite Z.bits_0. apply andb_false_r.
      + rewrite (Z.bits_above_log2 lo n); [apply andb_false_r|lia|].
        assert (Z.log2 lo < 8) by (apply Z.log2_lt_pow2; lia). lia. }
  rewrite <- Z.lxor_lor by exact Hland.
  symmetry. apply Z.add_nocarry_lxor. exact Hland.
Qed.

Lemma index_Ok (data : list byte) (i : Z) :
  0 <= i < len data ->
  index data i = Ok (byte_to_Z (nth (Z.to_nat i) data x00)).
Proof.
  intros Hi. unfold index.
  destruct (Z.leb_spec 0 i); [|lia]. destruct (Z.ltb_spec i (len data)); [|lia].
  reflexivity.
Qed.

Lemma uint16At_Ok (data : list byte) (pos : Z) (k : Z -> option (result string)) :
  0 <= pos -> pos + 2 <= len data ->
  exists v, 0 <= v < 65536 /\
    v = byte_to_Z (nth (Z.to_nat pos) data x00) * 256
        + byte_to_Z (nth (Z.to_nat (pos + 1)) data x00) /\
    uint16At data pos k = k v.
Proof.
  intros H0 H2. unfold uint16At.
  rewrite !index_Ok by lia. cbn [andThen].
  pose proof (byte_to_Z_range (nth (Z.to_nat pos) data x00)) as Hhi.
  pose proof (byte_to_Z_range (nth (Z.to_nat (pos + 1)) data x00)) as Hlo.
  rewrite lor_shift8 by exact Hlo.
  eexists. split; [|split; reflexivity]. lia.
Qed.

Lemma sniExtension_Ok (data : list byte) (pos extLen : Z) :
  0 <= pos -> exists name, sniExtension data pos extLen = Some (Ok name).
Proof.
  intros H0. unfold sniExtension.
  destruct (Z.ltb_spec (len data) (pos + extLen)); [eauto|].
  destruct (Z.ltb_spec (len data) (pos + 2)); [eauto|].
  destruct (Z.leb_spec (len data) (pos + 2)); [eauto|].
  rewrite index_Ok by lia. cbn [andThen].
  destruct (negb _); [eauto|].
  destruct (Z.ltb_spec (len data) (pos + 2 + 1 + 2)); [eauto|].
  destruct (uint16At_Ok data (pos + 2 + 1)
              (fun sniLen =>
                 if len data <? pos + 2 + 1 + 2 + sniLen then Some (Ok "")
                 else andThen
                        (slice_checked data (pos + 2 + 1 + 2)
                           (pos + 2 + 1 + 2 + sniLen))
                        (fun name => Some (Ok (string_of_list_byte name)))))
    as (v & Hv & _ & ->); [lia|lia|].
  destruct (Z.ltb_spec (len data) (pos + 2 + 1 + 2 + v)); [eauto|].
  unfold slice_checked.
  destruct (Z.leb_spec 0 (pos + 2 + 1 + 2)); [|lia].
  destruct (Z.leb_spec (pos + 2 + 1 + 2) (pos + 2 + 1 + 2 + v)); [|lia].
  destruct (Z.leb_spec (pos + 2 + 1 + 2 + v) (len data)); [|lia].
  cbn [andb andThen]. eauto.
Qed.

Lemma extensions_Ok (fuel : nat) : forall (data : list byte) (pos endPos : Z),
  0 <= pos -> len data - pos < Z.of_nat fuel + 4 ->
  exists name, extensions fuel data pos endPos = Some (Ok name).
Proof.
  induction fuel as [|fuel IH]; intros data pos endPos H0 Hfuel.
  - cbn [extensions].
    destruct (Z.leb_spec (pos + 4) endPos); cbn [andb]; [|eauto].
    destruct (Z.leb_spec (pos + 4) (len data)); [lia|eauto].
  - cbn [extensions].
    destruct (Z.leb_spec (pos + 4) endPos); cbn [andb]; [|eauto].
    destruct (Z.leb_spec (pos + 4) (len data)); [|eauto].
    destruct (uint16At_Ok data pos
                (fun extType =>
                   uint16At data (pos + 2)
                     (fun extLen =>
                        if extType =? 0 then sniExtension data (pos + 4) extLen
                        else extensions fuel data (pos + 4 + extLen) endPos)))
      as (ty & _ & _ & ->); [lia|lia|].
    destruct (uint16At_Ok data (pos + 2)
                (fun extLen =>
                   if ty =? 0 then sniExtension data (pos + 4) extLen
                   else extensions fuel data (pos + 4 + extLen) endPos))
      as (n & Hn & _ & ->); [lia|lia|].
    destruct (ty =? 0).
    + apply sniExtension_Ok. lia.
    + apply IH; lia.
Qed.

Lemma extractSNI_Ok (data : list byte) :
  exists name, extractSNI data = Some (Ok name).
Proof.
  unfold extractSNI.
  destruct (Z.ltb_spec (len data) 43); [eauto|].
  destruct (Z.leb_spec (len data) 43); [eauto|].
  rewrite index_Ok by lia. cbn [andThen].
  set (sid := byte_to_Z _).
  assert (Hsid : 0 <= sid < 256) by apply byte_to_Z_range.
  destruct (Z.ltb_spec (len data) (43 + (1 + sid) + 2)); [eauto|].
  match goal with |- exists _, uint16At _ _ ?k = _ =>
    destruct (uint16At_Ok data (43 + (1 + sid)) k)
      as (cs & Hcs & _ & ->); [lia|lia|] end.
  destruct (Z.ltb_spec (len data) (43 + (1 + sid) + (2 + cs) + 1)); [eauto|].
  rewrite index_Ok by lia. cbn [andThen].
  set (cm := byte_to_Z _).
  assert (Hcm : 0 <= cm < 256) by apply byte_to_Z_range.
  destruct (Z.ltb_spec (len data) (43 + (1 + sid) + (2 + cs) + (1 + cm) + 2));
    [eauto|].
  match goal with |- exists _, uint16At _ _ ?k = _ =>
    destruct (uint16At_Ok data (43 + (1 + sid) + (2 + cs) + (1 + cm)) k)
      as (el & Hel & _ & ->); [lia|lia|] end.
  apply extensions_Ok; unfold len in *; lia.
Qed.

End SNIFacts.

(** X23 (the SNI parser is safe on any input): whatever bytes the connection
    starts with, [extractSNI] returns a string: it reads no byte out of range
    and its loop over the extensions ends. *)
Theorem X23_extractSNI_never_panics (data : list byte) :
  exists name, extractSNI data = Some (Ok name).
Proof. exact (SNIFacts.extractSNI_Ok data). Qed.

Module SNIParse.
Import SNIFacts.

Lemma len_app {A} (a b : list A) : len (a ++ b) = len a + len b.
Proof. unfold len. rewrite length_app. lia. Qed.

Lemma len_PutUint16 v : len (BigEndian_PutUint16 v) = 2.
Proof. reflexivity. Qed.

Lemma index_at (data pre rest : list byte) (b : byte) (pos : Z) :
  data = pre ++ b :: rest -> pos = len pre ->
  index data pos = Ok (byte_to_Z b).
Proof.
  intros -> ->. rewrite index_Ok.
  - unfold len. rewrite Nat2Z.id, app_nth2 by lia.
    rewrite Nat.sub_diag. reflexivity.
  - rewrite len_app. unfold len. cbn [length]. lia.
Qed.

Lemma uint16At_at (data pre rest : list byte) (v pos : Z)
    (k : Z -> option (result string)) :
  data = pre ++ BigEndian_PutUint16 v ++ rest -> pos = len pre ->
  0 <= v < 65536 ->
  uint16At data pos k = k v.
Proof.
  intros Hd Hp Hv. unfold uint16At.
  change (BigEndian_PutUint16 v) with [byte_of_Z (v / 256); byte_of_Z v] in Hd.
  rewrite (index_at data pre (byte_of_Z v :: rest) (byte_of_Z (v / 256)) pos)
    by assumption.
  rewrite (index_at data (pre ++ [byte_of_Z (v / 256)]) rest (byte_of_Z v) (pos + 1)).
  - cbn [andThen]. rewrite !byte_to_of_Z.
    rewrite lor_shift8 by (apply Z.mod_pos_bound; lia).
    f_equal. rewrite (Z.mod_small (v / 256)).
    + symmetry. rewrite Z.mul_comm. apply Z.div_mod. lia.
    + split; [apply Z.div_pos; lia|apply Z.div_lt_upper_bound; lia].
  - rewrite Hd, <- app_assoc. reflexivity.
  - rewrite len_app, Hp. reflexivity.
Qed.

Lemma sniExtension_at (data pre rest host : list byte) (pos : Z) :
  data = pre ++ (server_name host).2 ++ rest -> pos = len pre ->
  len host + 5 < 65536 ->
  sniExtension data pos (len host + 5) = Some (Ok (string_of_list_byte host)).
Proof.
  intros Hd Hp Hh.
  assert (Hhost : 0 <= len host) by (unfold len; lia).
  assert (Hlen : len data = len pre + 5 + len host + len rest).
  { rewrite Hd. unfold server_name. cbn [snd].
    rewrite !len_app, !len_PutUint16. unfold len. cbn [length]. lia. }
  assert (Hrest : 0 <= len rest) by (unfold len; lia).
  assert (Hpos : 0 <= pos) by (unfold len in Hp; lia).
  unfold sniExtension.
  destruct (Z.ltb_spec (len data) (pos + (len host + 5))); [lia|].
  destruct (Z.ltb_spec (len data) (pos + 2)); [lia|].
  destruct (Z.leb_spec (len data) (pos + 2)); [lia|].
  rewrite (index_at data (pre ++ BigEndian_PutUint16 (len host + 3))
             (BigEndian_PutUint16 (len host) ++ host ++ rest) x00 (pos + 2)).
  2:{ rewrite Hd. unfold server_name. cbn [snd]. rewrite <- !app_assoc.
      reflexivity. }
  2:{ rewrite len_app, len_PutUint16. lia. }
  cbn [andThen]. change (negb (byte_to_Z x00 =? 0)) with false. cbv iota.
  destruct (Z.ltb_spec (len data) (pos + 2 + 1 + 2)); [lia|].
  rewrite (uint16At_at data
             (pre ++ BigEndian_PutUint16 (len host + 3) ++ [x00])
             (host ++ rest) (len host)).
  2:{ rewrite Hd. unfold server_name. cbn [snd]. rewrite <- !app_assoc.
      reflexivity. }
  2:{ rewrite !len_app, len_PutUint16. unfold len in *. cbn [length]. lia. }
  2:{ lia. }
  destruct (Z.ltb_spec (len data) (pos + 2 + 1 + 2 + len host)); [lia|].
  unfold slice_checked.
  destruct (Z.leb_spec 0 (pos + 2 + 1 + 2)); [|lia].
  destruct (Z.leb_spec (pos + 2 + 1 + 2) (pos + 2 + 1 + 2 + len host)); [|lia].
  destruct (Z.leb_spec (pos + 2 + 1 + 2 + len host) (len data)); [|lia].
  cbn [andb andThen]. do 3 f_equal. unfold slice.
  assert (Hd' : data = (pre ++ BigEndian_PutUint16 (len host + 3) ++ [x00] ++
                          BigEndian_PutUint16 (len host)) ++ host ++ rest).
  { rewrite Hd. unfold server_name. cbn [snd]. rewrite <- !app_assoc.
    reflexivity. }
  rewrite Hd' at 1. rewrite drop_app_length'.
  - apply take_app_length'. unfold len. lia.
  - rewrite !length_app. cbn [length]. unfold len in *.
    change (length (BigEndian_PutUint16 (Z.of_nat (length host) + 3))) with 2%nat.
    change (length (BigEndian_PutUint16 (Z.of_nat (length host)))) with 2%nat.
    lia.
Qed.

Lemma extensions_finds (before : list (Z * list byte)) :
  forall (fuel : nat) (data pre rest host : list byte) (endPos : Z),
  data = pre ++ concat (map tls_extension before)
             ++ tls_extension (server_name host) ++ rest ->
  Forall (fun e => 0 < e.1 < 65536 /\ len e.2 < 65536) before ->
  len host + 5 < 65536 ->
  (length before < fuel)%nat ->
  len pre + len (concat (map tls_extension before)) + 4 <= endPos ->
  extensions fuel data (len pre) endPos = Some (Ok (string_of_list_byte host)).
Proof.
  induction before as [|[ty body] before IH];
    intros fuel data pre rest host endPos Hd Hall Hh Hfuel Hend;
    (destruct fuel as [|fuel]; [cbn [length] in Hfuel; lia|]).
  - cbn [map concat app] in Hd. cbn [map concat] in Hend.
    unfold tls_extension in Hd. cbn [fst] in Hd.
    assert (Hb : len (server_name host).2 = len host + 5).
    { unfold server_name. cbn [snd]. rewrite !len_app, !len_PutUint16.
      unfold len. cbn [length]. lia. }
    assert (Hlen : len pre + 4 <= len data).
    { rewrite Hd, !len_app, !len_PutUint16. unfold len. lia. }
    cbn [extensions].
    destruct (Z.leb_spec (len pre + 4) endPos); [|unfold len in *; cbn [length] in *; lia].
    destruct (Z.leb_spec (len pre + 4) (len data)); [|lia].
    cbn [andb].
    rewrite (uint16At_at data pre
               (BigEndian_PutUint16 (len (server_name host).2)
                  ++ (server_name host).2 ++ rest) 0);
      [|rewrite Hd, <- !app_assoc; reflexivity|reflexivity|lia].
    rewrite (uint16At_at data (pre ++ BigEndian_PutUint16 0)
               ((server_name host).2 ++ rest) (len (server_name host).2));
      [|rewrite Hd, <- !app_assoc; reflexivity
       |rewrite len_app, len_PutUint16; reflexivity
       |unfold len in *; lia].
    change (0 =? 0) with true. cbv iota. rewrite Hb.
    apply (sniExtension_at data
             (pre ++ BigEndian_PutUint16 0
                  ++ BigEndian_PutUint16 (len (server_name host).2)) rest host).
    + rewrite Hd, <- !app_assoc. reflexivity.
    + rewrite !len_app, !len_PutUint16. lia.
    + exact Hh.
  - cbn [map concat] in Hd, Hend.
    apply Forall_cons in Hall as [[Hty Hbody] Hall]. cbn [fst snd] in Hty, Hbody.
    assert (Hext : len (tls_extension (ty, body)) = 4 + len body).
    { unfold tls_extension. cbn [fst snd]. rewrite !len_app, !len_PutUint16. lia. }
    assert (Hlen : len pre + 4 <= len data).
    { rewrite Hd, !len_app, Hext. unfold len. lia. }
    rewrite len_app, Hext in Hend.
    cbn [extensions].
    destruct (Z.leb_spec (len pre + 4) endPos); [|unfold len in *; lia].
    destruct (Z.leb_spec (len pre + 4) (len data)); [|lia].
    cbn [andb].
    set (tail := concat (map tls_extension before)
                   ++ tls_extension (server_name host) ++ rest) in *.
    assert (Hd2 : data = pre ++ BigEndian_PutUint16 ty
                    ++ BigEndian_PutUint16 (len body) ++ body ++ tail).
    { rewrite Hd. unfold tls_extension at 1, tail. cbn [fst snd].
      rewrite <- !app_assoc. reflexivity. }
    rewrite (uint16At_at data pre
               (BigEndian_PutUint16 (len body) ++ body ++ tail) ty);
      [|exact Hd2|reflexivity|lia].
    rewrite (uint16At_at data (pre ++ BigEndian_PutUint16 ty)
               (body ++ tail) (len body));
      [|rewrite Hd2, <- !app_assoc; reflexivity
       |rewrite len_app, len_PutUint16; reflexivity
       |unfold len in *; lia].
    destruct (Z.eqb_spec ty 0) as [->|_]; [lia|].
    replace (len pre + 4 + len body)
      with (len (pre ++ tls_extension (ty, body)))
      by (rewrite len_app, Hext; lia).
    apply (IH fuel data (pre ++ tls_extension (ty, body)) rest host endPos).
    + rewrite Hd2. unfold tls_extension at 1, tail. cbn [fst snd].
      rewrite <- !app_assoc. reflexivity.
    + exact Hall.
    + exact Hh.
    + cbn [length] in Hfuel. lia.
    + rewrite len_app, Hext. lia.
Qed.

End SNIParse.

Lemma length_concat_extensions (before : list (Z * list byte)) :
  (length before <= length (concat (map tls_extension before)))%nat.
Proof.
  induction before as [|e before IH]; [reflexivity|].
  cbn [map concat length]. unfold tls_extension at 1.
  rewrite !length_app.
  change (length (BigEndian_PutUint16 e.1)) with 2%nat. lia.
Qed.

(** X24 (the SNI parser on a ClientHello): for a ClientHello that carries a
    server-name extension after any number of other extensions,
    [extractSNI] returns the host name of that extension, whatever follows
    it. *)
Theorem X24_extractSNI_finds_server_name
    (head sid suites methods host after trailer : list byte)
    (before : list (Z * list byte)) :
  len head = 43 -> len sid < 256 -> len suites < 65536 -> len methods < 256 ->
  Forall (fun e => 0 < e.1 < 65536 /\ len e.2 < 65536) before ->
  len host + 5 < 65536 ->
  len (concat (map tls_extension before)
         ++ tls_extension (server_name host) ++ after) < 65536 ->
  extractSNI
    (clientHello head sid suites methods
       (concat (map tls_extension before)
          ++ tls_extension (server_name host) ++ after) ++ trailer)
  = Some (Ok (string_of_list_byte host)).
Proof.
  intros Hhead Hsid Hsuites Hmethods Hbefore Hhost Hexts.
  set (exts := concat (map tls_extension before)
                 ++ tls_extension (server_name host) ++ after) in *.
  set (data := clientHello head sid suites methods exts ++ trailer).
  assert (Hd : data = head ++ [byte_of_Z (len sid)] ++ sid ++
                 BigEndian_PutUint16 (len suites) ++ suites ++
                 [byte_of_Z (len methods)] ++ methods ++
                 BigEndian_PutUint16 (len exts) ++ exts ++ trailer).
  { unfold data, clientHello. rewrite <- !app_assoc. reflexivity. }
  assert (Hnn : forall l : list byte, 0 <= len l) by (intros l; unfold len; lia).
  pose proof (Hnn sid). pose proof (Hnn suites). pose proof (Hnn methods).
  pose proof (Hnn exts). pose proof (Hnn trailer).
  assert (Hlen : len data = 43 + 1 + len sid + 2 + len suites + 1 + len methods
                            + 2 + len exts + len trailer).
  { rewrite Hd, !SNIParse.len_app, !SNIParse.len_PutUint16, Hhead.
    change (len [byte_of_Z (len sid)]) with 1.
    change (len [byte_of_Z (len methods)]) with 1. lia. }
  assert (Hext4 : len (concat (map tls_extension before)) + 4 <= len exts).
  { assert (4 <= len (tls_extension (server_name host))).
    { unfold tls_extension.
      rewrite !SNIParse.len_app, !SNIParse.len_PutUint16.
      pose proof (Hnn (server_name host).2). lia. }
    subst exts. rewrite !SNIParse.len_app. pose proof (Hnn after). lia. }
  unfold extractSNI.
  destruct (Z.ltb_spec (len data) 43); [lia|].
  destruct (Z.leb_spec (len data) 43); [lia|].
  rewrite (SNIParse.index_at data head
             (sid ++ BigEndian_PutUint16 (len suites) ++ suites ++
              [byte_of_Z (len methods)] ++ methods ++
              BigEndian_PutUint16 (len exts) ++ exts ++ trailer)
             (byte_of_Z (len sid)) 43);
    [|exact Hd|now rewrite Hhead].
  cbn [andThen]. rewrite byte_to_of_Z, Z.mod_small by lia.
  destruct (Z.ltb_spec (len data) (43 + (1 + len sid) + 2)); [lia|].
  rewrite (SNIParse.uint16At_at data
             (head ++ [byte_of_Z (len sid)] ++ sid)
             (suites ++ [byte_of_Z (len methods)] ++ methods ++
              BigEndian_PutUint16 (len exts) ++ exts ++ trailer)
             (len suites));
    [|rewrite Hd, <- !app_assoc; reflexivity
     |rewrite !SNIParse.len_app, Hhead;
      change (len [byte_of_Z (len sid)]) with 1; lia
     |lia].
  destruct (Z.ltb_spec (len data) (43 + (1 + len sid) + (2 + len suites) + 1));
    [lia|].
  rewrite (SNIParse.index_at data
             (head ++ [byte_of_Z (len sid)] ++ sid ++
              BigEndian_PutUint16 (len suites) ++ suites)
             (methods ++ BigEndian_PutUint16 (len exts) ++ exts ++ trailer)
             (byte_of_Z (len methods)));
    [|rewrite Hd, <- !app_assoc; reflexivity
     |rewrite !SNIParse.len_app, SNIParse.len_PutUint16, Hhead;
      change (len [byte_of_Z (len sid)]) with 1; lia].
  cbn [andThen]. rewrite byte_to_of_Z, Z.mod_small by lia.
  destruct (Z.ltb_spec (len data)
              (43 + (1 + len sid) + (2 + len suites) + (1 + len methods) + 2));
    [lia|].
  rewrite (SNIParse.uint16At_at data
             (head ++ [byte_of_Z (len sid)] ++ sid ++
              BigEndian_PutUint16 (len suites) ++ suites ++
              [byte_of_Z (len methods)] ++ methods)
             (exts ++ trailer) (len exts));
    [|rewrite Hd, <- !app_assoc; reflexivity
     |rewrite !SNIParse.len_app, SNIParse.len_PutUint16, Hhead;
      change (len [byte_of_Z (len sid)]) with 1;
      change (len [byte_of_Z (len methods)]) with 1; lia
     |lia].
  set (pre := head ++ [byte_of_Z (len sid)] ++ sid ++
              BigEndian_PutUint16 (len suites) ++ suites ++
              [byte_of_Z (len methods)] ++ methods ++
              BigEndian_PutUint16 (len exts)).
  assert (Hpre : len pre = 43 + (1 + len sid) + (2 + len suites)
                           + (1 + len methods) + 2).
  { unfold pre. rewrite !SNIParse.len_app, !SNIParse.len_PutUint16, Hhead.
    change (len [byte_of_Z (len sid)]) with 1.
    change (len [byte_of_Z (len methods)]) with 1. lia. }
  rewrite <- Hpre.
  apply (SNIParse.extensions_finds before (length data) data pre
           (after ++ trailer) host).
  - rewrite Hd. unfold pre, exts. rewrite <- !app_assoc. reflexivity.
  - exact Hbefore.
  - exact Hhost.
  - pose proof (length_concat_extensions before). unfold len in *. lia.
  - lia.
Qed.

Lemma X24_extractSNI_finds_server_name_witness :
  extractSNI
    (clientHello (replicate 43 x00) [] [x13; x01] [x00]
       (concat (map tls_extension [(10, [x00; x02; x00; x1d])])
          ++ tls_extension (server_name (list_byte_of_string "example.com"))
          ++ [x00; x17; x00; x00]) ++ [x01; x02])
  = Some (Ok (string_of_list_byte (list_byte_of_string "example.com"))).
Proof.
  apply (X24_extractSNI_finds_server_name
           (replicate 43 x00) [] [x13; x01] [x00]
           (list_byte_of_string "example.com") [x00; x17; x00; x00] [x01; x02]
           [(10, [x00; x02; x00; x1d])]);
    try (vm_compute; reflexivity).
  repeat constructor; vm_compute; congruence.
Defined.




(** ** More on morphing *)



Section BuiltinProfiles.
Context `{Cipher}.

Lemma builtin_profile_sizes (name : string) :
  PacketSizes (GetProfileByName name) <> [] /\
  Delays (GetProfileByName name) <> [] /\
  Forall (fun pat => 200 <= Size pat <= 1500) (PacketSizes (GetProfileByName name)).
Proof.
  unfold GetProfileByName.
  destruct (String.eqb name "youtube"); [|destruct (String.eqb name "zoom")];
    (split; [discriminate|split; [discriminate|]]);
    repeat constructor; cbn; lia.
Qed.

(** X27 (morphing under a policy name): with morphing switched on, whatever
    the profile name, known or not, a frame written into a buffer is written
    without error as frames of its type whose payloads have between 200 and
    1500 bytes each, and which together carry the payload followed by
    padding. *)
Theorem X27_named_profile_frame_sizes (name : string) (frame : Frame)
    (s : World (list byte)) :
  exists s' new padding,
    WriteFrameWithMorphing (S (length (Payload frame))) frame
      (Some (NewMorphingConfig true name)) s = Some (Ok tt, s') /\
    w_trace s' = w_trace s ++ new /\
    concat (map Payload (written_frames new)) = Payload frame ++ padding /\
    Forall (fun f => FType f = FType frame /\ 200 <= len (Payload f) <= 1500)
      (written_frames new) /\
    w_out s' = w_out s ++ (encodeStream (w_enc s) (written_frames new)).1.
Proof.
  destruct (builtin_profile_sizes name) as (Hsizes & Hdelays & Hbounds).
  unfold NewMorphingConfig.
  destruct (WriteFrameWithMorphing_Buffer (GetProfileByName name) Hsizes Hdelays)
    with (fuel := S (length (Payload frame))) (frame := frame) (s := s)
    as (s' & new & padding & Hrun & Ht & Hcat & Hall & _ & _ & Ho).
  { eapply Forall_impl; [exact Hbounds|]. cbn beta. intros pat Hp. lia. }
  { lia. }
  exists s', new, padding. repeat split; try assumption.
  eapply Forall_impl; [exact Hall|]. cbn beta.
  intros f (Hty & pat & Hin & Hlen). split; [exact Hty|].
  rewrite Forall_forall in Hbounds. rewrite Hlen. apply Hbounds.
  now apply list_elem_of_In.
Qed.

(** X28 (a profile with size zero): under a profile all of whose packet
    sizes are zero, the morphing writer never returns on a payload that is
    not empty: each round writes an empty frame and keeps the whole payload
    for the next, so no bound on the rounds is enough. *)
Theorem X28_zero_size_profile_never_returns (profile : TrafficProfile)
    (frame : Frame) (fuel : nat) (s : World (list byte)) :
  PacketSizes profile <> [] ->
  Forall (fun pat => Size pat = 0) (PacketSizes profile) ->
  Delays profile <> [] ->
  Payload frame <> [] ->
  WriteFrameWithMorphing fuel frame
    (Some (mkMorphingConfig true (Some profile))) s = None.
Proof.
  intros Hsizes Hzero Hdelays Hpayload. revert s.
  induction fuel as [|fuel IH]; intros s; [reflexivity|].
  cbn [WriteFrameWithMorphing].
  destruct (GetPacketSize_In profile (w_rand s) Hsizes)
    as (target & pat & Hget & Hin & Hsz).
  rewrite Hget.
  assert (Ht : target = 0).
  { rewrite Forall_forall in Hzero. rewrite <- Hsz. apply Hzero.
    now apply list_elem_of_In. }
  clear Hsz. rewrite !Ht. clear Ht.
  destruct (Z.ltb_spec 0 (len (Payload frame))) as [_|Hle].
  2:{ destruct (Payload frame); [contradiction|]. unfold len in Hle.
      cbn [length] in Hle. lia. }
  change (0 <? 0) with false. cbv iota.
  change (Z.to_nat 0) with 0%nat. rewrite take_0, drop_0.
  destruct (writeFrame_Buffer (mkFrame (FType frame) [])
              (with_rand (advance 1 (w_rand s)) s)) as (s2 & -> & _).
  destruct (applyDelay_Ok profile s2 Hdelays) as (s3 & evs & -> & _).
  destruct frame as [ty payload]. cbn [FType Payload] in *. apply IH.
Qed.

End BuiltinProfiles.

Lemma X28_zero_size_profile_never_returns_witness :
  @WriteFrameWithMorphing ToyCipher.toy _ _ 1000 hello_frame
    (Some (mkMorphingConfig true (Some zero_size_profile))) world0 = None.
Proof.
  apply (@X28_zero_size_profile_never_returns ToyCipher.toy
           zero_size_profile hello_frame 1000 world0).
  - discriminate.
  - repeat constructor.
  - discriminate.
  - discriminate.
Defined.

(** ** The buffer pools *)

Module PoolFacts.
Import Pool.

Lemma tierFor_spec (size : Z) (sizes : list Z) : forall i j poolSize,
  tierFor size sizes i = Some (j, poolSize) ->
  exists k, j = (i + k)%nat /\ sizes !! k = Some poolSize /\ size <= poolSize.
Proof.
  induction sizes as [|p sizes IH]; intros i j poolSize; [discriminate|].
  cbn [tierFor]. destruct (Z.leb_spec size p) as [Hle|_].
  - intros [= <- <-]. exists 0%nat. split; [lia|]. split; [reflexivity|exact Hle].
  - intros Ht. apply IH in Ht as (k & -> & Hk & Hle).
    exists (S k). split; [lia|]. split; assumption.
Qed.

Lemma tierOf_spec (capacity : Z) (n : nat) : forall i,
  tierOf capacity n = Some i ->
  (i < n)%nat /\ default 0 (framePoolSizes !! i) <= capacity.
Proof.
  induction n as [|n IH]; intros i; [discriminate|].
  cbn [tierOf]. destruct (Z.leb_spec (default 0 (framePoolSizes !! n)) capacity).
  - intros [= <-]. split; [lia|assumption].
  - intros Ht. apply IH in Ht as [Hlt Hle]. split; [lia|exact Hle].
Qed.

Lemma framePoolSizes_pos (i : nat) (poolSize : Z) :
  framePoolSizes !! i = Some poolSize -> 0 < poolSize.
Proof.
  do 4 (destruct i as [|i]; [intros [= <-]; reflexivity|]). discriminate.
Qed.

Lemma cap_make (size : Z) : 0 <= size -> cap (make size) = size.
Proof.
  intros H0. unfold cap, make, len. cbn [backing].
  rewrite length_replicate. lia.
Qed.

Lemma pools_ok_init : pools_ok initPools.
Proof.
  split; [reflexivity|]. intros i items buf poolSize Hi Hin _.
  unfold initPools in Hi. apply lookup_replicate_1 in Hi as [-> _].
  destruct Hin.
Qed.

Lemma pools_ok_insert (pools : list (list Buffer)) (i : nat) (items : list Buffer) :
  pools_ok pools ->
  (forall buf poolSize, In buf items -> framePoolSizes !! i = Some poolSize ->
                        poolSize <= cap buf) ->
  pools_ok (<[i := items]> pools).
Proof.
  intros [Hlen Hok] Hitems. split; [now rewrite length_insert|].
  intros j items' buf poolSize Hj Hin Hsz.
  destruct (decide (i = j)) as [<-|Hne].
  - apply list_lookup_insert_Some in Hj as [(_ & <- & _)|[Hne _]];
      [|contradiction].
    now apply Hitems.
  - rewrite list_lookup_insert_ne in Hj by exact Hne. now apply (Hok j items').
Qed.

Lemma GetFrameBuffer_ok (size : Z) (pick : option nat) (pools : list (list Buffer)) :
  pools_ok pools -> 0 <= size ->
  exists buf pools',
    GetFrameBuffer size pick pools = (Ok buf, pools') /\
    blen buf = size /\ size <= cap buf /\ pools_ok pools'.
Proof.
  intros Hok H0. unfold GetFrameBuffer.
  destruct (tierFor size framePoolSizes 0) as [[i poolSize]|] eqn:Ht.
  - apply tierFor_spec in Ht as (k & -> & Hk & Hle). cbn [Nat.add].
    assert (Hsub : forall b, In b (default [] (pools !! k)) -> poolSize <= cap b).
    { intros b Hb. destruct (pools !! k) as [items|] eqn:Hi; [|destruct Hb].
      destruct Hok as [_ Hok]. now apply (Hok k items). }
    assert (Hget : exists buf items,
               syncPoolGet (default [] (pools !! k)) pick (make poolSize)
                 = (buf, items) /\ poolSize <= cap buf /\
               forall b, In b items -> In b (default [] (pools !! k))).
    { unfold syncPoolGet.
      assert (Hnew : poolSize <= cap (make poolSize)).
      { rewrite cap_make; lia. }
      destruct pick as [j|]; [|eauto 6].
      destruct (default [] (pools !! k) !! j) as [buf|] eqn:Hj; [|eauto 6].
      exists buf, (delete j (default [] (pools !! k))).
      split; [reflexivity|]. split.
      - apply Hsub. apply list_elem_of_In. eapply list_elem_of_lookup_2, Hj.
      - intros b Hb. apply list_elem_of_In.
        eapply list_elem_of_delete_inv. apply list_elem_of_In. exact Hb. }
    destruct Hget as (buf & items & -> & Hcap & Hitems).
    unfold reslice.
    destruct (Z.leb_spec 0 size); [|lia].
    destruct (Z.leb_spec size (cap buf)) as [Hfit|]; [|lia].
    cbn [andb]. eexists _, _. split; [reflexivity|].
    split; [reflexivity|]. split; [exact Hfit|].
    apply pools_ok_insert; [exact Hok|].
    intros b p Hb Hp. rewrite Hk in Hp. injection Hp as <-.
    apply Hsub, Hitems, Hb.
  - eexists _, _. split; [reflexivity|]. split; [reflexivity|].
    split; [|exact Hok]. rewrite cap_make; lia.
Qed.

Lemma PutFrameBuffer_ok (buf : option Buffer) (pools : list (list Buffer)) :
  pools_ok pools -> pools_ok (PutFrameBuffer buf pools).
Proof.
  intros Hok. unfold PutFrameBuffer.
  destruct buf as [buf|]; [|exact Hok].
  destruct (tierOf (cap buf) numFramePools) as [i|] eqn:Ht; [|exact Hok].
  apply tierOf_spec in Ht as [_ Hle].
  apply pools_ok_insert; [exact Hok|].
  intros b p [<-|Hb] Hp.
  - rewrite Hp in Hle. exact Hle.
  - destruct (pools !! i) as [items|] eqn:Hi; [|destruct Hb].
    destruct Hok as [_ Hok]. now apply (Hok i items).
Qed.

Lemma runCalls_ok (calls : list PoolCall) : forall pools,
  pools_ok pools ->
  Forall (fun c => match c with CallGet size _ => 0 <= size | CallPut _ => True end)
    calls ->
  exists bufs pools',
    runCalls calls pools = (Ok bufs, pools') /\
    Forall2 (fun buf size => blen buf = size /\ size <= cap buf)
      bufs (requested_sizes calls) /\
    pools_ok pools'.
Proof.
  induction calls as [|c calls IH]; intros pools Hok Hall.
  - exists [], pools. split; [reflexivity|]. split; [constructor|exact Hok].
  - apply Forall_cons in Hall as [Hc Hall]. destruct c as [size pick|buf].
    + destruct (GetFrameBuffer_ok size pick pools Hok Hc)
        as (buf & pools1 & Hget & Hlen & Hcap & Hok1).
      destruct (IH pools1 Hok1 Hall) as (bufs & pools2 & Hrun & Hbufs & Hok2).
      exists (buf :: bufs), pools2. cbn [runCalls]. rewrite Hget, Hrun.
      split; [reflexivity|]. split; [|exact Hok2].
      unfold requested_sizes. cbn [omap]. constructor; [split; assumption|].
      exact Hbufs.
    + destruct (IH (PutFrameBuffer buf pools) (PutFrameBuffer_ok _ _ Hok) Hall)
        as (bufs & pools2 & Hrun & Hbufs & Hok2).
      exists bufs, pools2. cbn [runCalls]. rewrite Hrun.
      split; [reflexivity|]. split; [exact Hbufs|exact Hok2].
Qed.

End PoolFacts.

(** X8 (the buffer pools never hand out a buffer that is too small): start
    from empty pools and make any sequence of calls of [GetFrameBuffer], with
    sizes that are not negative, and of [PutFrameBuffer], with any buffers at
    all, whatever the runtime's pools choose to return.  No call panics, and
    each [GetFrameBuffer(size)] returns a slice of exactly [size] bytes. *)
Theorem X8_pooled_buffers_fit (calls : list PoolCall) :
  Forall (fun c => match c with CallGet size _ => 0 <= size | CallPut _ => True end)
    calls ->
  exists bufs pools',
    runCalls calls Pool.initPools = (Ok bufs, pools') /\
    Forall2 (fun buf size => Pool.blen buf = size /\ size <= Pool.cap buf)
      bufs (requested_sizes calls).
Proof.
  intros Hall.
  destruct (PoolFacts.runCalls_ok calls Pool.initPools PoolFacts.pools_ok_init Hall)
    as (bufs & pools' & Hrun & Hbufs & _).
  eauto.
Qed.

Lemma X8_pooled_buffers_fit_witness :
  let calls := [CallPut (Some (Pool.make 3000)); CallGet 100 (Some 0%nat);
                CallGet 2048 (Some 0%nat); CallPut None; CallGet 200000 None] in
  exists bufs pools',
    runCalls calls Pool.initPools = (Ok bufs, pools') /\
    Forall2 (fun buf size => Pool.blen buf = size /\ size <= Pool.cap buf)
      bufs (requested_sizes calls).
Proof.
  intros calls. apply (X8_pooled_buffers_fit calls).
  repeat constructor; lia.
Defined.

(** ** A request through the tunnel *)

Import Session.

Lemma len_encodeRequestHeader (t : Target) :
  len (encodeRequestHeader t) <= 5 + len (TAddress t).
Proof.
  unfold encodeRequestHeader, len.
  destruct (TFamily t); cbn [app length]; lia.
Qed.

(** X29 (a request through the tunnel): client and server hold the same
    32-byte session key.  The client sends the request header for its target
    and then the buffers its link yields; the server, run on the bytes the
    client has written, parses the client's command, port and address, and
    delivers to its link the bytes of the header from offset 12 on, if any,
    followed by exactly the client's buffers. *)
Theorem X29_request_through_tunnel `{Cipher} `{!CipherCorrect}
    (sessionKey : list byte) (t : Target) (mbs : list (list (list byte)))
    (err : string) :
  length sessionKey = 32%nat ->
  0 <= TPort t < 65536 ->
  match TFamily t with
  | AddressFamilyIPv4 => length (TAddress t) = 4%nat
  | AddressFamilyIPv6 => length (TAddress t) = 16%nat
  | AddressFamilyDomain => (2 <= length (TAddress t) <= 255)%nat
  end ->
  Forall (Forall (fun b => len b <= 65516)) mbs ->
  exists conn,
    outboundUpstream sessionKey t mbs err [] = (Err err, conn) /\
    inboundUpstream (S (length (concat mbs))) sessionKey conn []
    = Some (Some {| Version := 1; Command := TCommand t; Port := TPort t;
                    RAddress :=
                      Some (match TFamily t with
                            | AddressFamilyDomain => DomainAddress (TAddress t)
                            | _ => IPAddress (TAddress t)
                            end) |},
            Err "EOF", [],
            drop 12 (encodeRequestHeader t) ++ concat (concat mbs)).
Proof.
  intros Hk Hport Haddr Hall.
  destruct (New_ok sessionKey Hk) as (e & d & He & Hd & _ & _).
  pose proof (fresh_synced _ _ _ He Hd) as Hs.
  unfold outboundUpstream, inboundUpstream. rewrite He, Hd.
  set (first := mkFrame FrameTypeData (encodeRequestHeader t)).
  unfold WriteFrame, EncodeToWriter.
  destruct (encodeFrame e first) as [out e1] eqn:Eout.
  change (Write [] out) with (Ok tt, [] ++ out). cbn [app].
  rewrite responseDone_Buffer.
  set (fs := map (mkFrame FrameTypeData) (concat mbs)).
  eexists. split; [reflexivity|].
  assert (Hlen : len (Payload first) <= 65516).
  { cbn [first Payload]. pose proof (len_encodeRequestHeader t) as Hl.
    assert (len (TAddress t) <= 255); [|lia].
    unfold len. destruct (TFamily t); lia. }
  destruct (ReadFrame_encodeFrame e d first (encodeStream e1 fs).1 Hs Hlen)
    as (d1 & Hread & Hs1).
  rewrite Eout in Hread, Hs1. cbn [fst snd] in Hread, Hs1.
  rewrite Hread. cbn [first FType Payload].
  change (negb (Byte.eqb FrameTypeData FrameTypeData)) with false. cbv iota.
  pose proof (parseRequestHeader_encodeRequestHeader t [] Hport) as Hparse.
  rewrite app_nil_r in Hparse. rewrite Hparse.
  2:{ destruct (TFamily t); [exact Haddr|exact Haddr|]. cbn [length]. lia. }
  assert (Hrelay : forall link : list byte,
             exists d', relayFrames (S (length (concat mbs))) d1
                          (encodeStream e1 fs).1 link
                        = Some (Err "EOF", d', [], link ++ concat (concat mbs))).
  { intros link.
    destruct (relayFrames_encodeStream fs (S (length (concat mbs))) e1 d1 link Hs1)
      as (d' & Hr).
    - subst fs. apply Forall_map. apply Forall_concat.
      eapply Forall_impl; [exact Hall|]. cbn beta. intros mb Hmb.
      eapply Forall_impl; [exact Hmb|]. cbn beta. intros b Hb.
      split; [reflexivity | exact Hb].
    - subst fs. rewrite length_map. lia.
    - exists d'. rewrite Hr. subst fs. rewrite map_map. cbn [Payload].
      now rewrite map_id. }
  unfold firstFrameData.
  destruct (Z.ltb_spec 12 (len (encodeRequestHeader t))) as [Hlong|Hshort].
  - destruct (Z.ltb_spec (Z.of_nat 12) (len (encodeRequestHeader t))); [|lia].
    change (Write [] (drop 12 (encodeRequestHeader t)))
      with (Ok tt, [] ++ drop 12 (encodeRequestHeader t)).
    cbn [app]. destruct (Hrelay (drop 12 (encodeRequestHeader t))) as (d' & ->).
    reflexivity.
  - destruct (Hrelay []) as (d' & ->).
    rewrite drop_ge by (unfold len in Hshort; lia). reflexivity.
Qed.

Lemma X29_request_through_tunnel_witness :
  let mbs := [[list_byte_of_string "GET / HTTP/1.1"]; [[x0d; x0a]; [x0d; x0a]]] in
  exists conn,
    @outboundUpstream ToyCipher.toy _ _ key_00_1f ipv6_target mbs "EOF" []
    = (Err "EOF", conn) /\
    @inboundUpstream ToyCipher.toy _ _ (S (length (concat mbs))) key_00_1f conn []
    = Some (Some {| Version := 1; Command := TCommand ipv6_target;
                    Port := TPort ipv6_target;
                    RAddress := Some (IPAddress (TAddress ipv6_target)) |},
            Err "EOF", [],
            drop 12 (encodeRequestHeader ipv6_target) ++ concat (concat mbs)).
Proof.
  intros mbs.
  apply (@X29_request_through_tunnel ToyCipher.toy ToyCipherFacts.toy_correct
           key_00_1f ipv6_target mbs "EOF").
  - reflexivity.
  - vm_compute. split; congruence.
  - reflexivity.
  - repeat constructor; vm_compute; discriminate.
Defined.
